(** * StickerSearch: a shallow embedding of [image_search_core]

    This development models the two core modules of the repository,
    [image_search_core/indexer.py] (class [ImageIndexer]) and
    [image_search_core/searcher.py] (class [ImageSearcher]), and proves the
    properties stated for them.

    Modelling conventions.
    - Python [str] values are [string]s over ASCII; [None]-able values are
      [option]s.
    - Python dicts are association lists with the Python update discipline
      (assigning an existing key keeps its position, a new key is appended).
      Python sets are duplicate-free lists; their iteration order is the one
      of the list that built them.
    - Tensors of floats are lists of primitive binary64 floats ([float]);
      torch computes in float32, no property below depends on rounding.
      [torch.topk] is a stable selection: equal scores keep index order.
    - Exceptions are the constructors of [exn]; the text printed by [print]
      is not modelled.
    - Calls to the external model (loading it, text features, image
      features) are recorded as events, so that "the embedder is not
      invoked" is a statement about the event trace. *)

From Stdlib Require Import String Ascii List ZArith Bool Arith Lia Floats.
From Stdlib Require Import Permutation Sorting.Permutation Sorting.Sorted.
Import ListNotations.

(** ** Python building blocks *)

Module Py.

(** [str.isspace] restricted to ASCII: tab, LF, VT, FF, CR, the four
    separators 0x1c-0x1f and space. *)
Definition is_space (a : ascii) : bool :=
  let n := nat_of_ascii a in
  ((9 <=? n) && (n <=? 13)) || ((28 <=? n) && (n <=? 32)).

Fixpoint drop_spaces (l : list ascii) : list ascii :=
  match l with
  | [] => []
  | a :: l' => if is_space a then drop_spaces l' else l
  end.

(** [s.strip()] *)
Definition strip (s : string) : string :=
  string_of_list_ascii
    (rev (drop_spaces (rev (drop_spaces (list_ascii_of_string s))))).

(** [s.split(sep)] for a one-character separator: empty fields are kept. *)
Fixpoint split_chars (sep : ascii) (l : list ascii) (cur : list ascii)
  : list string :=
  match l with
  | [] => [string_of_list_ascii (rev cur)]
  | a :: l' =>
      if Ascii.eqb a sep
      then string_of_list_ascii (rev cur) :: split_chars sep l' []
      else split_chars sep l' (a :: cur)
  end.

Definition split (sep : ascii) (s : string) : list string :=
  split_chars sep (list_ascii_of_string s) [].

(** Truthiness of an [Optional[str]]: [None] and [""] are false. *)
Definition truthy (o : option string) : bool :=
  match o with
  | Some s => negb (String.eqb s "")
  | None => false
  end.

(** [x and x.strip()] for an [Optional[str]]. *)
Definition nonblank (o : option string) : bool :=
  match o with
  | Some s => negb (String.eqb (strip s) "")
  | None => false
  end.

(** Membership in a list of strings ([x in xs]). *)
Definition mem (x : string) (xs : list string) : bool :=
  existsb (String.eqb x) xs.

(** [set(xs)]: duplicates dropped, first occurrences kept in order. *)
Definition set_of (xs : list string) : list string :=
  fold_left (fun acc x => if mem x acc then acc else acc ++ [x]) xs [].

(** Slicing [l[a:b]] with Python's handling of negative and too-large
    bounds. *)
Definition norm_index (i : Z) (len : nat) : nat :=
  if (i <? 0)%Z then Z.to_nat (Z.max 0 (Z.of_nat len + i))
  else Nat.min (Z.to_nat i) len.

Definition slice {A} (l : list A) (a b : Z) : list A :=
  let a' := norm_index a (length l) in
  let b' := norm_index b (length l) in
  firstn (b' - a') (skipn a' l).

Definition slice_from {A} (l : list A) (a : Z) : list A :=
  skipn (norm_index a (length l)) l.

End Py.

(** Python dicts with string keys. *)
Module Dict.

Definition t (V : Type) := list (string * V).

Fixpoint get {V} (k : string) (d : t V) : option V :=
  match d with
  | [] => None
  | (k', v) :: d' => if String.eqb k k' then Some v else get k d'
  end.

(** [d[k] = v]: an existing key keeps its position. *)
Fixpoint set {V} (k : string) (v : V) (d : t V) : t V :=
  match d with
  | [] => [(k, v)]
  | (k', v') :: d' =>
      if String.eqb k k' then (k', v) :: d' else (k', v') :: set k v d'
  end.

(** [del d[k]] *)
Fixpoint del {V} (k : string) (d : t V) : t V :=
  match d with
  | [] => []
  | (k', v') :: d' => if String.eqb k k' then d' else (k', v') :: del k d'
  end.

Definition keys {V} (d : t V) : list string := map fst d.
Definition values {V} (d : t V) : list V := map snd d.

(** [{k: v for k, v in pairs}] *)
Definition of_list {V} (pairs : list (string * V)) : t V :=
  fold_left (fun d kv => set (fst kv) (snd kv) d) pairs [].

End Dict.

(** Python exceptions raised by the modelled code. *)
Inductive exn : Type :=
| ValueError
| IndexError
| TypeError
| RuntimeError.

Inductive result (A : Type) : Type :=
| Ok (a : A)
| Raise (e : exn).
Arguments Ok {A} a.
Arguments Raise {A} e.

(** ** Float vectors and the torch operations used by the searcher *)

Module Vec.
Open Scope float_scope.

(** [torch.cat] and [@] raise on rows of different lengths, whereas [dot]
    and [vadd] below stop at the shorter one: statements whose conclusion
    depends on it assume one common dimension. *)
Definition vec := list float.

Fixpoint dot (u v : vec) : float :=
  match u, v with
  | x :: u', y :: v' => x * y + dot u' v'
  | _, _ => 0
  end.

Fixpoint vadd (u v : vec) : vec :=
  match u, v with
  | x :: u', y :: v' => (x + y) :: vadd u' v'
  | _, _ => []
  end.

Fixpoint vsub (u v : vec) : vec :=
  match u, v with
  | x :: u', y :: v' => (x - y) :: vsub u' v'
  | _, _ => []
  end.

Fixpoint float_of_nat (n : nat) : float :=
  match n with
  | O => 0
  | S n' => float_of_nat n' + 1
  end.

(** [torch.mean(torch.cat(rows, dim=0), dim=0, keepdim=True)] *)
Definition mean_rows (rows : list vec) : vec :=
  match rows with
  | [] => []
  | r :: rs =>
      let n := float_of_nat (length rows) in
      map (fun x => x / n) (fold_left vadd rs r)
  end.

(** The binary64 value nearest to [1e-12]. *)
Definition eps : float := 0x1.19799812dea11p-40.

(** [F.normalize(v, p=2, dim=-1)]: [v / max(||v||_2, eps)]. *)
Definition normalize (v : vec) : vec :=
  let n := PrimFloat.sqrt (dot v v) in
  let d := if PrimFloat.ltb n eps then eps else n in
  map (fun x => x / d) v.

End Vec.
Import Vec.
Close Scope float_scope.

(** [torch.topk(scores, k)]: the [k] best (index, score) pairs by descending
    score; equal scores keep increasing index order. *)
Fixpoint insert_desc (x : nat * float) (l : list (nat * float))
  : list (nat * float) :=
  match l with
  | [] => [x]
  | y :: l' =>
      if PrimFloat.ltb (snd y) (snd x) then x :: l else y :: insert_desc x l'
  end.

Definition rank (scores : list float) : list (nat * float) :=
  fold_left (fun acc x => insert_desc x acc)
    (combine (seq 0 (length scores)) scores) [].

Definition topk (scores : list float) (k : nat) : list (nat * float) :=
  firstn k (rank scores).

(** ** [ImageSearcher] (searcher.py) *)

Module Searcher.

(** Calls to the external model. *)
Inductive event : Type :=
| EvLoadModel                      (* self.model_loader.load() *)
| EvTextFeatures (texts : list string).  (* model.get_text_features *)

(** The state built by [__init__]: [image_paths] (already made absolute)
    and the raw [image_features] rows, one per path. *)
Record searcher : Type := {
  image_paths : list string;
  image_features : list vec
}.

Definition normalized_image_features (s : searcher) : list vec :=
  map normalize (image_features s).

(** [self.path_to_idx = {path: i for i, path in enumerate(self.image_paths)}] *)
Definition path_to_idx (s : searcher) : Dict.t nat :=
  Dict.of_list (combine (image_paths s) (seq 0 (length (image_paths s)))).

(** [(v @ self.normalized_image_features.T).squeeze()] *)
Definition scores_against (s : searcher) (v : vec) : list float :=
  map (dot v) (normalized_image_features s).

(** [[kw.strip() for kw in negative_query.split(',') if kw.strip()]] *)
Definition negative_keywords (nq : string) : list string :=
  filter (fun kw => negb (String.eqb kw ""))
    (map Py.strip (Py.split ","%char nq)).

Section Search.

(** The text tower of the external model: [model.get_text_features] on one
    text (a padded batch gives one row per text). *)
Variable get_text_features : string -> vec.

(** The body of [if negative_keywords:] : average, normalize, score and
    subtract. *)
Definition subtract_negative (s : searcher) (kws : list string)
    (positive_scores : list float) : list float :=
  let neg_text_features := map get_text_features kws in
  let avg_neg_features := mean_rows neg_text_features in
  let normalized_neg := normalize avg_neg_features in
  vsub positive_scores (scores_against s normalized_neg).

(** Step 3 of [search] (the model is already loaded). *)
Definition apply_negative (s : searcher) (negative_query : option string)
    (positive_scores : list float) : list event * list float :=
  if Py.nonblank negative_query then
    let kws := negative_keywords (match negative_query with
                                  | Some q => q | None => "" end) in
    match kws with
    | [] => ([], positive_scores)
    | _ => ([EvTextFeatures kws], subtract_negative s kws positive_scores)
    end
  else ([], positive_scores).

(** Step 1 of [search]: the list [positive_vectors] and the model calls
    made to build it. *)
Definition positive_vectors (s : searcher) (query : option string)
    (similar_image_path : option string) : list event * list vec :=
  let '(ev, text_part) :=
    match query with
    | Some q =>
        if Py.nonblank query
        then ([EvTextFeatures [q]], [get_text_features q]) else ([], [])
    | None => ([], [])
    end in
  let image_part :=
    match similar_image_path with
    | Some p =>
        if Py.nonblank similar_image_path then
          match Dict.get p (path_to_idx s) with
          | Some i => [nth i (image_features s) []]
          | None => []   (* warning printed, reference ignored *)
          end
        else []
    | None => []
    end in
  (ev, text_part ++ image_part).

(** Step 4 of [search]: [total_results_to_fetch], [torch.topk] and the
    offset.  With a single indexed image the score tensor is squeezed to
    0-d, [topk] returns 0-d tensors and [indices[offset:]] raises
    [IndexError]; a negative [k] makes [topk] raise [RuntimeError]. *)
Definition search_page (s : searcher) (final_scores : list float)
    (top_k offset : Z) : result (list (string * float)) :=
  let n := length (image_paths s) in
  let total := Z.min (top_k + offset) (Z.of_nat n) in
  if (total <=? offset)%Z then Ok []
  else if (total <? 0)%Z then Raise RuntimeError
  else if Nat.eqb n 1 then Raise IndexError
  else
    let top := topk final_scores (Z.to_nat total) in
    Ok (map (fun r => (nth (fst r) (image_paths s) ""%string, snd r))
            (Py.slice_from top offset)).

(** [ImageSearcher.search], in a run where [self.model_loader.load()]
    (line 38) returns the model and processor; [search_with_load] below
    adds the run where it raises. *)
Definition search (s : searcher) (query : option string) (top_k : Z)
    (negative_query : option string) (similar_image_path : option string)
    (offset : Z) : list event * result (list (string * float)) :=
  if (top_k <=? 0)%Z || negb (Py.truthy query || Py.truthy similar_image_path)
  then ([], Ok [])
  else
    let '(ev1, pvs) := positive_vectors s query similar_image_path in
    match pvs with
    | [] => (EvLoadModel :: ev1, Ok [])
    | _ =>
        let combined_positive_features := mean_rows pvs in
        let normalized_positive_features :=
          normalize combined_positive_features in
        let positive_scores :=
          scores_against s normalized_positive_features in
        let '(ev2, final_scores) :=
          apply_negative s negative_query positive_scores in
        (EvLoadModel :: ev1 ++ ev2, search_page s final_scores top_k offset)
    end.

(** The scores of [search_by_image]: the normalized row of the query image
    against the normalized corpus, minus the negative-keyword scores; the
    model is loaded only for a non-blank negative query. *)
Definition image_query_scores (s : searcher) (query_idx : nat)
    (negative_query : option string) : list event * list float :=
  let query_vector := nth query_idx (normalized_image_features s) [] in
  let positive_scores := scores_against s query_vector in
  if Py.nonblank negative_query then
    let '(ev', sc) := apply_negative s negative_query positive_scores in
    (EvLoadModel :: ev', sc)
  else ([], positive_scores).

(** [ImageSearcher.search_by_image], in a run where
    [self.model_loader.load()] (line 118) returns the model.  With a single
    indexed image the 0-d [topk] result cannot be iterated by [zip]:
    [TypeError]. *)
Definition search_by_image (s : searcher) (image_path : string) (top_k : Z)
    (negative_query : option string) (offset : Z)
  : list event * result (list (string * float)) :=
  if (top_k <=? 0)%Z then ([], Ok [])
  else
    match Dict.get image_path (path_to_idx s) with
    | None => ([], Raise ValueError)
    | Some query_idx =>
        let '(ev, final_scores) :=
          image_query_scores s query_idx negative_query in
        let n := length (image_paths s) in
        let total := Z.min (top_k + offset + 1) (Z.of_nat n) in
        if (total <? 0)%Z then (ev, Raise RuntimeError)
        else if Nat.eqb n 1 then (ev, Raise TypeError)
        else
          let top := topk final_scores (Z.to_nat total) in
          let all_results :=
            map (fun r => (nth (fst r) (image_paths s) ""%string, snd r))
              (filter (fun r => negb (Nat.eqb (fst r) query_idx)) top) in
          (ev, Ok (Py.slice all_results offset (offset + top_k)))
    end.

(** [ImageSearcher.search] with the outcome of [self.model_loader.load()]:
    after the guard of line 35 the model is loaded; when [load_ok] is
    false, [load] raises [RuntimeError] (it wraps [OSError] and
    [ImportError]) and the call ends there; otherwise the run is
    [search]. *)
Definition search_with_load (load_ok : bool) (s : searcher)
    (query : option string) (top_k : Z) (negative_query : option string)
    (similar_image_path : option string) (offset : Z)
  : list event * result (list (string * float)) :=
  if (top_k <=? 0)%Z || negb (Py.truthy query || Py.truthy similar_image_path)
  then ([], Ok [])
  else if load_ok
  then search s query top_k negative_query similar_image_path offset
  else ([EvLoadModel], Raise RuntimeError).

(** [ImageSearcher.search_by_image] with the outcome of
    [self.model_loader.load()], which is called only for a non-blank
    negative query, after the index lookup of line 105. *)
Definition search_by_image_with_load (load_ok : bool) (s : searcher)
    (image_path : string) (top_k : Z) (negative_query : option string)
    (offset : Z) : list event * result (list (string * float)) :=
  if (top_k <=? 0)%Z then ([], Ok [])
  else
    match Dict.get image_path (path_to_idx s) with
    | None => ([], Raise ValueError)
    | Some _ =>
        if load_ok || negb (Py.nonblank negative_query)
        then search_by_image s image_path top_k negative_query offset
        else ([EvLoadModel], Raise RuntimeError)
    end.

End Search.

End Searcher.

(** ** [ImageIndexer] (indexer.py) *)

Module Indexer.

(** The dict [{"features": [...], "paths": [...], "hashes": [...]}] that
    [update] threads through its helpers.  A hash is the hex SHA-256 digest
    or [None] (index files written before hashes were recorded). *)
Record indexed_data : Type := {
  features : list vec;
  paths : list string;
  hashes : list (option string)
}.

Definition empty_data : indexed_data :=
  {| features := []; paths := []; hashes := [] |}.

(** The arrays of the [.npz] file, as written by [_save_index] ([hashes]
    may be missing in an old file). *)
Record persisted : Type := {
  p_features : list vec;
  p_paths : list string;
  p_hashes : option (list (option string));
  p_base_dir : string
}.

(** The index file on disk when [update] starts. *)
Inductive index_file : Type :=
| NoIndexFile
| CorruptIndexFile            (* [np.load] raises *)
| IndexFile (r : persisted).

Definition index_file_exists (f : index_file) : bool :=
  match f with NoIndexFile => false | _ => true end.

(** What [update] sees of the outside world. *)
Record env : Type := {
  image_dir : string;              (* os.path.abspath(self.image_dir) *)
  cwd : string;                    (* os.getcwd() *)
  index_path : string;             (* self.index_file *)
  abspath : string -> string;      (* os.path.abspath *)
  relpath : string -> string;      (* os.path.relpath(_, cwd) *)
  disk_scan : list string;         (* the glob hits of every extension,
                                      made absolute, in order *)
  calculate_hash : string -> option string;  (* utils.calculate_hash *)
  image_features_of : string -> option vec
    (* decoding the image (or a random frame) and
       [model.get_image_features]; [None] when the file is skipped *)
}.

(** Effects of [update]. *)
Inductive event : Type :=
| EvLoadModel                         (* self.model_loader.load() *)
| EvImageFeatures (path : string)     (* feature extraction attempted *)
| EvSaveIndex (r : persisted)         (* np.savez_compressed *)
| EvRemoveIndex                       (* os.remove(self.index_file) *)
| EvSaveConfig (dir : string).        (* _save_image_dir_to_config *)

Record summary : Type := {
  s_new : nat;
  s_modified : nat;
  s_deleted : nat;
  s_moved : nat;
  s_total : nat
}.

(** [update] returns the summary; the [store] field exposes the local
    [final_data] ([indexed_data] when nothing changed). *)
Record update_out : Type := {
  out_summary : summary;
  out_store : indexed_data
}.

(** [_load_or_initialize_index]: the data and [path_to_hash]
    ([hash_to_path] is built too but [update] never uses it). *)
Definition load_or_initialize_index (e : env) (f : index_file)
  : indexed_data * Dict.t (option string) :=
  match f with
  | NoIndexFile | CorruptIndexFile => (empty_data, [])
  | IndexFile r =>
      let resolved_paths := map (abspath e) (p_paths r) in
      let hs := match p_hashes r with
                | Some hs => hs
                | None => repeat None (length resolved_paths)
                end in
      ({| features := p_features r; paths := resolved_paths; hashes := hs |},
       Dict.of_list (combine resolved_paths hs))
  end.

(** [indexed_path_to_hash.get(path)] ([None] for a missing key). *)
Definition stored_hash (ph : Dict.t (option string)) (p : string)
  : option string :=
  match Dict.get p ph with Some h => h | None => None end.

Definition opt_eqb (a b : option string) : bool :=
  match a, b with
  | Some x, Some y => String.eqb x y
  | None, None => true
  | _, _ => false
  end.

(** Step 4 of [_scan_and_compare]: the loop over [potentially_new_paths]
    with the accumulators [moved], [truly_new] and the consumed
    [deleted_hash_to_path]. *)
Definition detect_moves (e : env) (potentially_new : list string)
    (deleted_hash_to_path : Dict.t string)
  : list (string * string) * list string * Dict.t string :=
  fold_left
    (fun acc path =>
       let '(moved, truly_new, dh) := acc in
       match calculate_hash e path with
       | None => acc
       | Some h =>
           match Dict.get h dh with
           | Some old_path => (moved ++ [(old_path, path)], truly_new,
                               Dict.del h dh)
           | None => (moved, truly_new ++ [path], dh)
           end
       end)
    potentially_new ([], [], deleted_hash_to_path).

(** [_scan_and_compare]: [(truly_new, modified, truly_deleted, moved)],
    a move being [(old_path, new_path)]. *)
Definition scan_and_compare (e : env) (ph : Dict.t (option string))
  : list string * list string * list string * list (string * string) :=
  let current := Py.set_of (disk_scan e) in
  let indexed := Py.set_of (Dict.keys ph) in
  let potentially_new := filter (fun p => negb (Py.mem p indexed)) current in
  let potentially_deleted :=
    filter (fun p => negb (Py.mem p current)) indexed in
  let unchanged_or_modified := filter (fun p => Py.mem p indexed) current in
  let modified :=
    filter (fun p => match calculate_hash e p with
                     | None => false
                     | Some h => negb (opt_eqb (Some h) (stored_hash ph p))
                     end) unchanged_or_modified in
  let deleted_hash_to_path :=
    fold_left (fun dh p => match stored_hash ph p with
                           | Some h => Dict.set h p dh
                           | None => dh
                           end) potentially_deleted [] in
  let '(moved, truly_new, dh) :=
    detect_moves e potentially_new deleted_hash_to_path in
  (truly_new, modified, Dict.values dh, moved).

(** [indexed_data['paths'][idx] = new_path], [idx] being in range. *)
Fixpoint list_set {A} (l : list A) (i : nat) (v : A) : list A :=
  match l, i with
  | [], _ => []
  | _ :: l', O => v :: l'
  | x :: l', S i' => x :: list_set l' i' v
  end.

(** Step 1 of [_process_changes]: relabel the moved entries in place, using
    the [path_to_idx] built before the loop. *)
Definition apply_moves (ps : list string) (moved : list (string * string))
  : list string :=
  let path_to_idx := Dict.of_list (combine ps (seq 0 (length ps))) in
  fold_left (fun acc m =>
               match Dict.get (fst m) path_to_idx with
               | Some idx => list_set acc idx (snd m)
               | None => acc
               end) moved ps.

(** Step 2 of [_process_changes]: the loop over [enumerate(paths)] that
    copies the entries not in [paths_to_remove]; [features[i]] and
    [hashes[i]] raise [IndexError] when out of range. *)
Fixpoint keep_entries (feats : list vec) (hs : list (option string))
    (to_remove : list string) (i : nat) (ps : list string)
  : result (list vec * list string * list (option string)) :=
  match ps with
  | [] => Ok ([], [], [])
  | p :: ps' =>
      if Py.mem p to_remove then keep_entries feats hs to_remove (S i) ps'
      else
        match nth_error feats i, nth_error hs i with
        | Some f, Some h =>
            match keep_entries feats hs to_remove (S i) ps' with
            | Ok (fs, qs, hs') => Ok (f :: fs, p :: qs, h :: hs')
            | Raise ex => Raise ex
            end
        | _, _ => Raise IndexError
        end
  end.

(** Step 3 of [_process_changes]: feature extraction for the paths to
    process; a file whose decoding or embedding fails is skipped. *)
Definition extract_features (e : env) (paths_to_process : list string)
    (d : indexed_data) : list event * indexed_data :=
  fold_left
    (fun acc path =>
       let '(ev, d') := acc in
       (ev ++ [EvImageFeatures path],
        match image_features_of e path with
        | Some f => {| features := features d' ++ [f];
                       paths := paths d' ++ [path];
                       hashes := hashes d' ++ [calculate_hash e path] |}
        | None => d'
        end))
    paths_to_process ([], d).

(** [_process_changes] *)
Definition process_changes (e : env) (data : indexed_data)
    (new_paths modified_paths deleted_paths : list string)
    (moved_files : list (string * string))
  : list event * result indexed_data :=
  let ps := apply_moves (paths data) moved_files in
  let paths_to_remove := Py.set_of (modified_paths ++ deleted_paths) in
  match keep_entries (features data) (hashes data) paths_to_remove 0 ps with
  | Raise ex => ([], Raise ex)
  | Ok (fs, qs, hs) =>
      let final_data := {| features := fs; paths := qs; hashes := hs |} in
      match new_paths ++ modified_paths with
      | [] => ([], Ok final_data)
      | paths_to_process =>
          let '(ev, d) := extract_features e paths_to_process final_data in
          (EvLoadModel :: ev, Ok d)
      end
  end.

(** [abs_image_dir.startswith(current_dir + os.sep) or
    abs_image_dir == current_dir] *)
Definition is_in_current_folder (e : env) : bool :=
  String.prefix (cwd e ++ "/") (image_dir e) || String.eqb (image_dir e) (cwd e).

(** [_save_index] *)
Definition save_index (e : env) (f : index_file) (final_data : indexed_data)
  : list event :=
  match paths final_data with
  | [] => if index_file_exists f then [EvRemoveIndex] else []
  | _ =>
      let '(stored_base_dir, stored_paths) :=
        if is_in_current_folder e
        then (relpath e (image_dir e), map (relpath e) (paths final_data))
        else (image_dir e, paths final_data) in
      [EvSaveIndex {| p_features := features final_data;
                      p_paths := stored_paths;
                      p_hashes := Some (hashes final_data);
                      p_base_dir := stored_base_dir |}]
  end.

(** [ImageIndexer.update] *)
Definition update (e : env) (f : index_file) : list event * result update_out :=
  let '(indexed_data, path_to_hash) := load_or_initialize_index e f in
  let '(new, modified, deleted, moved) := scan_and_compare e path_to_hash in
  let mk total store :=
    {| out_summary := {| s_new := length new;
                         s_modified := length modified;
                         s_deleted := length deleted;
                         s_moved := length moved;
                         s_total := total |};
       out_store := store |} in
  match new, modified, deleted, moved with
  | [], [], [], [] => ([], Ok (mk (length (paths indexed_data)) indexed_data))
  | _, _, _, _ =>
      let '(ev, r) := process_changes e indexed_data new modified deleted moved in
      match r with
      | Raise ex => (ev, Raise ex)
      | Ok final_data =>
          (ev ++ save_index e f final_data ++ [EvSaveConfig (image_dir e)],
           Ok (mk (length (paths final_data)) final_data))
      end
  end.

End Indexer.

(** ** The file-system effect of [_save_index]

    [np.savez_compressed(file, **arrays)] appends [".npz"] to a name that
    lacks it, opens that path with [zipfile.ZipFile(file, "w")] (create or
    truncate), writes one member per array in keyword order and the central
    directory on close.  [os.remove] deletes the file. *)
Module Fs.
Import Indexer.

Inductive member : Type :=
| MFeatures (x : list vec)
| MPaths (x : list string)
| MHashes (x : list (option string))
| MBaseDir (x : string)
| MCentralDirectory.

Inductive fs_op : Type :=
| FsCreate (path : string)                (* open for writing, truncated *)
| FsAppend (path : string) (m : member)
| FsRemove (path : string).

(** The file system: the content of each existing file. *)
Definition fs := Dict.t (list member).

Definition ends_with (suf s : string) : bool :=
  let n := String.length s in
  let m := String.length suf in
  ((m <=? n)%nat && String.eqb (substring (n - m)%nat m s) suf)%bool.

Definition npz_name (file : string) : string :=
  if ends_with ".npz" file then file else (file ++ ".npz")%string.

Definition savez_compressed_ops (file : string) (r : persisted) : list fs_op :=
  let fn := npz_name file in
  [FsCreate fn;
   FsAppend fn (MFeatures (p_features r));
   FsAppend fn (MPaths (p_paths r));
   FsAppend fn (MHashes (match p_hashes r with Some h => h | None => [] end));
   FsAppend fn (MBaseDir (p_base_dir r));
   FsAppend fn MCentralDirectory].

(** The operations performed for the index-file events of [update]. *)
Definition index_ops (file : string) (ev : event) : list fs_op :=
  match ev with
  | EvSaveIndex r => savez_compressed_ops file r
  | EvRemoveIndex => [FsRemove file]
  | _ => []
  end.

Definition step (st : fs) (op : fs_op) : fs :=
  match op with
  | FsCreate p => Dict.set p [] st
  | FsAppend p m =>
      match Dict.get p st with
      | Some c => Dict.set p (c ++ [m]) st
      | None => st
      end
  | FsRemove p => Dict.del p st
  end.

Definition run (st : fs) (ops : list fs_op) : fs := fold_left step ops st.

(** The file-system operations of [_save_index] on [final_data]. *)
Definition save_ops (e : env) (f : index_file) (final_data : indexed_data)
  : list fs_op :=
  flat_map (index_ops (index_path e)) (save_index e f final_data).

End Fs.

(** ** Notions used in the statements *)

Module Stmt.
Import Searcher.
Local Open Scope string_scope.

(** A positive query vector can be resolved: a non-blank text, or a
    non-blank image reference that is in the index. *)
Definition positive_resolvable (s : searcher) (query : option string)
    (similar_image_path : option string) : bool :=
  Py.nonblank query ||
  match similar_image_path with
  | Some p => Py.nonblank similar_image_path &&
              match Dict.get p (path_to_idx s) with
              | Some _ => true | None => false
              end
  | None => false
  end.

(** Similarity to an item with the item's row taken out of the ranking:
    the other rows in ranking order, sliced [[offset, offset + top_k)]. *)
Definition ranked_without_self (gtf : string -> vec) (s : searcher)
    (image_path : string) (top_k : Z) (negative_query : option string)
    (offset : Z) : result (list (string * float)) :=
  match Dict.get image_path (path_to_idx s) with
  | None => Raise ValueError
  | Some qi =>
      let final_scores := snd (image_query_scores gtf s qi negative_query) in
      Ok (Py.slice
            (map (fun r => (nth (fst r) (image_paths s) "", snd r))
                 (filter (fun r => negb (Nat.eqb (fst r) qi))
                         (rank final_scores)))
            offset (offset + top_k))
  end.

(** A small text tower and corpora used as concrete inputs. *)
Definition text_tower (t : string) : vec :=
  if String.eqb t "cat" then [12%float; 4%float] else [1%float; 1%float].

Definition two_images : searcher :=
  {| image_paths := ["/img/a.png"; "/img/b.png"];
     image_features := [[0%float; 5%float]; [1%float; 0%float]] |}.

Definition one_image : searcher :=
  {| image_paths := ["/img/a.png"];
     image_features := [[1%float; 0%float]] |}.

(** Concrete inputs for the indexer. *)
Definition ext_env (scan : list string) (hash : string -> option string)
    (feat : string -> option vec) : Indexer.env :=
  {| Indexer.image_dir := "/data/img"; Indexer.cwd := "/home/u";
     Indexer.index_path := "image_features.npz";
     Indexer.abspath := fun p => p; Indexer.relpath := fun p => p;
     Indexer.disk_scan := scan; Indexer.calculate_hash := hash;
     Indexer.image_features_of := feat |}.

(** A library of two files; the second, a GIF whose frame count reads 0,
    yields no image and is skipped by feature extraction. *)
Definition gif_env : Indexer.env :=
  ext_env ["/data/img/a.png"; "/data/img/b.gif"]
    (fun p => if String.eqb p "/data/img/a.png" then Some "ha"
              else if String.eqb p "/data/img/b.gif" then Some "hb"
              else None)
    (fun p => if String.eqb p "/data/img/a.png"
              then Some [1%float; 0%float] else None).

(** What the first run on [gif_env] saves. *)
Definition gif_saved : Indexer.persisted :=
  {| Indexer.p_features := [[1%float; 0%float]];
     Indexer.p_paths := ["/data/img/a.png"];
     Indexer.p_hashes := Some [Some "ha"];
     Indexer.p_base_dir := "/data/img" |}.

Definition one_entry : Indexer.indexed_data :=
  {| Indexer.features := [[1%float; 0%float]];
     Indexer.paths := ["/data/img/a.png"];
     Indexer.hashes := [Some "ha"] |}.

(** The shape of an index store: the three sequences are co-indexed, with
    equal lengths, and no path occurs twice. *)
Definition store_inv (d : Indexer.indexed_data) : Prop :=
  length (Indexer.features d) = length (Indexer.paths d) /\
  length (Indexer.hashes d) = length (Indexer.paths d) /\
  NoDup (Indexer.paths d).

(** The same for the arrays of an index file (an old file may lack
    [hashes]). *)
Definition persisted_inv (r : Indexer.persisted) : Prop :=
  length (Indexer.p_features r) = length (Indexer.p_paths r) /\
  match Indexer.p_hashes r with
  | Some hs => length hs = length (Indexer.p_paths r)
  | None => True
  end /\
  NoDup (Indexer.p_paths r).

(** The path an entry carries after the moves [(old_path, new_path)] are
    applied: its new path when it was moved, its own path otherwise. *)
Definition relabel (moved : list (string * string)) (p : string) : string :=
  match Dict.get p moved with Some b => b | None => p end.

(** An index of two files, [a.png] and [c.png]; then [a.png] is renamed to
    [b.png] on disk, its bytes (hash ["ha"]) unchanged. *)
Definition rename_saved : Indexer.persisted :=
  {| Indexer.p_features := [[1%float; 0%float]; [0%float; 1%float]];
     Indexer.p_paths := ["/data/img/a.png"; "/data/img/c.png"];
     Indexer.p_hashes := Some [Some "ha"; Some "hc"];
     Indexer.p_base_dir := "/data/img" |}.

Definition rename_data : Indexer.indexed_data :=
  {| Indexer.features := [[1%float; 0%float]; [0%float; 1%float]];
     Indexer.paths := ["/data/img/a.png"; "/data/img/c.png"];
     Indexer.hashes := [Some "ha"; Some "hc"] |}.

Definition rename_env : Indexer.env :=
  ext_env ["/data/img/c.png"; "/data/img/b.png"]
    (fun p => if String.eqb p "/data/img/b.png" then Some "ha"
              else if String.eqb p "/data/img/c.png" then Some "hc"
              else None)
    (fun _ => None).

(** An existing index file holding an older index. *)
Definition old_fs : Fs.fs :=
  [("image_features.npz", [Fs.MBaseDir "/data/old"; Fs.MCentralDirectory])].

End Stmt.

(** ** The configuration file, [ModelLoader] and [ImageSearcher.__init__]

    [CONFIG_FILE] is shared by the indexer ([_save_image_dir_to_config]),
    the model loader ([_get_path_from_config]) and the web app
    ([get_persisted_image_dir]). *)
Module Config.
Local Open Scope string_scope.

(** JSON values as [json.load] returns them (numbers as integers: only their
    truthiness is used); an object is a dict. *)
#[warnings="-register-all"]
Inductive json : Type :=
| JNull
| JBool (b : bool)
| JNum (z : Z)
| JStr (s : string)
| JArr (l : list json)
| JObj (fields : Dict.t json).

(** The content of [CONFIG_FILE]: missing, not valid JSON ([json.load]
    raises [JSONDecodeError]), or a JSON document. *)
Inductive config_file : Type :=
| ConfigMissing
| ConfigInvalid
| ConfigJson (v : json).

(** Python exceptions raised around the configuration. *)
Inductive exc : Type :=
| FileNotFoundError
| JSONDecodeError
| AttributeError
| TypeError
| RuntimeError
| OSError
| ImportError
| LoadError.          (* np.load on an unreadable index file *)

Inductive outcome (A : Type) : Type :=
| Done (a : A)
| Raised (e : exc).
Arguments Done {A} a.
Arguments Raised {A} e.

(** Truthiness of a JSON value. *)
Definition truthy (v : json) : bool :=
  match v with
  | JNull => false
  | JBool b => b
  | JNum z => negb (Z.eqb z 0)
  | JStr s => negb (String.eqb s "")
  | JArr l => match l with [] => false | _ => true end
  | JObj d => match d with [] => false | _ => true end
  end.

(** [ImageIndexer._save_image_dir_to_config]: the new content of the file.
    [abs_image_dir] is [os.path.abspath(self.image_dir)].  An invalid file
    is replaced (after a warning); assigning a key of a JSON value that is
    not an object raises [TypeError] before anything is written. *)
Definition save_image_dir_to_config (abs_image_dir : string)
    (cf : config_file) : outcome config_file :=
  let config_data :=
    match cf with
    | ConfigMissing | ConfigInvalid => JObj []
    | ConfigJson v => v
    end in
  match config_data with
  | JObj d => Done (ConfigJson (JObj (Dict.set "image_base_dir"
                                        (JStr abs_image_dir) d)))
  | _ => Raised TypeError
  end.

(** [app.get_persisted_image_dir]: [IOError] and [JSONDecodeError] give
    [None]; [.get] on a JSON value that is not an object raises
    [AttributeError]; [os.path.abspath] of a truthy non-string raises
    [TypeError]. *)
Definition get_persisted_image_dir (abspath : string -> string)
    (cf : config_file) : outcome (option string) :=
  match cf with
  | ConfigMissing | ConfigInvalid => Done None
  | ConfigJson (JObj d) =>
      match Dict.get "image_base_dir" d with
      | None => Done None
      | Some v =>
          if truthy v then
            match v with
            | JStr s => Done (Some (abspath s))
            | _ => Raised TypeError
            end
          else Done None
      end
  | ConfigJson _ => Raised AttributeError
  end.

(** [ModelLoader._get_path_from_config]: a missing file raises
    [RuntimeError]; a [JSONDecodeError] is not caught. *)
Definition get_path_from_config (cf : config_file) : outcome (option json) :=
  match cf with
  | ConfigMissing => Raised RuntimeError
  | ConfigInvalid => Raised JSONDecodeError
  | ConfigJson (JObj d) => Done (Dict.get "model_path" d)
  | ConfigJson _ => Raised AttributeError
  end.

(** [self.model_path = model_path or self._get_path_from_config()] *)
Definition model_loader_path (model_path : option string) (cf : config_file)
  : outcome (option json) :=
  if Py.truthy model_path then Done (option_map JStr model_path)
  else get_path_from_config cf.

(** The state of a [ModelLoader]: [self.model] and [self.processor]. *)
Record loader (M P : Type) : Type := {
  model : option M;
  processor : option P
}.
Arguments model {M P} l.
Arguments processor {M P} l.
Arguments Build_loader {M P} model processor.

(** Calls to [from_pretrained]. *)
Inductive load_event : Type :=
| EvModelFromPretrained
| EvProcessorFromPretrained.

(** [except (OSError, ImportError) as e: raise RuntimeError(...)]
    ([FileNotFoundError] is a subclass of [OSError]). *)
Definition wrap_load_error (e : exc) : exc :=
  match e with
  | OSError | FileNotFoundError | ImportError => RuntimeError
  | e' => e'
  end.

(** [ModelLoader.load]: [from_model] and [from_processor] are the outcomes
    of the two [from_pretrained] calls (the import of [transformers]
    included).  A model loaded before the processor failed stays in
    [self.model]. *)
Definition load {M P} (from_model : outcome M) (from_processor : outcome P)
    (st : loader M P) : list load_event * (loader M P * outcome (M * P)) :=
  match model st, processor st with
  | Some m, Some p => ([], (st, Done (m, p)))
  | _, _ =>
      match from_model with
      | Raised e => ([EvModelFromPretrained], (st, Raised (wrap_load_error e)))
      | Done m =>
          let st1 := Build_loader (Some m) (processor st) in
          match from_processor with
          | Raised e => ([EvModelFromPretrained; EvProcessorFromPretrained],
                         (st1, Raised (wrap_load_error e)))
          | Done p => ([EvModelFromPretrained; EvProcessorFromPretrained],
                       (Build_loader (Some m) (Some p), Done (m, p)))
          end
      end
  end.

(** [ImageSearcher.__init__]: the existence check, the [ModelLoader]
    (which reads the configuration when no [model_path] is given), then
    [np.load] and the absolute paths. *)
Definition searcher_of (abspath : string -> string) (r : Indexer.persisted)
  : Searcher.searcher :=
  {| Searcher.image_paths := map abspath (Indexer.p_paths r);
     Searcher.image_features := Indexer.p_features r |}.

Definition searcher_init (abspath : string -> string)
    (model_path : option string) (cf : config_file) (f : Indexer.index_file)
  : outcome Searcher.searcher :=
  if negb (Indexer.index_file_exists f) then Raised FileNotFoundError
  else
    match model_loader_path model_path cf with
    | Raised e => Raised e
    | Done _ =>
        match f with
        | Indexer.IndexFile r => Done (searcher_of abspath r)
        | _ => Raised LoadError
        end
    end.

End Config.

(** ** [convert_webm_to_gif] (converter.py): the output width *)
Module Converter.

(** [int(x)] for a float: truncation toward zero; [None] for an infinity
    or a NaN ([int] raises). *)
Definition py_int (x : float) : option Z :=
  match Prim2SF x with
  | S754_zero _ => Some 0%Z
  | S754_finite s m e =>
      let a := if (0 <=? e)%Z then Z.shiftl (Zpos m) e
               else Z.shiftr (Zpos m) (- e) in
      Some (if s then (- a)%Z else a)
  | _ => None
  end.

(** [original_width * scale]: the int converted to a float (a width below
    [2^63]), then the float product. *)
Definition scaled_width (original_width : Z) (scale : float) : option Z :=
  py_int (PrimFloat.mul (PrimFloat.of_uint63 (Uint63.of_Z original_width))
                        scale).

(** [target_width = max(2, int(original_width * scale))], then made even. *)
Definition target_width (original_width : Z) (scale : float) : option Z :=
  match scaled_width original_width scale with
  | None => None
  | Some w =>
      let target_width := Z.max 2 w in
      Some (if negb (Z.eqb (target_width mod 2) 0)
            then (target_width - 1)%Z else target_width)
  end.

End Converter.

(** ** [_copy_file_to_clipboard_windows] (utils.py): the [CF_HDROP] bytes *)
Module Clipboard.

(** A little-endian 32-bit field. *)
Definition le32 (x : Z) : list Z :=
  [x mod 256; (x / 256) mod 256; (x / 65536) mod 256; (x / 16777216) mod 256]%Z.

(** [bytes(DROPFILES())] on Windows: [pFiles] (c_uint), [x], [y]
    (c_long, 4 bytes), [fNC] (c_int), [fWide] (c_bool, 1 byte), padded to
    [ctypes.sizeof(DROPFILES) = 20]. *)
Definition sizeof_DROPFILES : Z := 20.

Definition dropfiles_bytes (pFiles x y fNC : Z) (fWide : bool) : list Z :=
  le32 pFiles ++ le32 x ++ le32 y ++ le32 fNC ++
  [if fWide then 1%Z else 0%Z; 0%Z; 0%Z; 0%Z].

(** [s.encode("U16")[2:]] for an ASCII string: UTF-16 in the native
    (little-endian) order with the byte-order mark dropped. *)
Definition utf16_units (s : string) : list Z :=
  map (fun c => Z.of_nat (nat_of_ascii c)) (list_ascii_of_string s).

Definition encode_u16 (s : string) : list Z :=
  flat_map (fun u => [u; 0%Z]) (utf16_units s).

(** [s.replace('/', '\\')] *)
Definition to_backslashes (s : string) : string :=
  string_of_list_ascii
    (map (fun c => if Ascii.eqb c "/"%char then "\"%char else c)
         (list_ascii_of_string s)).

(** The [clipboard_data] passed to [SetClipboardData(CF_HDROP, ...)];
    [abspath] is [os.path.abspath]. *)
Definition windows_clipboard_data (abspath : string -> string)
    (file_path : string) : list Z :=
  let abs_path := to_backslashes (abspath file_path) in
  let pDropFiles := dropfiles_bytes sizeof_DROPFILES 0 0 0 true in
  let data := encode_u16 abs_path ++ [0%Z; 0%Z] in
  pDropFiles ++ data.

(** The 16-bit code units of a little-endian byte string. *)
Fixpoint units (l : list Z) : list Z :=
  match l with
  | a :: b :: l' => (a + 256 * b)%Z :: units l'
  | _ => []
  end.

End Clipboard.

Module XDefs.
Import Indexer.

(** The loop building [deleted_hash_to_path]. *)
Definition fd_step (ph : Dict.t (option string)) (dh : Dict.t string) (p : string)
  : Dict.t string :=
  match stored_hash ph p with
  | Some h => Dict.set h p dh
  | None => dh
  end.

(** The loop of [detect_moves]. *)
Definition dm_step (e : env)
    (acc : list (string * string) * list string * Dict.t string) (path : string)
  : list (string * string) * list string * Dict.t string :=
  let '(moved, truly_new, dh) := acc in
  match calculate_hash e path with
  | None => acc
  | Some h =>
      match Dict.get h dh with
      | Some old_path => (moved ++ [(old_path, path)], truly_new, Dict.del h dh)
      | None => (moved, truly_new ++ [path], dh)
      end
  end.

(** Whether the features of a file can be extracted. *)
Definition extractable (e : env) (p : string) : bool :=
  match image_features_of e p with Some _ => true | None => false end.

(** The events of a run of [update] that changes something. *)
Definition update_events (e : env) (f : index_file) (new modified : list string)
    (final_data : indexed_data) : list event :=
  match new ++ modified with
  | [] => []
  | L => EvLoadModel :: map EvImageFeatures L
  end ++ save_index e f final_data ++ [EvSaveConfig (image_dir e)].


(** One dimension [D] for every text vector of the model and every stored
    feature row, as [torch.cat] and [@] require. *)
Definition dims_agree (gtf : string -> Vec.vec) (s : Searcher.searcher)
    (D : nat) : Prop :=
  (forall t, length (gtf t) = D) /\
  Forall (fun r => length r = D) (Searcher.image_features s).

(** The [final_scores] on which [search] runs [torch.topk]. *)
Definition search_scores (gtf : string -> Vec.vec) (s : Searcher.searcher)
    (query negative_query similar_image_path : option string) : list float :=
  snd (Searcher.apply_negative gtf s negative_query
         (Searcher.scores_against s (Vec.normalize (Vec.mean_rows
            (snd (Searcher.positive_vectors gtf s query similar_image_path)))))).

(** The [final_scores] on which [search_by_image] runs [torch.topk]. *)
Definition search_by_image_scores (gtf : string -> Vec.vec)
    (s : Searcher.searcher) (image_path : string)
    (negative_query : option string) : list float :=
  match Dict.get image_path (Searcher.path_to_idx s) with
  | Some qi => snd (Searcher.image_query_scores gtf s qi negative_query)
  | None => []
  end.

(** No two scores are equal or unordered (a NaN): [torch.topk] then has a
    single possible answer for every [k]. *)
Fixpoint strictly_ordered (l : list float) : bool :=
  match l with
  | [] => true
  | x :: l' =>
      forallb (fun y => PrimFloat.ltb x y || PrimFloat.ltb y x) l' &&
      strictly_ordered l'
  end.

End XDefs.

(** * Supporting facts *)

Module Facts.
Import Searcher.

Lemma in_firstn_in {A} (x : A) n l : In x (firstn n l) -> In x l.
Proof.
  intros H. rewrite <- (firstn_skipn n l). apply in_or_app. left. exact H.
Qed.

Lemma in_skipn_in {A} (x : A) n l : In x (skipn n l) -> In x l.
Proof.
  intros H. rewrite <- (firstn_skipn n l). apply in_or_app. right. exact H.
Qed.

Lemma in_slice {A} (x : A) l a b : In x (Py.slice l a b) -> In x l.
Proof.
  unfold Py.slice. intros H. apply in_firstn_in in H. apply in_skipn_in in H.
  exact H.
Qed.

(** A slice with non-negative bounds. *)
Lemma slice_nonneg {A} (l : list A) (a b : Z) :
  (0 <= a)%Z -> (a <= b)%Z ->
  Py.slice l a b = firstn (Z.to_nat b - Z.to_nat a) (skipn (Z.to_nat a) l).
Proof.
  intros Ha Hab. unfold Py.slice, Py.norm_index.
  replace (a <? 0)%Z with false by (symmetry; apply Z.ltb_ge; lia).
  replace (b <? 0)%Z with false by (symmetry; apply Z.ltb_ge; lia).
  destruct (Nat.le_gt_cases (length l) (Z.to_nat a)) as [Hle|Hgt].
  - rewrite (Nat.min_r _ _ Hle).
    rewrite (skipn_all2 _ Hle). rewrite skipn_all.
    rewrite !firstn_nil. reflexivity.
  - rewrite (Nat.min_l (Z.to_nat a)) by lia.
    destruct (Nat.le_gt_cases (Z.to_nat b) (length l)).
    + rewrite Nat.min_l by lia. reflexivity.
    + rewrite Nat.min_r by lia.
      rewrite !firstn_all2; [reflexivity| |]; rewrite length_skipn; lia.
Qed.

Lemma insert_desc_perm x l : Permutation (insert_desc x l) (x :: l).
Proof.
  induction l as [|y l IH]; simpl; [reflexivity|].
  destruct (PrimFloat.ltb (snd y) (snd x)); [reflexivity|].
  rewrite IH. apply perm_swap.
Qed.

Lemma fold_insert_perm xs acc :
  Permutation (fold_left (fun acc x => insert_desc x acc) xs acc) (xs ++ acc).
Proof.
  revert acc. induction xs as [|x xs IH]; intros acc; simpl; [reflexivity|].
  rewrite IH, insert_desc_perm. symmetry. apply Permutation_middle.
Qed.

Lemma map_fst_combine_seq (sc : list float) start :
  map fst (combine (seq start (length sc)) sc) = seq start (length sc).
Proof.
  revert start. induction sc as [|x sc IH]; intros start; simpl; [reflexivity|].
  f_equal. apply IH.
Qed.

(** [rank] is a permutation of the indexed scores. *)
Lemma rank_indices (sc : list float) :
  Permutation (map fst (rank sc)) (seq 0 (length sc)).
Proof.
  unfold rank. rewrite fold_insert_perm, app_nil_r.
  rewrite <- (map_fst_combine_seq sc 0) at 2. reflexivity.
Qed.

Lemma rank_nodup (sc : list float) : NoDup (map fst (rank sc)).
Proof.
  eapply Permutation_NoDup; [symmetry; apply rank_indices|]. apply seq_NoDup.
Qed.

Lemma rank_bound (sc : list float) r : In r (rank sc) -> fst r < length sc.
Proof.
  intros H. apply (in_map fst) in H.
  eapply Permutation_in in H; [|apply rank_indices].
  apply in_seq in H. lia.
Qed.

Lemma length_rank (sc : list float) : length (rank sc) = length sc.
Proof.
  rewrite <- (length_map fst), (Permutation_length (rank_indices sc)).
  apply length_seq.
Qed.

(** Filtering a prefix gives a prefix of the filtered list. *)
Lemma filter_firstn_prefix {A} (P : A -> bool) m l :
  filter P (firstn m l) =
  firstn (length (filter P (firstn m l))) (filter P l).
Proof.
  revert m. induction l as [|x l IH]; intros m.
  - rewrite firstn_nil. reflexivity.
  - destruct m as [|m]; [reflexivity|]. simpl.
    destruct (P x); simpl; [f_equal|]; apply IH.
Qed.

Lemma at_most_one_index (qi : nat) (l : list (nat * float)) :
  NoDup (map fst l) ->
  length (filter (fun r => Nat.eqb (fst r) qi) l) <= 1.
Proof.
  induction l as [|r l IH]; intros Hnd; simpl; [lia|].
  inversion Hnd as [|? ? Hnotin Hnd']; subst.
  destruct (Nat.eqb_spec (fst r) qi) as [Heq|]; simpl; [|apply IH; exact Hnd'].
  assert (filter (fun r => Nat.eqb (fst r) qi) l = []) as ->; [|simpl; lia].
  destruct (filter (fun r => Nat.eqb (fst r) qi) l) as [|r' l'] eqn:Hf;
    [reflexivity|].
  exfalso. assert (Hin : In r' (filter (fun r => Nat.eqb (fst r) qi) l))
    by (rewrite Hf; left; reflexivity).
  apply filter_In in Hin. destruct Hin as [Hin Hq].
  apply Nat.eqb_eq in Hq. apply Hnotin. rewrite Heq, <- Hq.
  apply in_map. exact Hin.
Qed.

Lemma nodup_map_firstn {A B} (f : A -> B) m l :
  NoDup (map f l) -> NoDup (map f (firstn m l)).
Proof.
  intros H. rewrite <- (firstn_skipn m l), map_app in H.
  eapply NoDup_app_remove_r. exact H.
Qed.

Lemma length_vsub u v : length (vsub u v) = Nat.min (length u) (length v).
Proof.
  revert v. induction u as [|x u IH]; intros [|y v]; simpl; try reflexivity.
  rewrite IH. reflexivity.
Qed.

Lemma length_image_query_scores gtf s qi nq :
  length (snd (image_query_scores gtf s qi nq)) = length (image_features s).
Proof.
  unfold image_query_scores, apply_negative, subtract_negative, scores_against,
    normalized_image_features.
  destruct (Py.nonblank nq); simpl; [|rewrite !length_map; reflexivity].
  destruct (negative_keywords _); simpl;
    [|rewrite length_vsub]; rewrite !length_map; lia.
Qed.

Lemma dict_get_of_list_in {V} (pairs : list (string * V)) k v :
  Dict.get k (Dict.of_list pairs) = Some v -> In (k, v) pairs.
Proof.
  unfold Dict.of_list.
  assert (Hgen : forall d, Dict.get k (fold_left (fun d kv => Dict.set (fst kv) (snd kv) d) pairs d) = Some v ->
                 In (k, v) pairs \/ Dict.get k d = Some v).
  { induction pairs as [|[k' v'] ps IH]; intros d H; simpl in *; [right; exact H|].
    destruct (IH _ H) as [Hin|Hd]; [left; right; exact Hin|].
    clear IH H. induction d as [|[k2 v2] d IHd]; simpl in *.
    - destruct (String.eqb_spec k k'); [subst; inversion Hd; subst|discriminate].
      left; left; reflexivity.
    - destruct (String.eqb_spec k' k2) as [->|Hne]; simpl in Hd.
      + destruct (String.eqb_spec k k2); [subst; inversion Hd; subst|].
        * left; left; reflexivity.
        * right; exact Hd.
      + destruct (String.eqb_spec k k2); [right; exact Hd|]. apply IHd. exact Hd. }
  intros H. destruct (Hgen [] H) as [Hin|Hd]; [exact Hin|discriminate].
Qed.

Lemma in_combine_seq (ps : list string) start p i :
  In (p, i) (combine ps (seq start (length ps))) ->
  start <= i < start + length ps /\ nth (i - start) ps ""%string = p.
Proof.
  revert start. induction ps as [|x ps IH]; intros start H; simpl in H; [contradiction|].
  destruct H as [H|H].
  - inversion H; subst. rewrite Nat.sub_diag. simpl. split; [lia|reflexivity].
  - apply IH in H. destruct H as [Hb Hn]. split; [simpl; lia|].
    replace (i - start) with (S (i - S start)) by lia. exact Hn.
Qed.

Lemma path_to_idx_sound (s : searcher) p qi :
  Dict.get p (path_to_idx s) = Some qi ->
  qi < length (image_paths s) /\ nth qi (image_paths s) ""%string = p.
Proof.
  unfold path_to_idx. intros H. apply dict_get_of_list_in in H.
  apply in_combine_seq in H. rewrite Nat.sub_0_r in H.
  destruct H as [Hb Hn]. split; [lia|exact Hn].
Qed.

End Facts.

(** * Supporting facts about the indexer *)

Module IdxFacts.
Import Indexer Stmt.

Lemma mem_true (x : string) l : Py.mem x l = true <-> In x l.
Proof.
  unfold Py.mem. rewrite existsb_exists. split.
  - intros [y [Hy E]]. apply String.eqb_eq in E. subst. exact Hy.
  - intros H. exists x. split; [exact H|apply String.eqb_refl].
Qed.

Lemma mem_false (x : string) l : Py.mem x l = false <-> ~ In x l.
Proof.
  rewrite <- mem_true. destruct (Py.mem x l); split; intros H;
    [discriminate | exfalso; apply H; reflexivity | discriminate | reflexivity].
Qed.

Lemma set_of_spec (l : list string) :
  NoDup (Py.set_of l) /\ (forall x, In x (Py.set_of l) <-> In x l).
Proof.
  unfold Py.set_of.
  assert (G : forall acc, NoDup acc ->
    NoDup (fold_left (fun acc x => if Py.mem x acc then acc else acc ++ [x]) l acc) /\
    (forall x, In x (fold_left (fun acc x => if Py.mem x acc then acc else acc ++ [x]) l acc)
               <-> In x acc \/ In x l)).
  { induction l as [|a l IH]; intros acc Hacc; simpl.
    - split; [exact Hacc|]. intros x. tauto.
    - destruct (Py.mem a acc) eqn:Ha.
      + apply mem_true in Ha. destruct (IH acc Hacc) as [H1 H2]. split; [exact H1|].
        intros x. rewrite H2. split; [tauto|].
        intros [H|[H|H]]; [left; exact H|left; subst; exact Ha|right; exact H].
      + apply mem_false in Ha.
        assert (Hn : NoDup (acc ++ [a])).
        { apply NoDup_app; [exact Hacc|constructor; [intros []|constructor]|].
          intros y Hy [Hya|[]]. subst. contradiction. }
        destruct (IH _ Hn) as [H1 H2]. split; [exact H1|].
        intros x. rewrite H2, in_app_iff. simpl. tauto. }
  destruct (G [] (NoDup_nil _)) as [H1 H2]. split; [exact H1|].
  intros x. rewrite H2. simpl. tauto.
Qed.

Lemma nodup_singleton (l : list string) b :
  NoDup l -> (forall x, In x l <-> x = b) -> l = [b].
Proof.
  intros Hn H. destruct l as [|a l].
  - exfalso. apply (proj2 (H b) eq_refl).
  - assert (a = b) as <- by (apply H; left; reflexivity).
    destruct l as [|c l]; [reflexivity|].
    exfalso. apply NoDup_cons_iff in Hn as [Hna _].
    assert (c = a) as <- by (apply H; right; left; reflexivity).
    apply Hna. left. reflexivity.
Qed.

Lemma filter_all_false {A} (g : A -> bool) l :
  (forall x, In x l -> g x = false) -> filter g l = [].
Proof.
  induction l as [|a l IH]; intros H; simpl; [reflexivity|].
  rewrite (H a (or_introl eq_refl)). apply IH. intros x Hx. apply H. right. exact Hx.
Qed.

Lemma NoDup_middle {A} (l1 l2 : list A) x :
  NoDup (l1 ++ l2) -> ~ In x (l1 ++ l2) -> NoDup (l1 ++ x :: l2).
Proof.
  intros Hn Hx. apply (Permutation_NoDup (Permutation_middle l1 l2 x)).
  constructor; assumption.
Qed.

Lemma in_middle {A} (l1 l2 : list A) x y :
  In y (l1 ++ x :: l2) <-> x = y \/ In y (l1 ++ l2).
Proof. rewrite !in_app_iff. simpl. tauto. Qed.

Lemma nodup_app_disj {A} (l1 l2 : list A) x :
  NoDup (l1 ++ l2) -> In x l1 -> In x l2 -> False.
Proof.
  induction l1 as [|a l1 IH]; simpl; intros Hn H1 H2; [exact H1|].
  apply NoDup_cons_iff in Hn as [Ha Hn]. destruct H1 as [<-|H1].
  - apply Ha. apply in_app_iff. right. exact H2.
  - exact (IH Hn H1 H2).
Qed.

Lemma map_fst_combine {A B} (l1 : list A) (l2 : list B) :
  length l1 <= length l2 -> map fst (combine l1 l2) = l1.
Proof.
  revert l2. induction l1 as [|a l1 IH]; intros [|b l2] H; simpl in *;
    try reflexivity; try lia.
  f_equal. apply IH. lia.
Qed.

Lemma skipn_cons_nth {A} (l : list A) k x :
  nth_error l k = Some x -> skipn k l = x :: skipn (S k) l.
Proof.
  revert k. induction l as [|y l IH]; intros [|k] H; simpl in *; try discriminate.
  - injection H as ->. reflexivity.
  - apply IH. exact H.
Qed.

(** Dicts *)

Lemma get_in {V} (k : string) (v : V) d : Dict.get k d = Some v -> In (k, v) d.
Proof.
  induction d as [|[k' v'] d IH]; simpl; [discriminate|].
  destruct (String.eqb_spec k k') as [->|_].
  - intros H. injection H as <-. left. reflexivity.
  - intros H. right. exact (IH H).
Qed.

Lemma get_none {V} (k : string) (d : Dict.t V) :
  ~ In k (Dict.keys d) -> Dict.get k d = None.
Proof.
  unfold Dict.keys. induction d as [|[k' v'] d IH]; simpl; intros H; [reflexivity|].
  destruct (String.eqb_spec k k') as [->|_]; [exfalso; apply H; left; reflexivity|].
  apply IH. intros H'. apply H. right. exact H'.
Qed.

Lemma set_absent {V} (k : string) (v : V) d :
  ~ In k (Dict.keys d) -> Dict.set k v d = d ++ [(k, v)].
Proof.
  unfold Dict.keys. induction d as [|[k' v'] d IH]; simpl; intros H; [reflexivity|].
  destruct (String.eqb_spec k k') as [->|_]; [exfalso; apply H; left; reflexivity|].
  rewrite IH; [reflexivity|]. intros H'. apply H. right. exact H'.
Qed.

Lemma of_list_id {V} (pairs : list (string * V)) :
  NoDup (map fst pairs) -> Dict.of_list pairs = pairs.
Proof.
  unfold Dict.of_list.
  assert (G : forall d, NoDup (map fst d ++ map fst pairs) ->
     fold_left (fun d kv => Dict.set (fst kv) (snd kv) d) pairs d = d ++ pairs).
  { induction pairs as [|[k v] ps IH]; intros d H; simpl.
    - rewrite app_nil_r. reflexivity.
    - rewrite set_absent.
      + rewrite IH.
        * rewrite <- app_assoc. reflexivity.
        * rewrite map_app, <- app_assoc. exact H.
      + unfold Dict.keys. intros Hk. simpl in H. apply NoDup_remove_2 in H.
        apply H. apply in_app_iff. left. exact Hk. }
  intros H. apply (G []). exact H.
Qed.

Lemma get_combine_nth {V} (ks : list string) (vs : list V) j k :
  NoDup ks -> length ks <= length vs -> nth_error ks j = Some k ->
  Dict.get k (combine ks vs) = nth_error vs j.
Proof.
  revert vs j. induction ks as [|x ks IH]; intros [|y vs] [|j] Hn Hl Hj;
    simpl in *; try discriminate; try lia.
  - injection Hj as ->. rewrite String.eqb_refl. reflexivity.
  - apply NoDup_cons_iff in Hn as [Hx Hn].
    destruct (String.eqb_spec k x) as [->|_].
    + exfalso. apply Hx. eapply nth_error_In. exact Hj.
    + apply IH; [exact Hn|lia|exact Hj].
Qed.

Lemma get_del_values {V} (k : string) (v : V) d :
  Dict.get k d = Some v ->
  exists pre post, Dict.values d = pre ++ v :: post /\
                   Dict.values (Dict.del k d) = pre ++ post.
Proof.
  unfold Dict.values. induction d as [|[k' v'] d IH]; simpl; [discriminate|].
  destruct (String.eqb k k').
  - intros H. injection H as ->. exists [], (map snd d). split; reflexivity.
  - intros H. destruct (IH H) as [pre [post [H1 H2]]].
    exists (v' :: pre), post. simpl. rewrite H1, H2. split; reflexivity.
Qed.

Lemma set_values {V} (k : string) (v : V) d :
  NoDup (Dict.values d) -> ~ In v (Dict.values d) ->
  NoDup (Dict.values (Dict.set k v d)) /\
  (forall x, In x (Dict.values (Dict.set k v d)) -> x = v \/ In x (Dict.values d)).
Proof.
  unfold Dict.values. induction d as [|[k' v'] d IH]; simpl; intros Hn Hv.
  - split; [constructor; [intros []|constructor]|].
    intros x [H|[]]. left. symmetry. exact H.
  - apply NoDup_cons_iff in Hn as [Hv' Hn].
    destruct (String.eqb k k'); simpl.
    + split.
      * constructor; [|exact Hn]. intros H. apply Hv. right. exact H.
      * intros x [H|H]; [left; symmetry; exact H|right; right; exact H].
    + destruct (IH Hn) as [H1 H2]; [intros H; apply Hv; right; exact H|].
      split.
      * constructor; [|exact H1]. intros H. destruct (H2 _ H) as [E|E].
        -- apply Hv. left. exact E.
        -- exact (Hv' E).
      * intros x [H|H]; [right; left; exact H|].
        destruct (H2 _ H) as [E|E]; [left; exact E|right; right; exact E].
Qed.

(** [_load_or_initialize_index] *)

Lemma load_ph e f :
  snd (load_or_initialize_index e f) =
  Dict.of_list (combine (paths (fst (load_or_initialize_index e f)))
                        (hashes (fst (load_or_initialize_index e f)))).
Proof. destruct f; reflexivity. Qed.

Lemma store_ph d :
  store_inv d -> Dict.of_list (combine (paths d) (hashes d)) = combine (paths d) (hashes d).
Proof.
  intros [_ [Lh Nd]]. apply of_list_id. rewrite map_fst_combine by lia. exact Nd.
Qed.

Lemma load_inv e f :
  (forall x y, abspath e x = abspath e y -> x = y) ->
  match f with IndexFile r => persisted_inv r | _ => True end ->
  store_inv (fst (load_or_initialize_index e f)).
Proof.
  intros Habs Hf. destruct f as [| |r]; simpl.
  - split; [reflexivity|split; [reflexivity|constructor]].
  - split; [reflexivity|split; [reflexivity|constructor]].
  - destruct Hf as [Lf [Lh Nd]]. unfold store_inv. simpl. split; [|split].
    + rewrite length_map. exact Lf.
    + revert Lh. destruct (p_hashes r); intros Lh; [rewrite length_map; exact Lh|].
      rewrite repeat_length, length_map. reflexivity.
    + apply NoDup_map_NoDup_ForallPairs; [|exact Nd].
      intros x y _ _ E. exact (Habs x y E).
Qed.

(** [_scan_and_compare] *)

Lemma deleted_dict_values (ph : Dict.t (option string)) (pd : list string)
    (d : Dict.t string) :
  NoDup pd -> NoDup (Dict.values d) ->
  (forall x, In x (Dict.values d) -> ~ In x pd) ->
  NoDup (Dict.values
           (fold_left (fun dh p => match stored_hash ph p with
                                   | Some h => Dict.set h p dh
                                   | None => dh
                                   end) pd d)) /\
  (forall x, In x (Dict.values
                     (fold_left (fun dh p => match stored_hash ph p with
                                             | Some h => Dict.set h p dh
                                             | None => dh
                                             end) pd d)) ->
             In x (Dict.values d) \/ In x pd).
Proof.
  revert d. induction pd as [|p pd IH]; intros d Hpd Hn Hdis; simpl.
  - split; [exact Hn|]. intros x H. left. exact H.
  - apply NoDup_cons_iff in Hpd as [Hp Hpd].
    destruct (stored_hash ph p) as [h|].
    + destruct (set_values h p d Hn) as [H1 H2].
      { intros H. exact (Hdis p H (or_introl eq_refl)). }
      destruct (IH (Dict.set h p d) Hpd H1) as [H3 H4].
      { intros x Hx Hx'. destruct (H2 x Hx) as [->|Hx0]; [exact (Hp Hx')|].
        exact (Hdis x Hx0 (or_intror Hx')). }
      split; [exact H3|]. intros x Hx.
      destruct (H4 x Hx) as [Hx0|Hx0]; [|right; right; exact Hx0].
      destruct (H2 x Hx0) as [->|Hx1]; [right; left; reflexivity|left; exact Hx1].
    + destruct (IH d Hpd Hn) as [H3 H4].
      { intros x Hx Hx'. exact (Hdis x Hx (or_intror Hx')). }
      split; [exact H3|]. intros x Hx.
      destruct (H4 x Hx) as [Hx0|Hx0]; [left; exact Hx0|right; right; exact Hx0].
Qed.

Lemma detect_moves_inv (e : env) (pn : list string) (dh0 : Dict.t string) :
  NoDup pn -> NoDup (Dict.values dh0) ->
  forall moved truly_new dh,
  detect_moves e pn dh0 = (moved, truly_new, dh) ->
  NoDup (map snd moved ++ truly_new) /\
  (forall x, In x (map snd moved ++ truly_new) -> In x pn) /\
  NoDup (map fst moved ++ Dict.values dh) /\
  (forall x, In x (map fst moved ++ Dict.values dh) -> In x (Dict.values dh0)).
Proof.
  unfold detect_moves.
  assert (G : forall l (mv : list (string * string)) (nw : list string)
                     (dh : Dict.t string) mv' nw' dh',
    fold_left
      (fun acc path =>
         let '(moved, truly_new, dh) := acc in
         match calculate_hash e path with
         | None => acc
         | Some h =>
             match Dict.get h dh with
             | Some old_path => (moved ++ [(old_path, path)], truly_new,
                                 Dict.del h dh)
             | None => (moved, truly_new ++ [path], dh)
             end
         end) l (mv, nw, dh) = (mv', nw', dh') ->
    NoDup l ->
    (forall x, In x (map snd mv ++ nw) -> ~ In x l) ->
    NoDup (map snd mv ++ nw) -> NoDup (map fst mv ++ Dict.values dh) ->
    NoDup (map snd mv' ++ nw') /\
    (forall x, In x (map snd mv' ++ nw') -> In x (map snd mv ++ nw) \/ In x l) /\
    NoDup (map fst mv' ++ Dict.values dh') /\
    (forall x, In x (map fst mv' ++ Dict.values dh') ->
               In x (map fst mv ++ Dict.values dh))).
  { induction l as [|p l IH]; intros mv nw dh mv' nw' dh' Hr Hl Hdis Hs Hf;
      simpl in Hr.
    - injection Hr as <- <- <-. split; [exact Hs|]. split; [intros x H; left; exact H|].
      split; [exact Hf|]. intros x H. exact H.
    - apply NoDup_cons_iff in Hl as [Hp Hl].
      assert (Hpn : ~ In p (map snd mv ++ nw)) by (intros H; exact (Hdis p H (or_introl eq_refl))).
      destruct (calculate_hash e p) as [h|].
      + destruct (Dict.get h dh) as [old|] eqn:Hg.
        * destruct (get_del_values h old dh Hg) as [pre [post [Hv Hd]]].
          assert (Es : map snd (mv ++ [(old, p)]) ++ nw = map snd mv ++ p :: nw)
            by (rewrite map_app, <- app_assoc; reflexivity).
          assert (Ef : map fst (mv ++ [(old, p)]) ++ Dict.values (Dict.del h dh)
                       = map fst mv ++ old :: pre ++ post)
            by (rewrite Hd, map_app, <- app_assoc; reflexivity).
          assert (Pf : Permutation (map fst mv ++ old :: pre ++ post)
                                   (map fst mv ++ Dict.values dh))
            by (rewrite Hv; apply Permutation_app_head, Permutation_middle).
          destruct (IH _ _ _ _ _ _ Hr Hl) as [H1 [H2 [H3 H4]]].
          -- rewrite Es. intros x Hx Hx'. apply in_middle in Hx as [<-|Hx].
             ++ exact (Hp Hx').
             ++ exact (Hdis x Hx (or_intror Hx')).
          -- rewrite Es. apply NoDup_middle; assumption.
          -- rewrite Ef. apply (Permutation_NoDup (Permutation_sym Pf)). exact Hf.
          -- split; [exact H1|]. split.
             ++ intros x Hx. destruct (H2 x Hx) as [Hx0|Hx0]; [|right; right; exact Hx0].
                rewrite Es in Hx0. apply in_middle in Hx0 as [<-|Hx0];
                  [right; left; reflexivity|left; exact Hx0].
             ++ split; [exact H3|]. intros x Hx. apply (Permutation_in _ Pf).
                rewrite <- Ef. exact (H4 x Hx).
        * destruct (IH _ _ _ _ _ _ Hr Hl) as [H1 [H2 [H3 H4]]].
          -- rewrite app_assoc. intros x Hx Hx'. apply in_app_iff in Hx as [Hx|[<-|[]]].
             ++ exact (Hdis x Hx (or_intror Hx')).
             ++ exact (Hp Hx').
          -- rewrite app_assoc. rewrite <- (app_nil_r (map snd mv ++ nw)) in Hs, Hpn.
             rewrite <- (app_nil_r ((map snd mv ++ nw) ++ [p])).
             rewrite <- app_assoc. apply NoDup_middle; assumption.
          -- exact Hf.
          -- split; [exact H1|]. split; [|exact (conj H3 H4)].
             intros x Hx. destruct (H2 x Hx) as [Hx0|Hx0]; [|right; right; exact Hx0].
             rewrite app_assoc in Hx0. apply in_app_iff in Hx0 as [Hx0|[<-|[]]];
               [left; exact Hx0|right; left; reflexivity].
      + destruct (IH _ _ _ _ _ _ Hr Hl) as [H1 [H2 [H3 H4]]].
        * intros x Hx Hx'. exact (Hdis x Hx (or_intror Hx')).
        * exact Hs.
        * exact Hf.
        * split; [exact H1|]. split; [|exact (conj H3 H4)].
          intros x Hx. destruct (H2 x Hx) as [Hx0|Hx0]; [left; exact Hx0|right; right; exact Hx0]. }
  intros Hpn Hdh0 moved truly_new dh Hr.
  destruct (G pn [] [] dh0 _ _ _ Hr Hpn (fun x H => match H with end) (NoDup_nil _) Hdh0)
    as [H1 [H2 [H3 H4]]].
  split; [exact H1|]. split.
  - intros x Hx. destruct (H2 x Hx) as [[]|Hx0]. exact Hx0.
  - split; [exact H3|]. exact H4.
Qed.

Lemma scan_facts e (ps : list string) (ph : Dict.t (option string)) :
  (forall x, In x (Dict.keys ph) <-> In x ps) ->
  forall new modified deleted moved,
  scan_and_compare e ph = (new, modified, deleted, moved) ->
  NoDup (map snd moved ++ new) /\
  (forall x, In x (map snd moved ++ new) -> ~ In x ps) /\
  NoDup (map fst moved) /\ (forall m, In m moved -> In (fst m) ps) /\
  NoDup modified /\ (forall x, In x modified -> In x ps).
Proof.
  intros Hk new modified deleted moved. unfold scan_and_compare. cbv zeta.
  destruct (set_of_spec (disk_scan e)) as [Nc Ic].
  destruct (set_of_spec (Dict.keys ph)) as [Ni Ii].
  destruct (deleted_dict_values ph
              (filter (fun p => negb (Py.mem p (Py.set_of (disk_scan e))))
                      (Py.set_of (Dict.keys ph))) [])
    as [Dn Din]; [apply NoDup_filter; exact Ni|constructor|intros x []|].
  destruct (detect_moves e _ _) as [[mv nw] dh] eqn:Ed.
  intros Hr. injection Hr as <- <- <- <-.
  destruct (detect_moves_inv e _ _ (NoDup_filter _ Nc) Dn mv nw dh Ed)
    as [H1 [H2 [H3 H4]]].
  split; [exact H1|]. split; [|split; [|split; [|split]]].
  - intros x Hx. apply H2 in Hx. apply filter_In in Hx as [_ Hx].
    apply negb_true_iff, mem_false in Hx. rewrite Ii, Hk in Hx. exact Hx.
  - exact (NoDup_app_remove_r _ _ H3).
  - intros m Hm. assert (Hin : In (fst m) (map fst mv ++ Dict.values dh))
      by (apply in_app_iff; left; apply in_map; exact Hm).
    apply H4, Din in Hin as [[]|Hin]. apply filter_In in Hin as [Hin _].
    apply Ii, Hk in Hin. exact Hin.
  - apply NoDup_filter, NoDup_filter. exact Nc.
  - intros x Hx. apply filter_In in Hx as [Hx _]. apply filter_In in Hx as [_ Hx].
    apply mem_true, Ii, Hk in Hx. exact Hx.
Qed.

(** [_process_changes] *)

Lemma list_set_map (g : string -> string) ps idx a b :
  NoDup ps -> nth_error ps idx = Some a ->
  list_set (map g ps) idx b = map (fun p => if String.eqb p a then b else g p) ps.
Proof.
  revert idx. induction ps as [|x ps IH]; intros [|idx] Hn H; simpl in H; try discriminate.
  - injection H as ->. apply NoDup_cons_iff in Hn as [Hx _]. simpl.
    rewrite String.eqb_refl. f_equal.
    apply map_ext_in. intros p Hp.
    destruct (String.eqb_spec p a) as [->|_]; [contradiction|reflexivity].
  - apply NoDup_cons_iff in Hn as [Hx Hn]. simpl.
    destruct (String.eqb_spec x a) as [->|_].
    + exfalso. apply Hx. eapply nth_error_In. exact H.
    + f_equal. apply IH; assumption.
Qed.

Lemma apply_moves_map ps moved :
  NoDup ps -> NoDup (map fst moved) -> (forall m, In m moved -> In (fst m) ps) ->
  apply_moves ps moved = map (relabel moved) ps.
Proof.
  intros Hps Hf Hin. unfold apply_moves. cbv zeta.
  rewrite of_list_id by (rewrite map_fst_combine by (rewrite length_seq; lia); exact Hps).
  assert (G : forall (mv : list (string * string)) (g : string -> string)
                     (acc : list string), acc = map g ps -> NoDup (map fst mv) ->
            (forall m, In m mv -> In (fst m) ps) ->
     fold_left (fun acc m => match Dict.get (fst m) (combine ps (seq 0 (length ps))) with
                             | Some idx => list_set acc idx (snd m)
                             | None => acc
                             end) mv acc
     = map (fun p => match Dict.get p mv with Some b => b | None => g p end) ps).
  { induction mv as [|[a b] mv IH]; intros g acc -> Hn Hi; simpl; [reflexivity|].
    apply NoDup_cons_iff in Hn as [Ha Hn].
    destruct (In_nth_error ps a (Hi (a, b) (or_introl eq_refl))) as [idx Hidx].
    assert (Hlt : idx < length ps)
      by (apply nth_error_Some; rewrite Hidx; discriminate).
    rewrite (get_combine_nth ps (seq 0 (length ps)) idx a Hps)
      by (rewrite ?length_seq; (lia || exact Hidx)).
    rewrite nth_error_seq. destruct (Nat.ltb_spec idx (length ps)); [|lia].
    rewrite Nat.add_0_l, (list_set_map g ps idx a b Hps Hidx).
    rewrite (IH (fun p => if String.eqb p a then b else g p) _ eq_refl Hn)
      by (intros m Hm; apply Hi; right; exact Hm).
    apply map_ext. intros p.
    destruct (String.eqb_spec p a) as [->|_].
    + rewrite get_none by exact Ha. reflexivity.
    + reflexivity. }
  unfold relabel. apply (G moved (fun p => p)); [symmetry; apply map_id|exact Hf|exact Hin].
Qed.

Lemma nodup_snd_inj (l : list (string * string)) a a' b :
  NoDup (map snd l) -> In (a, b) l -> In (a', b) l -> a = a'.
Proof.
  induction l as [|[x y] l IH]; simpl; intros Hn H1 H2; [contradiction|].
  apply NoDup_cons_iff in Hn as [Hy Hn].
  destruct H1 as [E1|H1]; destruct H2 as [E2|H2].
  - congruence.
  - assert (y = b) as -> by congruence. exfalso. apply Hy.
    apply (in_map snd) in H2. exact H2.
  - assert (y = b) as -> by congruence. exfalso. apply Hy.
    apply (in_map snd) in H1. exact H1.
  - exact (IH Hn H1 H2).
Qed.

Lemma relabel_cases moved p :
  In (p, relabel moved p) moved \/ relabel moved p = p.
Proof.
  unfold relabel. destruct (Dict.get p moved) eqn:E.
  - left. apply get_in. exact E.
  - right. reflexivity.
Qed.

Lemma relabel_nodup ps moved :
  NoDup ps -> NoDup (map snd moved) -> (forall m, In m moved -> ~ In (snd m) ps) ->
  NoDup (map (relabel moved) ps).
Proof.
  intros Hps Hs Hout. apply NoDup_map_NoDup_ForallPairs; [|exact Hps].
  intros x y Hx Hy E.
  destruct (relabel_cases moved x) as [Ix|Ex]; destruct (relabel_cases moved y) as [Iy|Ey].
  - rewrite E in Ix. exact (nodup_snd_inj moved x y _ Hs Ix Iy).
  - exfalso. rewrite E, Ey in Ix. exact (Hout _ Ix Hy).
  - exfalso. rewrite <- E, Ex in Iy. exact (Hout _ Iy Hx).
  - rewrite <- Ex, <- Ey. exact E.
Qed.

Lemma relabel_in ps moved z :
  In z (map (relabel moved) ps) -> In z ps \/ In z (map snd moved).
Proof.
  intros H. apply in_map_iff in H as [p [<- Hp]].
  destruct (relabel_cases moved p) as [I|E].
  - right. apply (in_map snd) in I. exact I.
  - left. rewrite E. exact Hp.
Qed.

Lemma keep_entries_ok fs hs rm k qs :
  length fs = k + length qs -> length hs = k + length qs ->
  exists F H,
    keep_entries fs hs rm k qs = Ok (F, filter (fun p => negb (Py.mem p rm)) qs, H) /\
    length F = length (filter (fun p => negb (Py.mem p rm)) qs) /\
    length H = length (filter (fun p => negb (Py.mem p rm)) qs).
Proof.
  revert k. induction qs as [|q qs IH]; intros k Hf Hh; simpl.
  - exists [], []. split; [reflexivity|split; reflexivity].
  - destruct (Py.mem q rm); simpl.
    + apply IH; simpl in *; lia.
    + destruct (nth_error fs k) as [f|] eqn:Ef;
        [|apply nth_error_None in Ef; simpl in *; lia].
      destruct (nth_error hs k) as [h|] eqn:Eh;
        [|apply nth_error_None in Eh; simpl in *; lia].
      destruct (IH (S k)) as [F [H [E [L1 L2]]]]; [simpl in *; lia|simpl in *; lia|].
      rewrite E. exists (f :: F), (h :: H). simpl.
      split; [reflexivity|split; congruence].
Qed.

Lemma keep_entries_all fs hs rm k qs :
  (forall p, In p qs -> Py.mem p rm = false) ->
  length fs = k + length qs -> length hs = k + length qs ->
  keep_entries fs hs rm k qs = Ok (skipn k fs, qs, skipn k hs).
Proof.
  revert k. induction qs as [|q qs IH]; intros k Hr Hf Hh; simpl.
  - simpl in *. rewrite !skipn_all2 by lia. reflexivity.
  - rewrite (Hr q (or_introl eq_refl)).
    destruct (nth_error fs k) as [f|] eqn:Ef;
      [|apply nth_error_None in Ef; simpl in *; lia].
    destruct (nth_error hs k) as [h|] eqn:Eh;
      [|apply nth_error_None in Eh; simpl in *; lia].
    rewrite IH; [|intros p Hp; apply Hr; right; exact Hp|simpl in *; lia|simpl in *; lia].
    rewrite (skipn_cons_nth fs k f Ef), (skipn_cons_nth hs k h Eh). reflexivity.
Qed.

Lemma extract_features_shape e L d :
  exists F H,
    extract_features e L d =
    (map EvImageFeatures L,
     {| features := features d ++ F;
        paths := paths d ++ filter (fun p => match image_features_of e p with
                                             | Some _ => true | None => false end) L;
        hashes := hashes d ++ H |}) /\
    length F = length (filter (fun p => match image_features_of e p with
                                        | Some _ => true | None => false end) L) /\
    length H = length (filter (fun p => match image_features_of e p with
                                        | Some _ => true | None => false end) L).
Proof.
  unfold extract_features.
  assert (G : forall ev d, exists F H,
    fold_left
      (fun acc path =>
         let '(ev, d') := acc in
         (ev ++ [EvImageFeatures path],
          match image_features_of e path with
          | Some f => {| features := features d' ++ [f];
                         paths := paths d' ++ [path];
                         hashes := hashes d' ++ [calculate_hash e path] |}
          | None => d'
          end)) L (ev, d) =
    (ev ++ map EvImageFeatures L,
     {| features := features d ++ F;
        paths := paths d ++ filter (fun p => match image_features_of e p with
                                             | Some _ => true | None => false end) L;
        hashes := hashes d ++ H |}) /\
    length F = length (filter (fun p => match image_features_of e p with
                                        | Some _ => true | None => false end) L) /\
    length H = length (filter (fun p => match image_features_of e p with
                                        | Some _ => true | None => false end) L)).
  { induction L as [|p L IH]; intros ev d0; simpl.
    - exists [], []. rewrite !app_nil_r. destruct d0. split; [reflexivity|split; reflexivity].
    - destruct (image_features_of e p) as [f|] eqn:Ef.
      + destruct (IH (ev ++ [EvImageFeatures p])
                     {| features := features d0 ++ [f]; paths := paths d0 ++ [p];
                        hashes := hashes d0 ++ [calculate_hash e p] |})
          as [F [H [E [L1 L2]]]].
        exists (f :: F), (calculate_hash e p :: H). rewrite E. simpl.
        rewrite <- !app_assoc. simpl. split; [reflexivity|split; congruence].
      + destruct (IH (ev ++ [EvImageFeatures p]) d0) as [F [H [E [L1 L2]]]].
        exists F, H. rewrite E, <- app_assoc. split; [reflexivity|split; assumption]. }
  destruct (G [] d) as [F [H [E Ls]]]. exists F, H. split; [exact E|exact Ls].
Qed.

Lemma process_changes_inv e d new modified deleted moved :
  store_inv d ->
  NoDup (map snd moved ++ new) ->
  (forall x, In x (map snd moved ++ new) -> ~ In x (paths d)) ->
  NoDup (map fst moved) -> (forall m, In m moved -> In (fst m) (paths d)) ->
  NoDup modified -> (forall x, In x modified -> In x (paths d)) ->
  exists d',
    process_changes e d new modified deleted moved =
      (match new ++ modified with
       | [] => []
       | L => EvLoadModel :: map EvImageFeatures L
       end, Ok d') /\
    store_inv d'.
Proof.
  intros [Lf [Lh Nd]] Hsn Hout Hfn Hfin Hmn Hmin.
  assert (Nsnd : NoDup (map snd moved)) by exact (NoDup_app_remove_r _ _ Hsn).
  assert (Nnew : NoDup new) by exact (NoDup_app_remove_l _ _ Hsn).
  assert (Hps1 : apply_moves (paths d) moved = map (relabel moved) (paths d))
    by (apply apply_moves_map; assumption).
  assert (N1 : NoDup (map (relabel moved) (paths d))).
  { apply relabel_nodup; [exact Nd|exact Nsnd|].
    intros m Hm. apply Hout. apply in_app_iff. left. apply in_map. exact Hm. }
  unfold process_changes. cbv zeta. rewrite Hps1.
  destruct (keep_entries_ok (features d) (hashes d) (Py.set_of (modified ++ deleted)) 0
              (map (relabel moved) (paths d))) as [F [H [E [L1 L2]]]];
    [rewrite length_map; simpl; lia|rewrite length_map; simpl; lia|].
  rewrite E.
  set (qs := filter (fun p => negb (Py.mem p (Py.set_of (modified ++ deleted))))
                    (map (relabel moved) (paths d))) in *.
  assert (Nq : NoDup qs) by (apply NoDup_filter; exact N1).
  destruct (new ++ modified) as [|x L] eqn:EL.
  - exists {| features := F; paths := qs; hashes := H |}. split; [reflexivity|].
    split; [exact L1|split; [exact L2|exact Nq]].
  - destruct (extract_features_shape e (x :: L) {| features := F; paths := qs; hashes := H |})
      as [F2 [H2 [E2 [L3 L4]]]].
    rewrite E2. eexists. split; [reflexivity|].
    unfold store_inv; cbn [features paths hashes]. rewrite !length_app. split; [lia|split; [lia|]].
    apply NoDup_app; [exact Nq| |].
    + apply NoDup_filter. rewrite <- EL. apply NoDup_app; [exact Nnew|exact Hmn|].
      intros y Hy Hy'. apply (Hout y); [apply in_app_iff; right; exact Hy|].
      exact (Hmin y Hy').
    + intros y Hy Hy'. apply filter_In in Hy' as [Hy' _]. rewrite <- EL in Hy'.
      unfold qs in Hy. apply filter_In in Hy as [Hy Hrm].
      apply in_app_iff in Hy' as [Hy'|Hy'].
      * destruct (relabel_in _ _ _ Hy) as [Hp|Hp].
        -- apply (Hout y); [apply in_app_iff; right; exact Hy'|exact Hp].
        -- exact (nodup_app_disj _ _ y Hsn Hp Hy').
      * apply negb_true_iff, mem_false in Hrm. apply Hrm.
        apply (proj2 (set_of_spec _)). apply in_app_iff. left. exact Hy'.
Qed.

(** [_save_index] *)

Lemma save_index_events e f d x :
  In x (save_index e f d) -> x = EvRemoveIndex \/ exists r, x = EvSaveIndex r.
Proof.
  unfold save_index. destruct (paths d).
  - destruct (index_file_exists f); simpl; [intros [<-|[]]; left; reflexivity|intros []].
  - destruct (is_in_current_folder e); simpl; intros [<-|[]]; right; eexists; reflexivity.
Qed.


End IdxFacts.

Module XFacts.
Import Searcher Stmt XDefs.

Lemma truthy_of_nonblank (o : option string) :
  Py.nonblank o = true -> Py.truthy o = true.
Proof.
  destruct o as [t|]; simpl; [|discriminate].
  destruct (String.eqb_spec t ""); [subst; vm_compute; discriminate|].
  intros _. reflexivity.
Qed.

Lemma resolvable_truthy (s : searcher) q sim :
  positive_resolvable s q sim = true -> (Py.truthy q || Py.truthy sim) = true.
Proof.
  unfold positive_resolvable. intros H. apply orb_true_iff in H as [H|H].
  - rewrite (truthy_of_nonblank q H). reflexivity.
  - destruct sim as [p|]; [|discriminate H].
    apply andb_true_iff in H as [H _].
    rewrite (truthy_of_nonblank _ H), orb_true_r. reflexivity.
Qed.










(** Lengths of the score vectors. *)
Lemma length_scores_against (s : searcher) v :
  length (scores_against s v) = length (image_features s).
Proof. unfold scores_against, normalized_image_features. rewrite !length_map. reflexivity. Qed.

Lemma length_apply_negative gtf (s : searcher) nq ps :
  length ps = length (image_features s) ->
  length (snd (apply_negative gtf s nq ps)) = length ps.
Proof.
  intros H. unfold apply_negative.
  destruct (Py.nonblank nq); [|reflexivity].
  destruct (negative_keywords _); [reflexivity|]. simpl.
  unfold subtract_negative. rewrite Facts.length_vsub, length_scores_against. lia.
Qed.

Lemma firstn_min_length {A} n (l : list A) :
  firstn (Nat.min n (length l)) l = firstn n l.
Proof.
  destruct (Nat.le_ge_cases n (length l)).
  - rewrite Nat.min_l by lia. reflexivity.
  - rewrite Nat.min_r by lia. rewrite firstn_all, firstn_all2 by lia. reflexivity.
Qed.

(** [search_page] in closed form: the page [[offset, offset + top_k)] of
    the ranking. *)
Lemma search_page_closed (s : searcher) fs k o :
  (0 < k)%Z -> (0 <= o)%Z -> length (image_paths s) <> 1 ->
  length fs = length (image_paths s) ->
  search_page s fs k o =
  Ok (map (fun r => (nth (fst r) (image_paths s) ""%string, snd r))
          (firstn (Z.to_nat k) (skipn (Z.to_nat o) (rank fs)))).
Proof.
  intros Hk Ho H1 Hl. unfold search_page.
  set (n := length (image_paths s)) in *.
  pose proof (Facts.length_rank fs) as HR.
  destruct (Z.min (k + o) (Z.of_nat n) <=? o)%Z eqn:E1.
  - apply Z.leb_le in E1.
    rewrite skipn_all2 by lia. rewrite firstn_nil. reflexivity.
  - apply Z.leb_gt in E1.
    replace (Z.min (k + o) (Z.of_nat n) <? 0)%Z with false by (symmetry; apply Z.ltb_ge; lia).
    replace (Nat.eqb n 1) with false by (symmetry; apply Nat.eqb_neq; exact H1).
    f_equal. f_equal. unfold topk, Py.slice_from, Py.norm_index.
    replace (o <? 0)%Z with false by (symmetry; apply Z.ltb_ge; lia).
    rewrite length_firstn, HR.
    rewrite Hl. rewrite (Nat.min_l (Z.to_nat (Z.min (k + o) (Z.of_nat n))) n) by lia. rewrite Nat.min_l by lia.
    rewrite skipn_firstn_comm.
    rewrite <- (firstn_min_length (Z.to_nat k) (skipn (Z.to_nat o) (rank fs))).
    rewrite length_skipn, HR. f_equal. lia.
Qed.

Lemma resolvable_vectors gtf (s : searcher) q sim :
  positive_resolvable s q sim =
  match snd (positive_vectors gtf s q sim) with [] => false | _ => true end.
Proof.
  unfold positive_resolvable, positive_vectors.
  destruct q as [q|]; [destruct (Py.nonblank (Some q)) eqn:Hq|]; simpl;
    (destruct sim as [p|]; [destruct (Py.nonblank (Some p)); simpl;
      [destruct (Dict.get p (path_to_idx s))|]|]); reflexivity.
Qed.

Lemma nonblank_truthy' (q : option string) :
  Py.nonblank q = true -> Py.truthy q = true.
Proof.
  destruct q as [t|]; simpl; [|discriminate].
  destruct (String.eqb_spec t ""); [subst; vm_compute; discriminate|].
  intros _. reflexivity.
Qed.

(** [search] in closed form for a corpus of at least two images. *)
Lemma search_closed gtf (s : searcher) q k nq sim o :
  (0 < k)%Z -> (0 <= o)%Z -> length (image_paths s) <> 1 ->
  length (image_features s) = length (image_paths s) ->
  snd (search gtf s q k nq sim o) =
  if positive_resolvable s q sim then
    Ok (map (fun r => (nth (fst r) (image_paths s) ""%string, snd r))
          (firstn (Z.to_nat k) (skipn (Z.to_nat o)
             (rank (snd (apply_negative gtf s nq
                (scores_against s (Vec.normalize (Vec.mean_rows
                   (snd (positive_vectors gtf s q sim))))))))))) 
  else Ok [].
Proof.
  intros Hk Ho H1 Hl. rewrite (resolvable_vectors gtf).
  unfold search.
  replace (k <=? 0)%Z with false by (symmetry; apply Z.leb_gt; lia).
  destruct (Py.truthy q || Py.truthy sim) eqn:Ht; simpl.
  - destruct (positive_vectors gtf s q sim) as [ev1 pvs] eqn:Ep. simpl.
    destruct pvs as [|v pvs]; [reflexivity|].
    destruct (apply_negative gtf s nq _) as [ev2 fs] eqn:Ea. simpl.
    apply search_page_closed; try assumption.
    assert (Hfs : fs = snd (apply_negative gtf s nq
                     (scores_against s (Vec.normalize (Vec.mean_rows (v :: pvs))))))
      by (rewrite Ea; reflexivity).
    rewrite Hfs, length_apply_negative by apply length_scores_against.
    rewrite length_scores_against; exact Hl.
  - rewrite <- (resolvable_vectors gtf).
    unfold positive_resolvable.
    destruct (Py.nonblank q) eqn:Hq;
      [apply nonblank_truthy' in Hq; rewrite Hq in Ht; discriminate|].
    destruct sim as [p|]; [|reflexivity].
    destruct (Py.nonblank (Some p)) eqn:Hp; [|reflexivity].
    apply nonblank_truthy' in Hp. rewrite Hp, orb_true_r in Ht. discriminate.
Qed.

(** [search_by_image] in closed form for an indexed image of a corpus of
    at least two images: the other rows in ranking order, sliced. *)
Lemma search_by_image_closed gtf (s : searcher) p k nq o qi :
  (0 < k)%Z -> (0 <= o)%Z -> length (image_paths s) <> 1 ->
  length (image_features s) = length (image_paths s) ->
  Dict.get p (path_to_idx s) = Some qi ->
  snd (search_by_image gtf s p k nq o) =
  Ok (map (fun r => (nth (fst r) (image_paths s) ""%string, snd r))
          (firstn (Z.to_nat k) (skipn (Z.to_nat o)
             (filter (fun r => negb (Nat.eqb (fst r) qi))
                (rank (snd (image_query_scores gtf s qi nq))))))).
Proof.
  intros Hk Ho H1 Hlen Hq.
  unfold search_by_image.
  replace (k <=? 0)%Z with false by (symmetry; apply Z.leb_gt; lia).
  rewrite Hq.
  pose proof (Facts.length_image_query_scores gtf s qi nq) as Hls.
  destruct (image_query_scores gtf s qi nq) as [ev final] eqn:Hsc.
  simpl in Hls |- *.
  set (n := length (image_paths s)) in *.
  replace (Z.min (k + o + 1) (Z.of_nat n) <? 0)%Z with false
    by (symmetry; apply Z.ltb_ge; lia).
  replace (Nat.eqb n 1) with false by (symmetry; apply Nat.eqb_neq; exact H1).
  simpl. unfold topk. f_equal.
  set (P := fun r : nat * float => negb (Nat.eqb (fst r) qi)).
  set (m := Z.to_nat (Z.min (k + o + 1) (Z.of_nat n))).
  rewrite Facts.slice_nonneg by lia.
  rewrite !skipn_map, !firstn_map. f_equal.
  set (R := rank final).
  assert (HR : length R = n) by (unfold R; rewrite Facts.length_rank; lia).
  replace (Z.to_nat (o + k) - Z.to_nat o) with (Z.to_nat k) by lia.
  destruct (Nat.le_gt_cases (Z.to_nat k + Z.to_nat o + 1) n) as [Hsmall|Hbig].
  - assert (Hm : m = Z.to_nat k + Z.to_nat o + 1) by (unfold m; lia).
    rewrite Facts.filter_firstn_prefix.
    set (c := length (filter P (firstn m R))).
    assert (Hc : Z.to_nat k + Z.to_nat o <= c).
    { pose proof (filter_length P (firstn m R)) as Hfl.
      pose proof (Facts.at_most_one_index qi (firstn m R)
                    (Facts.nodup_map_firstn fst m R (Facts.rank_nodup final)))
        as Hone.
      assert (Heqf : filter (fun x => negb (P x)) (firstn m R) =
                     filter (fun r => Nat.eqb (fst r) qi) (firstn m R)).
      { apply filter_ext. intros r. unfold P. apply negb_involutive. }
      rewrite Heqf in Hfl. rewrite length_firstn in Hfl. fold c in Hfl. lia. }
    rewrite skipn_firstn_comm, firstn_firstn.
    f_equal. lia.
  - assert (Hm : m = n) by (unfold m; lia).
    rewrite Hm, (firstn_all2 (n:=n) R) by lia. reflexivity.
Qed.

(** The ranking lists every row once: one entry for [qi]. *)
Lemma length_filter_rank_other (sc : list float) qi :
  qi < length sc ->
  length (filter (fun r => negb (Nat.eqb (fst r) qi)) (rank sc)) =
  length sc - 1.
Proof.
  intros Hq.
  pose proof (filter_length (fun r => negb (Nat.eqb (fst r) qi)) (rank sc)) as Hfl.
  assert (Heqf : filter (fun x => negb (negb (Nat.eqb (fst x) qi))) (rank sc) =
                 filter (fun r => Nat.eqb (fst r) qi) (rank sc))
    by (apply filter_ext; intros r; apply negb_involutive).
  cbv beta in Hfl. rewrite Heqf, Facts.length_rank in Hfl.
  pose proof (Facts.at_most_one_index qi (rank sc) (Facts.rank_nodup sc)) as Hone.
  assert (Hin : In qi (map fst (rank sc))).
  { eapply Permutation_in; [symmetry; apply Facts.rank_indices|].
    apply in_seq. lia. }
  apply in_map_iff in Hin as [r [Hr Hin]].
  assert (Hne : filter (fun r => Nat.eqb (fst r) qi) (rank sc) <> []).
  { intros E. assert (Hf : In r (filter (fun r => Nat.eqb (fst r) qi) (rank sc)))
      by (apply filter_In; split; [exact Hin|apply Nat.eqb_eq; exact Hr]).
    rewrite E in Hf. contradiction. }
  destruct (filter (fun r => Nat.eqb (fst r) qi) (rank sc)); [congruence|].
  simpl in *. lia.
Qed.

Lemma firstn_add_split {A} a b (l : list A) :
  firstn (a + b) l = firstn a l ++ firstn b (skipn a l).
Proof.
  revert l. induction a as [|a IH]; intros [|x l]; simpl;
    try rewrite firstn_nil; try reflexivity.
  f_equal. apply IH.
Qed.

(** Dicts built from a list of pairs. *)
Lemma get_set_eq {V} (k k' : string) (v : V) d :
  Dict.get k (Dict.set k' v d) =
  if String.eqb k k' then Some v else Dict.get k d.
Proof.
  induction d as [|[k2 v2] d IH]; simpl.
  - reflexivity.
  - destruct (String.eqb_spec k' k2) as [->|Hne]; simpl.
    + destruct (String.eqb_spec k k2); reflexivity.
    + destruct (String.eqb_spec k k2) as [->|_]; [|exact IH].
      destruct (String.eqb_spec k2 k'); [congruence|reflexivity].
Qed.

Lemma of_list_snoc {V} (l : list (string * V)) kv :
  Dict.of_list (l ++ [kv]) = Dict.set (fst kv) (snd kv) (Dict.of_list l).
Proof. unfold Dict.of_list. rewrite fold_left_app. reflexivity. Qed.

Lemma combine_app' {A B} (l1 l3 : list A) (l2 l4 : list B) :
  length l1 = length l2 ->
  combine (l1 ++ l3) (l2 ++ l4) = combine l1 l2 ++ combine l3 l4.
Proof.
  revert l2. induction l1 as [|x l1 IH]; intros [|y l2] H; simpl in *;
    try reflexivity; try discriminate.
  f_equal. apply IH. lia.
Qed.

Lemma combine_seq_snoc (ps : list string) x :
  combine (ps ++ [x]) (seq 0 (length (ps ++ [x]))) =
  combine ps (seq 0 (length ps)) ++ [(x, length ps)].
Proof.
  rewrite length_app, seq_app. simpl.
  rewrite combine_app' by (rewrite length_seq; reflexivity). reflexivity.
Qed.

(** The index dict maps a path to its last position. *)
Lemma get_index_dict (ps : list string) p i :
  Dict.get p (Dict.of_list (combine ps (seq 0 (length ps)))) = Some i <->
  i < length ps /\ nth i ps ""%string = p /\
  (forall j, i < j < length ps -> nth j ps ""%string <> p).
Proof.
  revert i. induction ps as [|x ps IH] using rev_ind; intros i.
  - simpl. split; [discriminate|lia].
  - rewrite combine_seq_snoc, of_list_snoc, get_set_eq, length_app. simpl.
    destruct (String.eqb_spec p x) as [->|Hne].
    + split.
      * intros H. injection H as <-. rewrite app_nth2 by lia.
        rewrite Nat.sub_diag. simpl. split; [lia|split; [reflexivity|lia]].
      * intros [Hi [Hn Hj]]. f_equal.
        destruct (Nat.eq_dec i (length ps)) as [E|E]; [symmetry; exact E|].
        exfalso. apply (Hj (length ps)); [lia|].
        rewrite app_nth2 by lia. rewrite Nat.sub_diag. reflexivity.
    + rewrite IH. split.
      * intros [Hi [Hn Hj]]. split; [lia|split].
        -- rewrite app_nth1 by lia. exact Hn.
        -- intros j Hj'. destruct (Nat.eq_dec j (length ps)) as [->|E].
           ++ rewrite app_nth2 by lia. rewrite Nat.sub_diag. simpl.
              intros E. apply Hne. symmetry. exact E.
           ++ rewrite app_nth1 by lia. apply Hj. lia.
      * intros [Hi [Hn Hj]].
        destruct (Nat.eq_dec i (length ps)) as [->|E].
        -- exfalso. rewrite app_nth2 in Hn by lia. rewrite Nat.sub_diag in Hn.
           simpl in Hn. apply Hne. symmetry. exact Hn.
        -- rewrite app_nth1 in Hn by lia. split; [lia|split; [exact Hn|]].
           intros j Hj'. specialize (Hj j ltac:(lia)).
           rewrite app_nth1 in Hj by lia. exact Hj.
Qed.

Lemma get_index_dict_none (ps : list string) p :
  Dict.get p (Dict.of_list (combine ps (seq 0 (length ps)))) = None <->
  ~ In p ps.
Proof.
  induction ps as [|x ps IH] using rev_ind.
  - simpl. split; [intros _ []|reflexivity].
  - rewrite combine_seq_snoc, of_list_snoc, get_set_eq. simpl.
    rewrite in_app_iff. simpl.
    destruct (String.eqb_spec p x) as [->|Hne].
    + split; [discriminate|]. intros H. exfalso. apply H. right. left. reflexivity.
    + rewrite IH. split.
      * intros H [H'|[H'|[]]]; [exact (H H')|exact (Hne (eq_sym H'))].
      * intros H H'. apply H. left. exact H'.
Qed.

Lemma indexed_has_idx (s : searcher) p :
  In p (image_paths s) -> exists qi, Dict.get p (path_to_idx s) = Some qi.
Proof.
  intros H. unfold path_to_idx.
  destruct (Dict.get p _) as [qi|] eqn:E; [exists qi; reflexivity|].
  apply get_index_dict_none in E. contradiction.
Qed.


(** * [_scan_and_compare] *)
Section Scan.
Import Indexer.

Lemma set_in {V} (k : string) (v : V) d kv :
  In kv (Dict.set k v d) -> kv = (k, v) \/ In kv d.
Proof.
  induction d as [|[k' v'] d IH]; simpl.
  - intros [H|[]]. left. symmetry. exact H.
  - destruct (String.eqb_spec k k') as [->|_]; simpl.
    + intros [H|H]; [left; symmetry; exact H|right; right; exact H].
    + intros [H|H]; [right; left; exact H|].
      destruct (IH H) as [E|E]; [left; exact E|right; right; exact E].
Qed.

Lemma del_in {V} (k : string) (d : Dict.t V) kv : In kv (Dict.del k d) -> In kv d.
Proof.
  induction d as [|[k' v'] d IH]; simpl; [intros []|].
  destruct (String.eqb k k'); simpl; [intros H; right; exact H|].
  intros [H|H]; [left; exact H|right; exact (IH H)].
Qed.

Lemma keys_set {V} (k : string) (v : V) d x :
  In x (Dict.keys (Dict.set k v d)) <-> x = k \/ In x (Dict.keys d).
Proof.
  unfold Dict.keys. induction d as [|[k' v'] d IH]; simpl.
  - split; [intros [H|[]]; left; symmetry; exact H|intros [H|[]]; left; symmetry; exact H].
  - destruct (String.eqb_spec k k') as [->|_]; simpl.
    + split; [intros [H|H]; [left; symmetry; exact H|right; right; exact H]|].
      intros [H|[H|H]]; [left; symmetry; exact H|left; exact H|right; exact H].
    +
    rewrite IH. tauto.
Qed.

Lemma keys_set_nodup {V} (k : string) (v : V) d :
  NoDup (Dict.keys d) -> NoDup (Dict.keys (Dict.set k v d)).
Proof.
  unfold Dict.keys. induction d as [|[k' v'] d IH]; simpl; intros Hn.
  - constructor; [intros []|constructor].
  - apply NoDup_cons_iff in Hn as [Hk Hn].
    destruct (String.eqb_spec k k') as [->|Hne]; simpl; constructor; try assumption.
    + change (~ In k' (Dict.keys (Dict.set k v d))). rewrite keys_set.
      intros [E|E]; [congruence|exact (Hk E)].
    + apply IH. exact Hn.
Qed.

Lemma nodup_keys_unique {V} (d : Dict.t V) k a b :
  NoDup (Dict.keys d) -> In (k, a) d -> In (k, b) d -> a = b.
Proof.
  unfold Dict.keys. induction d as [|[k' v'] d IH]; simpl; intros Hn Ha Hb;
    [contradiction|].
  apply NoDup_cons_iff in Hn as [Hk Hn].
  destruct Ha as [Ea|Ha]; destruct Hb as [Eb|Hb].
  - congruence.
  - injection Ea as -> ->. exfalso. apply Hk. apply (in_map fst) in Hb. exact Hb.
  - injection Eb as -> ->. exfalso. apply Hk. apply (in_map fst) in Ha. exact Ha.
  - exact (IH Hn Ha Hb).
Qed.

Lemma values_in {V} (d : Dict.t V) x :
  In x (Dict.values d) -> exists k, In (k, x) d.
Proof.
  unfold Dict.values. intros H. apply in_map_iff in H as [[k v] [E H]].
  simpl in E. subst. exists k. exact H.
Qed.

Lemma in_values {V} (d : Dict.t V) k x : In (k, x) d -> In x (Dict.values d).
Proof. unfold Dict.values. intros H. apply (in_map snd) in H. exact H. Qed.

Lemma in_keys {V} (d : Dict.t V) k x : In (k, x) d -> In k (Dict.keys d).
Proof. unfold Dict.keys. intros H. apply (in_map fst) in H. exact H. Qed.


Lemma fd_pairs ph pd d h a :
  In (h, a) (fold_left (fd_step ph) pd d) ->
  (In a pd /\ stored_hash ph a = Some h) \/ In (h, a) d.
Proof.
  revert d. induction pd as [|p pd IH]; intros d H; simpl in *; [right; exact H|].
  destruct (IH _ H) as [[Hin Hs]|Hd]; [left; split; [right; exact Hin|exact Hs]|].
  unfold fd_step in Hd. destruct (stored_hash ph p) as [h'|] eqn:Hp; [|right; exact Hd].
  destruct (set_in _ _ _ _ Hd) as [E|E]; [|right; exact E].
  injection E as -> ->. left. split; [left; reflexivity|exact Hp].
Qed.

Lemma fd_keys_nodup ph pd d :
  NoDup (Dict.keys d) -> NoDup (Dict.keys (fold_left (fd_step ph) pd d)).
Proof.
  revert d. induction pd as [|p pd IH]; intros d H; simpl; [exact H|].
  apply IH. unfold fd_step. destruct (stored_hash ph p); [|exact H].
  apply keys_set_nodup. exact H.
Qed.

Lemma fd_get_other ph pd d h :
  (forall a, In a pd -> stored_hash ph a <> Some h) ->
  Dict.get h (fold_left (fd_step ph) pd d) = Dict.get h d.
Proof.
  revert d. induction pd as [|p pd IH]; intros d H; simpl; [reflexivity|].
  rewrite IH by (intros a Ha; apply H; right; exact Ha).
  unfold fd_step. destruct (stored_hash ph p) as [h'|] eqn:Hp; [|reflexivity].
  rewrite get_set_eq. destruct (String.eqb_spec h h') as [->|]; [|reflexivity].
  exfalso. exact (H p (or_introl eq_refl) Hp).
Qed.

Lemma fd_last ph pd d h a :
  In a pd -> stored_hash ph a = Some h ->
  (forall a', In a' pd -> stored_hash ph a' = Some h -> a' = a) ->
  Dict.get h (fold_left (fd_step ph) pd d) = Some a.
Proof.
  revert d. induction pd as [|p pd IH]; intros d Hin Hs Hu; simpl in *; [contradiction|].
  destruct (in_dec string_dec a pd) as [Ha|Ha].
  - apply IH; [exact Ha|exact Hs|intros a' H1 H2; apply Hu; [right|]; assumption].
  - destruct Hin as [->|Hin]; [|contradiction].
    rewrite fd_get_other.
    + unfold fd_step. rewrite Hs, get_set_eq, String.eqb_refl. reflexivity.
    + intros a' H1 H2. assert (a' = a) as -> by (apply Hu; [right|]; assumption).
      contradiction.
Qed.


Lemma detect_moves_fold e pn dh0 :
  detect_moves e pn dh0 = fold_left (dm_step e) pn ([], [], dh0).
Proof. reflexivity. Qed.

Lemma dm_sound e l mv nw dh mv' nw' dh' :
  fold_left (dm_step e) l (mv, nw, dh) = (mv', nw', dh') ->
  (forall x, In x nw' -> In x nw \/ (In x l /\ calculate_hash e x <> None)) /\
  (forall a b, In (a, b) mv' -> In (a, b) mv \/
     (In b l /\ exists h, calculate_hash e b = Some h /\ In (h, a) dh)) /\
  (forall kv, In kv dh' -> In kv dh).
Proof.
  revert mv nw dh. induction l as [|p l IH]; intros mv nw dh Hr; simpl in Hr.
  - injection Hr as <- <- <-. split; [intros x H; left; exact H|].
    split; [intros a b H; left; exact H|intros kv H; exact H].
  - idtac.
    destruct (calculate_hash e p) as [h|] eqn:Hh.
    + destruct (Dict.get h dh) as [old|] eqn:Hg.
      * destruct (IH _ _ _ Hr) as [H1 [H2 H3]]. split; [|split].
        -- intros x Hx. destruct (H1 x Hx) as [E|[E1 E2]]; [left; exact E|].
           right. split; [right; exact E1|exact E2].
        -- intros a b Hab. destruct (H2 a b Hab) as [E|[E1 [h' [E2 E3]]]].
           ++ apply in_app_iff in E as [E|[E|[]]]; [left; exact E|].
              injection E as -> ->. right. split; [left; reflexivity|].
              exists h. split; [exact Hh|apply IdxFacts.get_in; exact Hg].
           ++ right. split; [right; exact E1|]. exists h'.
              split; [exact E2|apply (del_in h); exact E3].
        -- intros kv Hkv. apply (del_in h). exact (H3 kv Hkv).
      * destruct (IH _ _ _ Hr) as [H1 [H2 H3]]. split; [|split].
        -- intros x Hx. destruct (H1 x Hx) as [E|[E1 E2]].
           ++ apply in_app_iff in E as [E|[E|[]]]; [left; exact E|].
              subst. right. split; [left; reflexivity|rewrite Hh; discriminate].
           ++ right. split; [right; exact E1|exact E2].
        -- intros a b Hab. destruct (H2 a b Hab) as [E|[E1 E2]]; [left; exact E|].
           right. split; [right; exact E1|exact E2].
        -- exact H3.
    + destruct (IH _ _ _ Hr) as [H1 [H2 H3]]. split; [|split].
      * intros x Hx. destruct (H1 x Hx) as [E|[E1 E2]]; [left; exact E|].
        right. split; [right; exact E1|exact E2].
      * intros a b Hab. destruct (H2 a b Hab) as [E|[E1 E2]]; [left; exact E|].
        right. split; [right; exact E1|exact E2].
      * exact H3.
Qed.

Lemma dm_complete e l mv nw dh mv' nw' dh' :
  fold_left (dm_step e) l (mv, nw, dh) = (mv', nw', dh') ->
  (forall x, In x (map snd mv ++ nw) \/ (In x l /\ calculate_hash e x <> None) ->
             In x (map snd mv' ++ nw')) /\
  (forall x, In x (map fst mv ++ Dict.values dh) ->
             In x (map fst mv' ++ Dict.values dh')).
Proof.
  revert mv nw dh. induction l as [|p l IH]; intros mv nw dh Hr; simpl in Hr.
  - injection Hr as <- <- <-. split; [|intros x H; exact H].
    intros x [H|[[] _]]. exact H.
  - idtac.
    destruct (calculate_hash e p) as [h|] eqn:Hh.
    + destruct (Dict.get h dh) as [old|] eqn:Hg.
      * destruct (IH _ _ _ Hr) as [H1 H2]. split.
        -- intros x Hx. apply H1. rewrite map_app, <- app_assoc. simpl.
           destruct Hx as [Hx|[[<-|Hx] Hh']].
           ++ left. apply in_app_iff in Hx as [Hx|Hx];
                apply in_app_iff; [left; exact Hx|right; right; exact Hx].
           ++ left. apply in_app_iff. right. left. reflexivity.
           ++ right. split; [exact Hx|exact Hh'].
        -- intros x Hx. apply H2.
           destruct (IdxFacts.get_del_values h old dh Hg) as [pre [post [Hv Hd]]].
           rewrite map_app, <- app_assoc, Hd. simpl.
           rewrite Hv in Hx. apply in_app_iff in Hx as [Hx|Hx];
             [apply in_app_iff; left; exact Hx|].
           apply in_app_iff in Hx as [Hx|[<-|Hx]]; apply in_app_iff; right.
           ++ right. apply in_app_iff. left. exact Hx.
           ++ left. reflexivity.
           ++ right. apply in_app_iff. right. exact Hx.
      * destruct (IH _ _ _ Hr) as [H1 H2]. split; [|exact H2].
        intros x Hx. apply H1. rewrite app_assoc.
        destruct Hx as [Hx|[[<-|Hx] Hh']].
        -- left. apply in_app_iff. left. exact Hx.
        -- left. apply in_app_iff. right. left. reflexivity.
        -- right. split; [exact Hx|exact Hh'].
    + destruct (IH _ _ _ Hr) as [H1 H2]. split; [|exact H2].
      intros x Hx. apply H1. destruct Hx as [Hx|[[<-|Hx] Hh']].
      * left. exact Hx.
      * exfalso. apply Hh'. exact Hh.
      * right. split; [exact Hx|exact Hh'].
Qed.

Lemma opt_eqb_some h o : opt_eqb (Some h) o = true <-> o = Some h.
Proof.
  destruct o as [h'|]; simpl; [|split; discriminate].
  rewrite String.eqb_eq. split; intros H; [subst|injection H as ->]; reflexivity.
Qed.

End Scan.

(** * [update] *)
Section Update.
Import Indexer.

Lemma mem_set_of x l : Py.mem x (Py.set_of l) = Py.mem x l.
Proof.
  destruct (Py.mem x l) eqn:E.
  - apply IdxFacts.mem_true. apply (proj2 (IdxFacts.set_of_spec l)).
    apply IdxFacts.mem_true. exact E.
  - apply IdxFacts.mem_false. rewrite (proj2 (IdxFacts.set_of_spec l)).
    apply IdxFacts.mem_false. exact E.
Qed.


Lemma process_changes_paths e d new modified deleted moved ev d' :
  store_inv d ->
  NoDup (map fst moved) -> (forall m, In m moved -> In (fst m) (paths d)) ->
  process_changes e d new modified deleted moved = (ev, Ok d') ->
  paths d' =
    filter (fun p => negb (Py.mem p (modified ++ deleted)))
           (map (relabel moved) (paths d)) ++
    filter (extractable e) (new ++ modified).
Proof.
  intros [Lf [Lh Nd]] Hfn Hfin Hp.
  unfold process_changes in Hp. cbv zeta in Hp.
  rewrite (IdxFacts.apply_moves_map (paths d) moved Nd Hfn Hfin) in Hp.
  destruct (IdxFacts.keep_entries_ok (features d) (hashes d)
              (Py.set_of (modified ++ deleted)) 0
              (map (relabel moved) (paths d))) as [F [H [E _]]];
    [rewrite length_map; simpl; lia|rewrite length_map; simpl; lia|].
  rewrite E in Hp.
  assert (Hq : filter (fun p => negb (Py.mem p (Py.set_of (modified ++ deleted))))
                 (map (relabel moved) (paths d)) =
               filter (fun p => negb (Py.mem p (modified ++ deleted)))
                 (map (relabel moved) (paths d)))
    by (apply filter_ext; intros p; rewrite mem_set_of; reflexivity).
  destruct (new ++ modified) as [|x L] eqn:EL.
  - injection Hp as _ <-. simpl. rewrite app_nil_r. exact Hq.
  - destruct (IdxFacts.extract_features_shape e (x :: L)
                {| features := F;
                   paths := filter (fun p => negb (Py.mem p (Py.set_of (modified ++ deleted))))
                              (map (relabel moved) (paths d));
                   hashes := H |}) as [F2 [H2 [E2 _]]].
    rewrite E2 in Hp. injection Hp as _ <-. simpl. rewrite Hq. reflexivity.
Qed.


Lemma update_shape e f :
  (forall x y, abspath e x = abspath e y -> x = y) ->
  match f with IndexFile r => persisted_inv r | _ => True end ->
  forall new modified deleted moved,
  scan_and_compare e (snd (load_or_initialize_index e f)) =
    (new, modified, deleted, moved) ->
  exists o,
    match new ++ modified ++ deleted, moved with
    | [], [] =>
        update e f = ([], Ok o) /\
        out_store o = fst (load_or_initialize_index e f)
    | _, _ =>
        update e f = (update_events e f new modified (out_store o), Ok o) /\
        paths (out_store o) =
          filter (fun p => negb (Py.mem p (modified ++ deleted)))
                 (map (relabel moved) (paths (fst (load_or_initialize_index e f)))) ++
          filter (extractable e) (new ++ modified)
    end /\
    store_inv (out_store o) /\
    s_new (out_summary o) = length new.
Proof.
  intros Habs Hf new modified deleted moved ES.
  pose proof (IdxFacts.load_inv e f Habs Hf) as Hinv.
  pose proof (IdxFacts.load_ph e f) as Hph.
  unfold update.
  destruct (load_or_initialize_index e f) as [d ph]. simpl in Hinv, Hph, ES |- *.
  rewrite (IdxFacts.store_ph d Hinv) in Hph. subst ph.
  rewrite ES.
  assert (Hk : forall x, In x (Dict.keys (combine (paths d) (hashes d)))
                         <-> In x (paths d)).
  { intros x. unfold Dict.keys. destruct Hinv as [_ [Lh _]].
    rewrite IdxFacts.map_fst_combine by lia. reflexivity. }
  destruct (IdxFacts.scan_facts e _ _ Hk _ _ _ _ ES) as [S1 [S2 [S3 [S4 [S5 S6]]]]].
  destruct (IdxFacts.process_changes_inv e d new modified deleted moved
              Hinv S1 S2 S3 S4 S5 S6) as [d' [EP Hinv']].
  pose proof (process_changes_paths e d new modified deleted moved _ d' Hinv S3 S4 EP)
    as Hpaths.
  destruct new as [|n1 new]; [destruct modified as [|m1 modified];
    [destruct deleted as [|x1 deleted]; [destruct moved as [|mv1 moved]|]|]|].
  1: { eexists. split; [split; reflexivity|]. split; [exact Hinv|reflexivity]. }
  all: cbv beta iota; rewrite EP;
    match goal with |- context [(_, Ok ?O)] => exists O end;
    (split; [simpl; split; [reflexivity|exact Hpaths]|]);
    (split; [exact Hinv'|reflexivity]).
Qed.

End Update.

Lemma scan_sound (e : Indexer.env) (ph : Dict.t (option string))
    new modified deleted moved :
  Indexer.scan_and_compare e ph = (new, modified, deleted, moved) ->
  (forall x, In x new ->
     In x (Indexer.disk_scan e) /\ ~ In x (Dict.keys ph) /\
     Indexer.calculate_hash e x <> None) /\
  (forall x, In x modified ->
     In x (Indexer.disk_scan e) /\ In x (Dict.keys ph) /\
     exists h, Indexer.calculate_hash e x = Some h /\
               Indexer.stored_hash ph x <> Some h) /\
  (forall x, In x deleted ->
     ~ In x (Indexer.disk_scan e) /\ In x (Dict.keys ph) /\
     Indexer.stored_hash ph x <> None) /\
  (forall a b, In (a, b) moved ->
     ~ In a (Indexer.disk_scan e) /\ In a (Dict.keys ph) /\
     In b (Indexer.disk_scan e) /\ ~ In b (Dict.keys ph) /\
     Indexer.stored_hash ph a <> None /\
     Indexer.calculate_hash e b = Indexer.stored_hash ph a).
Proof.
  unfold Indexer.scan_and_compare. cbv zeta.
  destruct (IdxFacts.set_of_spec (Indexer.disk_scan e)) as [Nc Ic].
  destruct (IdxFacts.set_of_spec (Dict.keys ph)) as [Ni Ii].
  set (cur := Py.set_of (Indexer.disk_scan e)) in *.
  set (idx := Py.set_of (Dict.keys ph)) in *.
  set (pd := filter (fun p => negb (Py.mem p cur)) idx).
  set (pn := filter (fun p => negb (Py.mem p idx)) cur).
  assert (Hpn : forall x, In x pn -> In x (Indexer.disk_scan e) /\ ~ In x (Dict.keys ph)).
  { intros x Hx. apply filter_In in Hx as [Hc Hm].
    apply negb_true_iff, IdxFacts.mem_false in Hm.
    split; [apply Ic; exact Hc|intros H; apply Hm, Ii; exact H]. }
  assert (Hpd : forall x, In x pd -> ~ In x (Indexer.disk_scan e) /\ In x (Dict.keys ph)).
  { intros x Hx. apply filter_In in Hx as [Hi Hm].
    apply negb_true_iff, IdxFacts.mem_false in Hm.
    split; [intros H; apply Hm, Ic; exact H|apply Ii; exact Hi]. }
  destruct (Indexer.detect_moves e pn _) as [[mv nw] dh] eqn:Ed.
  intros Hr. injection Hr as <- <- <- <-.
  rewrite detect_moves_fold in Ed.
  destruct (dm_sound e _ _ _ _ _ _ _ Ed) as [S1 [S2 S3]].
  split; [|split; [|split]].
  - intros x Hx. destruct (S1 x Hx) as [[]|[Hp Hh]].
    destruct (Hpn x Hp) as [H1 H2]. split; [exact H1|split; [exact H2|exact Hh]].
  - intros x Hx. apply filter_In in Hx as [Hx Hh].
    apply filter_In in Hx as [Hc Hm]. apply IdxFacts.mem_true, Ii in Hm.
    destruct (Indexer.calculate_hash e x) as [h|]; [|discriminate].
    split; [apply Ic; exact Hc|]. split; [exact Hm|]. exists h.
    split; [reflexivity|]. intros E. cbv beta iota in Hh. apply negb_true_iff in Hh.
    rewrite E, String.eqb_refl in Hh. discriminate.
  - intros x Hx. destruct (values_in dh x Hx) as [h Hhx].
    apply S3 in Hhx.
    destruct (fd_pairs ph pd [] h x Hhx) as [[Hp Hs]|[]].
    destruct (Hpd x Hp) as [H1 H2]. split; [exact H1|split; [exact H2|]].
    rewrite Hs. discriminate.
  - intros a b Hab. destruct (S2 a b Hab) as [[]|[Hb [h [Hh Hha]]]].
    destruct (fd_pairs ph pd [] h a Hha) as [[Hp Hs]|[]].
    destruct (Hpd a Hp) as [H1 H2]. destruct (Hpn b Hb) as [H3 H4].
    split; [exact H1|split; [exact H2|split; [exact H3|split; [exact H4|]]]].
    rewrite Hs, Hh. split; [discriminate|reflexivity].
Qed.

Lemma scan_complete (e : Indexer.env) (ph : Dict.t (option string))
    new modified deleted moved :
  Indexer.scan_and_compare e ph = (new, modified, deleted, moved) ->
  (forall x, In x (Indexer.disk_scan e) -> ~ In x (Dict.keys ph) ->
     Indexer.calculate_hash e x <> None ->
     In x new \/ exists a, In (a, x) moved) /\
  (forall x h, In x (Indexer.disk_scan e) -> In x (Dict.keys ph) ->
     Indexer.calculate_hash e x = Some h -> Indexer.stored_hash ph x <> Some h ->
     In x modified) /\
  (forall x h, ~ In x (Indexer.disk_scan e) -> In x (Dict.keys ph) ->
     Indexer.stored_hash ph x = Some h ->
     (forall y, ~ In y (Indexer.disk_scan e) -> In y (Dict.keys ph) ->
                Indexer.stored_hash ph y = Some h -> y = x) ->
     In x deleted \/ exists b, In (x, b) moved).
Proof.
  unfold Indexer.scan_and_compare. cbv zeta.
  destruct (IdxFacts.set_of_spec (Indexer.disk_scan e)) as [Nc Ic].
  destruct (IdxFacts.set_of_spec (Dict.keys ph)) as [Ni Ii].
  set (cur := Py.set_of (Indexer.disk_scan e)) in *.
  set (idx := Py.set_of (Dict.keys ph)) in *.
  set (pd := filter (fun p => negb (Py.mem p cur)) idx).
  set (pn := filter (fun p => negb (Py.mem p idx)) cur).
  assert (Hpd : forall x, In x pd <-> ~ In x (Indexer.disk_scan e) /\ In x (Dict.keys ph)).
  { intros x. unfold pd. rewrite filter_In, negb_true_iff, IdxFacts.mem_false, Ic, Ii.
    tauto. }
  destruct (Indexer.detect_moves e pn _) as [[mv nw] dh] eqn:Ed.
  intros Hr. injection Hr as <- <- <- <-.
  rewrite detect_moves_fold in Ed.
  destruct (dm_complete e _ _ _ _ _ _ _ Ed) as [C1 C2].
  split; [|split].
  - intros x Hd Hk Hh.
    assert (Hx : In x (map snd mv ++ nw)).
    { apply C1. right. split; [|exact Hh].
      unfold pn. apply filter_In. split; [apply Ic; exact Hd|].
      apply negb_true_iff, IdxFacts.mem_false. intros H. apply Hk, Ii. exact H. }
    apply in_app_iff in Hx as [Hx|Hx]; [|left; exact Hx].
    apply in_map_iff in Hx as [[a b] [Hb Hab]]. simpl in Hb. subst b.
    right. exists a. exact Hab.
  - intros x h Hd Hk Hh Hs. apply filter_In. split.
    + apply filter_In. split; [apply Ic; exact Hd|].
      apply IdxFacts.mem_true, Ii. exact Hk.
    + rewrite Hh. apply negb_true_iff.
      destruct (Indexer.stored_hash ph x) as [h'|]; [|reflexivity].
      apply String.eqb_neq. intros ->. apply Hs. reflexivity.
  - intros x h Hd Hk Hs Hu.
    assert (Hg : Dict.get h (fold_left (fd_step ph) pd []) = Some x).
    { apply fd_last; [apply Hpd; split; assumption|exact Hs|].
      intros a' Ha' Hs'. apply Hpd in Ha' as [H1 H2]. exact (Hu a' H1 H2 Hs'). }
    apply IdxFacts.get_in, in_values in Hg.
    assert (Hx : In x (map fst mv ++ Dict.values dh)) by (apply C2; exact Hg).
    apply in_app_iff in Hx as [Hx|Hx]; [|left; exact Hx].
    apply in_map_iff in Hx as [[a b] [Ha Hab]]. simpl in Ha. subst a.
    right. exists b. exact Hab.
Qed.

Section Update2.
Import Indexer.

Lemma scan_facts_loaded e f :
  (forall x y, abspath e x = abspath e y -> x = y) ->
  match f with IndexFile r => persisted_inv r | _ => True end ->
  forall new modified deleted moved,
  scan_and_compare e (snd (load_or_initialize_index e f)) =
    (new, modified, deleted, moved) ->
  let d := fst (load_or_initialize_index e f) in
  store_inv d /\
  snd (load_or_initialize_index e f) = combine (paths d) (hashes d) /\
  (forall x, In x (Dict.keys (snd (load_or_initialize_index e f))) <-> In x (paths d)) /\
  NoDup (map snd moved ++ new) /\
  (forall x, In x (map snd moved ++ new) -> ~ In x (paths d)) /\
  NoDup (map fst moved) /\ (forall m, In m moved -> In (fst m) (paths d)) /\
  NoDup modified /\ (forall x, In x modified -> In x (paths d)).
Proof.
  intros Habs Hf new modified deleted moved ES d.
  pose proof (IdxFacts.load_inv e f Habs Hf) as Hinv.
  pose proof (IdxFacts.load_ph e f) as Hph.
  fold d in Hinv, Hph. rewrite (IdxFacts.store_ph d Hinv) in Hph.
  assert (Hk : forall x, In x (Dict.keys (snd (load_or_initialize_index e f)))
                         <-> In x (paths d)).
  { intros x. rewrite Hph. unfold Dict.keys. destruct Hinv as [_ [Lh _]].
    rewrite IdxFacts.map_fst_combine by lia. reflexivity. }
  split; [exact Hinv|]. split; [exact Hph|]. split; [exact Hk|].
  exact (IdxFacts.scan_facts e _ _ Hk _ _ _ _ ES).
Qed.

Lemma stored_hash_in ph p h :
  stored_hash ph p = Some h -> In (p, Some h) ph.
Proof.
  unfold stored_hash. destruct (Dict.get p ph) as [o|] eqn:E; [|discriminate].
  intros ->. apply IdxFacts.get_in. exact E.
Qed.

Lemma relabel_not_source moved p :
  (forall b, ~ In (p, b) moved) -> relabel moved p = p.
Proof.
  intros H. destruct (IdxFacts.relabel_cases moved p) as [E|E]; [|exact E].
  exfalso. exact (H _ E).
Qed.




Lemma update_events_spec e f new modified d x :
  In x (update_events e f new modified d) <->
  (x = EvLoadModel /\ (new ++ modified)%list <> []) \/
  (exists p, x = EvImageFeatures p /\ In p (new ++ modified)) \/
  In x (save_index e f d) \/ x = EvSaveConfig (image_dir e).
Proof.
  unfold update_events. destruct (new ++ modified)%list as [|y L].
  - simpl. rewrite in_app_iff. simpl. split.
    + intros [H|[H|[]]]; [right; right; left; exact H|right; right; right; symmetry; exact H].
    + intros [[_ H]|[[p [_ []]]|[H|H]]]; [congruence|left; exact H|right; left; symmetry; exact H].
  - rewrite !in_app_iff.
    change (In x (EvLoadModel :: map EvImageFeatures (y :: L)))
      with (EvLoadModel = x \/ In x (map EvImageFeatures (y :: L))).
    change (In x [EvSaveConfig (image_dir e)]) with (EvSaveConfig (image_dir e) = x \/ False).
    rewrite in_map_iff. split.
    + intros [[H|[p [Hp Hin]]]|[H|[H|[]]]].
      * left. split; [symmetry; exact H|discriminate].
      * right; left. exists p. split; [symmetry; exact Hp|exact Hin].
      * right; right; left. exact H.
      * right; right; right. symmetry. exact H.
    + intros [[H _]|[[p [Hp Hin]]|[H|H]]].
      * left. left. symmetry. exact H.
      * left. right. exists p. split; [symmetry; exact Hp|exact Hin].
      * right; left. exact H.
      * right; right; left. symmetry. exact H.
Qed.


End Update2.

Lemma run_appends fn ms st c :
  Dict.get fn st = Some c ->
  Dict.get fn (Fs.run st (map (Fs.FsAppend fn) ms)) = Some (c ++ ms)%list.
Proof.
  revert st c. induction ms as [|m ms IH]; intros st c H.
  - rewrite app_nil_r. exact H.
  - unfold Fs.run. simpl. rewrite H. fold (Fs.run (Dict.set fn (c ++ [m])%list st)
                                           (map (Fs.FsAppend fn) ms)).
    rewrite (IH _ (c ++ [m])%list).
    + rewrite <- app_assoc. reflexivity.
    + rewrite get_set_eq, String.eqb_refl. reflexivity.
Qed.

Lemma run_create_appends fn ms st :
  Dict.get fn (Fs.run st (Fs.FsCreate fn :: map (Fs.FsAppend fn) ms)) = Some ms.
Proof.
  unfold Fs.run. simpl. fold (Fs.run (Dict.set fn [] st) (map (Fs.FsAppend fn) ms)).
  rewrite (run_appends fn ms _ []); [reflexivity|]. rewrite get_set_eq, String.eqb_refl. reflexivity.
Qed.

Lemma get_del_same {V} (k : string) (d : Dict.t V) :
  NoDup (Dict.keys d) -> Dict.get k (Dict.del k d) = None.
Proof.
  unfold Dict.keys. induction d as [|[k' v'] d IH]; simpl; intros Hn; [reflexivity|].
  inversion Hn as [|? ? Hk Hn']; subst.
  destruct (String.eqb_spec k k') as [->|Hne].
  - destruct (Dict.get k' d) eqn:E; [|reflexivity].
    exfalso. apply Hk. apply IdxFacts.get_in in E. apply in_map_iff.
    exists (k', v). split; [reflexivity|exact E].
  - simpl. apply String.eqb_neq in Hne. rewrite Hne. exact (IH Hn').
Qed.

Lemma units_encode (l : list Z) :
  Clipboard.units (flat_map (fun u => [u; 0%Z]) l ++ [0%Z; 0%Z]) = l ++ [0%Z].
Proof.
  induction l as [|u l IH]; [reflexivity|].
  simpl. rewrite IH. f_equal. lia.
Qed.

Lemma backslashes_no_slash (s : string) :
  ~ In 47%Z (Clipboard.utf16_units (Clipboard.to_backslashes s)).
Proof.
  unfold Clipboard.utf16_units, Clipboard.to_backslashes.
  rewrite list_ascii_of_string_of_list_ascii, map_map.
  intros H. apply in_map_iff in H as [ch [Hc _]].
  destruct (ch =? "/")%char eqn:E.
  - discriminate Hc.
  - apply (f_equal Z.to_nat) in Hc. rewrite Nat2Z.id in Hc.
    rewrite <- (ascii_nat_embedding ch), Hc in E. discriminate E.
Qed.

Lemma nodup_map_firstn' {A B} (f : A -> B) n l :
  NoDup (map f l) -> NoDup (map f (firstn n l)).
Proof.
  intros H. rewrite <- (firstn_skipn n l), map_app in H.
  exact (NoDup_app_remove_r _ _ H).
Qed.

Lemma nodup_map_skipn {A B} (f : A -> B) n l :
  NoDup (map f l) -> NoDup (map f (skipn n l)).
Proof.
  intros H. rewrite <- (firstn_skipn n l), map_app in H.
  exact (NoDup_app_remove_l _ _ H).
Qed.

Lemma nodup_map_filter {A B} (f : A -> B) (P : A -> bool) l :
  NoDup (map f l) -> NoDup (map f (filter P l)).
Proof.
  induction l as [|x l IH]; simpl; intros H; [constructor|].
  inversion H as [|? ? Hx Hl]; subst.
  destruct (P x); simpl; [|exact (IH Hl)].
  constructor; [|exact (IH Hl)].
  intros Hin. apply Hx. apply in_map_iff in Hin as [y [Hy Hin]].
  apply filter_In in Hin as [Hin _]. rewrite <- Hy. apply in_map. exact Hin.
Qed.

Lemma result_rows_distinct (ps : list string) (l : list (nat * float)) :
  NoDup ps -> NoDup (map fst l) -> (forall r, In r l -> fst r < length ps) ->
  NoDup (map fst (map (fun r => (nth (fst r) ps ""%string, snd r)) l)) /\
  (forall x, In x (map (fun r => (nth (fst r) ps ""%string, snd r)) l) -> In (fst x) ps).
Proof.
  intros Hps Hl Hb. split.
  - rewrite map_map. simpl.
    replace (map (fun x => nth (fst x) ps ""%string) l)
      with (map (fun i => nth i ps ""%string) (map fst l)) by (rewrite map_map; reflexivity).
    apply NoDup_map_NoDup_ForallPairs; [|exact Hl].
    intros i j Hi Hj E.
    apply in_map_iff in Hi as [ri [<- Hi]]. apply in_map_iff in Hj as [rj [<- Hj]].
    apply (proj1 (NoDup_nth ps ""%string) Hps); [apply Hb; exact Hi|apply Hb; exact Hj|exact E].
  - intros x Hx. apply in_map_iff in Hx as [r [<- Hr]]. simpl.
    apply nth_In. apply Hb. exact Hr.
Qed.

Lemma slice_map {A B} (f : A -> B) (l : list A) a b :
  Py.slice (map f l) a b = map f (Py.slice l a b).
Proof.
  unfold Py.slice. rewrite length_map, <- firstn_map, <- skipn_map. reflexivity.
Qed.

Section Update4.
Import Indexer.





End Update4.

(** ** [str.strip] and [str.split] *)

Definition starts_nonspace (l : list ascii) : Prop :=
  match l with [] => True | a :: _ => Py.is_space a = false end.

Lemma drop_spaces_starts l : starts_nonspace (Py.drop_spaces l).
Proof.
  induction l as [|a l IH]; simpl; [exact I|].
  destruct (Py.is_space a) eqn:E; [exact IH|exact E].
Qed.

Lemma drop_spaces_noop l : starts_nonspace l -> Py.drop_spaces l = l.
Proof. destruct l as [|a l]; simpl; [reflexivity|intros E; rewrite E; reflexivity]. Qed.

Lemma drop_spaces_suffix l : exists pre, l = pre ++ Py.drop_spaces l.
Proof.
  induction l as [|a l [pre IH]]; simpl; [exists []; reflexivity|].
  destruct (Py.is_space a); [exists (a :: pre); simpl; f_equal; exact IH|].
  exists []; reflexivity.
Qed.

Lemma strip_list_idem (l : list ascii) :
  let r := rev (Py.drop_spaces (rev (Py.drop_spaces l))) in
  rev (Py.drop_spaces (rev (Py.drop_spaces r))) = r.
Proof.
  intros r.
  set (t := Py.drop_spaces l).
  set (u := Py.drop_spaces (rev t)).
  destruct (drop_spaces_suffix (rev t)) as [pre Hpre]. fold u in Hpre.
  assert (Ht : t = r ++ rev pre).
  { unfold r. fold t u. rewrite <- (rev_involutive t), Hpre, rev_app_distr. reflexivity. }
  assert (Hr : Py.drop_spaces r = r).
  { apply drop_spaces_noop. generalize (drop_spaces_starts l). fold t. rewrite Ht.
    destruct r; simpl; [trivial|exact (fun H => H)]. }
  rewrite Hr. unfold r at 1. fold t u. rewrite rev_involutive.
  rewrite (drop_spaces_noop u (drop_spaces_starts _)). reflexivity.
Qed.

Lemma strip_idem s : Py.strip (Py.strip s) = Py.strip s.
Proof.
  unfold Py.strip. rewrite list_ascii_of_string_of_list_ascii.
  rewrite strip_list_idem. reflexivity.
Qed.

Lemma strip_chars s c :
  In c (list_ascii_of_string (Py.strip s)) -> In c (list_ascii_of_string s).
Proof.
  unfold Py.strip. rewrite list_ascii_of_string_of_list_ascii.
  intros H. apply in_rev in H.
  destruct (drop_spaces_suffix (rev (Py.drop_spaces (list_ascii_of_string s)))) as [p1 E1].
  assert (H1 : In c (rev (Py.drop_spaces (list_ascii_of_string s))))
    by (rewrite E1; apply in_or_app; right; exact H).
  apply in_rev in H1.
  destruct (drop_spaces_suffix (list_ascii_of_string s)) as [p2 E2].
  rewrite E2. apply in_or_app. right. exact H1.
Qed.

Lemma split_chars_no_sep sep l cur f :
  ~ In sep cur -> In f (Py.split_chars sep l cur) ->
  ~ In sep (list_ascii_of_string f).
Proof.
  revert cur. induction l as [|a l IH]; intros cur Hc Hf; simpl in Hf.
  - destruct Hf as [<-|[]]. rewrite list_ascii_of_string_of_list_ascii.
    intros H. apply Hc, in_rev, H.
  - destruct (Ascii.eqb a sep) eqn:E.
    + destruct Hf as [<-|Hf].
      * rewrite list_ascii_of_string_of_list_ascii. intros H. apply Hc, in_rev, H.
      * exact (IH [] (fun H => H) Hf).
    + apply (IH (a :: cur)); [|exact Hf].
      intros [H|H]; [|exact (Hc H)].
      subst a. rewrite Ascii.eqb_refl in E. discriminate E.
Qed.

End XFacts.

(** * Properties *)

Module Props.
Import Searcher Stmt.
Local Open Scope string_scope.

(** C10: with [top_k <= 0] both [search] and [search_by_image] return the
    empty list, raise nothing and make no model call. *)
Theorem nonpositive_top_k_empty (gtf : string -> vec) (s : searcher)
    (query negative_query similar : option string) (image_path : string)
    (top_k offset : Z) :
  (top_k <= 0)%Z ->
  search gtf s query top_k negative_query similar offset = ([], Ok []) /\
  search_by_image gtf s image_path top_k negative_query offset = ([], Ok []).
Proof.
  intros Hk. apply Z.leb_le in Hk.
  unfold search, search_by_image. rewrite Hk. simpl. split; reflexivity.
Qed.

Lemma nonpositive_top_k_empty_witness :
  (0 <= 0)%Z /\
  search text_tower two_images (Some "cat") 0 None None 0 = ([], Ok []) /\
  search_by_image text_tower two_images "/img/a.png" 0 None 0 = ([], Ok []).
Proof.
  split; [lia|]. apply (nonpositive_top_k_empty text_tower two_images
    (Some "cat") None None "/img/a.png" 0 0). lia.
Defined.

Lemma nonblank_truthy (q : option string) :
  Py.nonblank q = true -> Py.truthy q = true.
Proof.
  destruct q as [t|]; simpl; [|discriminate].
  destruct (String.eqb_spec t ""); [subst; vm_compute; discriminate|].
  intros _. reflexivity.
Qed.

(** An image reference that is not in the index contributes no positive
    vector. *)
Lemma positive_vectors_stale (gtf : string -> vec) (s : searcher)
    (query : option string) (p : string) :
  Dict.get p (path_to_idx s) = None ->
  positive_vectors gtf s query (Some p) = positive_vectors gtf s query None.
Proof.
  intros Hp. unfold positive_vectors. rewrite Hp.
  destruct (Py.nonblank (Some p)); reflexivity.
Qed.

(** C3 (counterexample): an empty query, and a blank one, are answered with
    an empty result, not with an error; with a model that cannot be loaded
    the empty query still gets its empty result, and the blank one the
    loader's [RuntimeError]. *)
Lemma empty_query_not_an_error :
  search text_tower two_images None 5 None None 0 = ([], Ok []) /\
  search text_tower two_images (Some "   ") 5 None None 0 =
    ([EvLoadModel], Ok []) /\
  search_with_load text_tower false two_images None 5 None None 0 =
    ([], Ok []) /\
  search_with_load text_tower false two_images (Some "   ") 5 None None 0 =
    ([EvLoadModel], Raise RuntimeError).
Proof. repeat split; vm_compute; reflexivity. Qed.

(** C3 (amended): when no positive vector can be resolved (no non-blank
    text, and no non-blank image reference present in the index), [search]
    raises no validation error: with [top_k <= 0], or with neither a
    truthy [query] nor a truthy [similar_image_path], it returns the empty
    list without loading the model; otherwise it loads the model and
    returns the empty list, or raises the loader's [RuntimeError] when the
    model cannot be loaded. *)
Theorem unresolvable_query_returns_empty (gtf : string -> vec)
    (s : searcher) (query negative_query similar : option string)
    (top_k offset : Z) (load_ok : bool) :
  positive_resolvable s query similar = false ->
  search_with_load gtf load_ok s query top_k negative_query similar offset =
    if (top_k <=? 0)%Z || negb (Py.truthy query || Py.truthy similar)
    then ([], Ok [])
    else if load_ok then ([EvLoadModel], Ok [])
    else ([EvLoadModel], Raise RuntimeError).
Proof.
  unfold positive_resolvable. intros H. apply orb_false_elim in H.
  destruct H as [Hq Hs].
  unfold search_with_load.
  destruct ((top_k <=? 0)%Z || negb (Py.truthy query || Py.truthy similar)) eqn:G;
    [reflexivity|].
  destruct load_ok; [|reflexivity].
  unfold search. rewrite G.
  unfold positive_vectors.
  assert (Htext : match query with
                  | Some q => if Py.nonblank query
                              then ([EvTextFeatures [q]], [gtf q]) else ([], [])
                  | None => ([], [])
                  end = ([], [])).
  { destruct query; [rewrite Hq|]; reflexivity. }
  rewrite Htext.
  assert (Himg : match similar with
                 | Some p =>
                     if Py.nonblank similar then
                       match Dict.get p (path_to_idx s) with
                       | Some i => [nth i (image_features s) []]
                       | None => []
                       end
                     else []
                 | None => []
                 end = []).
  { destruct similar as [p|]; [|reflexivity].
    destruct (Py.nonblank (Some p)); [|reflexivity].
    destruct (Dict.get p (path_to_idx s)); [discriminate|reflexivity]. }
  rewrite Himg. reflexivity.
Qed.

Lemma unresolvable_query_returns_empty_witness :
  positive_resolvable two_images (Some " ") (Some "/img/stale.png") = false /\
  search_with_load text_tower false two_images (Some " ") 3 None
    (Some "/img/stale.png") 0 = ([EvLoadModel], Raise RuntimeError).
Proof.
  split; [vm_compute; reflexivity|].
  rewrite unresolvable_query_returns_empty by (vm_compute; reflexivity).
  vm_compute. reflexivity.
Defined.

(** C8 (counterexample): a text search whose image reference is not in the
    index succeeds; the stale reference is ignored. *)
Lemma stale_reference_ignored_by_search :
  exists r, snd (search text_tower two_images (Some "cat") 1 None
                   (Some "/img/stale.png") 0) = Ok r.
Proof. eexists. vm_compute. reflexivity. Qed.

(** C8 (amended): [search_by_image] on a path missing from the index
    raises [ValueError] before any model call.  [search] ignores a
    [similar_image_path] missing from the index: with a truthy [query] the
    run (model calls, result or error) is the one without the reference;
    with a falsy [query] it loads the model and returns the empty list (or
    raises the loader's [RuntimeError]), where without the reference it
    returns the empty list at once. *)
Theorem stale_reference_handling (gtf : string -> vec) (s : searcher)
    (p : string) (query negative_query : option string) (top_k offset : Z)
    (load_ok : bool) :
  Dict.get p (path_to_idx s) = None -> (0 < top_k)%Z ->
  search_by_image_with_load gtf load_ok s p top_k negative_query offset =
    ([], Raise ValueError) /\
  (Py.truthy query = true ->
   search_with_load gtf load_ok s query top_k negative_query (Some p) offset =
   search_with_load gtf load_ok s query top_k negative_query None offset) /\
  (Py.truthy query = false ->
   search_with_load gtf load_ok s query top_k negative_query None offset =
     ([], Ok []) /\
   search_with_load gtf load_ok s query top_k negative_query (Some p) offset =
     if String.eqb p "" then ([], Ok [])
     else if load_ok then ([EvLoadModel], Ok [])
     else ([EvLoadModel], Raise RuntimeError)).
Proof.
  intros Hp Hk.
  assert (Hk' : (top_k <=? 0)%Z = false) by (apply Z.leb_gt; lia).
  split; [|split].
  - unfold search_by_image_with_load. rewrite Hk', Hp. reflexivity.
  - intros Ht. unfold search_with_load. rewrite Hk', Ht. cbn [orb negb].
    destruct load_ok; [|reflexivity].
    unfold search. rewrite Hk', Ht. cbn [orb negb].
    rewrite positive_vectors_stale by exact Hp. reflexivity.
  - intros Ht. unfold search_with_load. rewrite Hk', Ht. cbn [orb negb].
    split; [reflexivity|].
    assert (Hpv : positive_vectors gtf s query (Some p) = ([], [])).
    { rewrite positive_vectors_stale by exact Hp. unfold positive_vectors.
      destruct query as [q|]; [|reflexivity].
      destruct (Py.nonblank (Some q)) eqn:Hn; [|reflexivity].
      apply nonblank_truthy in Hn. congruence. }
    unfold Py.truthy at 1.
    destruct (String.eqb p "") eqn:Ep; cbn [negb]; [reflexivity|].
    destruct load_ok; [|reflexivity].
    unfold search. rewrite Hk', Ht. unfold Py.truthy at 1. rewrite Ep. cbn [orb negb].
    rewrite Hpv. reflexivity.
Qed.

Lemma stale_reference_handling_witness :
  Dict.get "/img/stale.png" (path_to_idx two_images) = None /\ (0 < 2)%Z /\
  search_by_image_with_load text_tower false two_images "/img/stale.png" 2
    None 0 = ([], Raise ValueError) /\
  search_with_load text_tower false two_images None 2 None
    (Some "/img/stale.png") 0 = ([EvLoadModel], Raise RuntimeError).
Proof.
  assert (Hp : Dict.get "/img/stale.png" (path_to_idx two_images) = None)
    by (vm_compute; reflexivity).
  destruct (stale_reference_handling text_tower two_images "/img/stale.png"
              None None 2 0 false Hp ltac:(lia)) as [H1 [_ H3]].
  split; [exact Hp|]. split; [lia|]. split; [exact H1|].
  rewrite (proj2 (H3 eq_refl)). vm_compute. reflexivity.
Defined.

(** C5 (counterexample): the image part of a mixed query is the raw stored
    row, not the normalized one, and the two choices give different query
    vectors and different scores. *)
Lemma mixed_query_uses_raw_row :
  normalize (mean_rows [text_tower "cat"; nth 0 (image_features two_images) []])
  <> normalize (mean_rows [text_tower "cat";
                           nth 0 (normalized_image_features two_images) []]) /\
  snd (search text_tower two_images (Some "cat") 2 None (Some "/img/a.png") 0)
  <> search_page two_images
       (scores_against two_images
          (normalize (mean_rows [text_tower "cat";
                                 nth 0 (normalized_image_features two_images) []])))
       2 0.
Proof.
  split; intros H.
  - apply (f_equal (fun v => PrimFloat.ltb (hd 0%float v) 0.875%float)) in H.
    vm_compute in H. discriminate.
  - apply (f_equal (fun r => match r with
                             | Ok ((_, x) :: _) => PrimFloat.ltb x 0.875%float
                             | _ => false
                             end)) in H.
    vm_compute in H. discriminate.
Qed.

(** C5 (amended): with a non-blank text and an indexed image reference, the
    only model call is the text embedding; the image contributes its raw
    stored row [image_features[idx]]; the query vector is the mean of the
    text vector and that row, normalized, and it is scored against the
    normalized corpus. *)
Theorem mixed_query_vector (gtf : string -> vec) (s : searcher)
    (q p : string) (i : nat) (negative_query : option string)
    (top_k offset : Z) :
  (0 < top_k)%Z -> Py.nonblank (Some q) = true ->
  Py.nonblank (Some p) = true -> Dict.get p (path_to_idx s) = Some i ->
  let combined := normalize (mean_rows [gtf q; nth i (image_features s) []]) in
  let neg := apply_negative gtf s negative_query (scores_against s combined) in
  search gtf s (Some q) top_k negative_query (Some p) offset =
  (EvLoadModel :: EvTextFeatures [q] :: fst neg,
   search_page s (snd neg) top_k offset).
Proof.
  intros Hk Hq Hp Hi combined neg.
  assert (Hk' : (top_k <=? 0)%Z = false) by (apply Z.leb_gt; lia).
  assert (Ht : Py.truthy (Some q) = true) by (apply nonblank_truthy; exact Hq).
  unfold search. rewrite Hk', Ht. simpl.
  unfold positive_vectors. rewrite Hq, Hp, Hi. simpl.
  subst neg combined.
  destruct (apply_negative gtf s negative_query _). reflexivity.
Qed.

Lemma mixed_query_vector_witness :
  (0 < 2)%Z /\ Py.nonblank (Some "cat") = true /\
  Py.nonblank (Some "/img/a.png") = true /\
  Dict.get "/img/a.png" (path_to_idx two_images) = Some 0 /\
  search text_tower two_images (Some "cat") 2 None (Some "/img/a.png") 0 =
  (EvLoadModel :: EvTextFeatures ["cat"] ::
     fst (apply_negative text_tower two_images None
            (scores_against two_images
               (normalize (mean_rows [text_tower "cat";
                                      nth 0 (image_features two_images) []])))),
   search_page two_images
     (snd (apply_negative text_tower two_images None
             (scores_against two_images
                (normalize (mean_rows [text_tower "cat";
                                       nth 0 (image_features two_images) []])))))
     2 0).
Proof.
  split; [lia|]. split; [vm_compute; reflexivity|].
  split; [vm_compute; reflexivity|]. split; [vm_compute; reflexivity|].
  apply (mixed_query_vector text_tower two_images "cat" "/img/a.png" 0 None 2 0);
    [lia | vm_compute; reflexivity | vm_compute; reflexivity
     | vm_compute; reflexivity].
Defined.

(** Membership in a concrete list. *)
Ltac find_in := repeat (first [left; reflexivity | right]).

Lemma dict_get_set_same {V} (k : string) (v : V) (d : Dict.t V) :
  Dict.get k (Dict.set k v d) = Some v.
Proof.
  induction d as [|[k' v'] d IH]; simpl.
  - rewrite String.eqb_refl. reflexivity.
  - destruct (String.eqb_spec k k') as [->|Hne]; simpl.
    + rewrite String.eqb_refl. reflexivity.
    + apply String.eqb_neq in Hne. rewrite Hne. exact IH.
Qed.

(** C4 (counterexample): saving over an existing index truncates the index
    file first; after that first operation the path holds neither the old
    index nor the new one. *)
Lemma save_not_atomic :
  let ops := Fs.save_ops gif_env (Indexer.IndexFile gif_saved) one_entry in
  exists k, k < length ops /\
    Dict.get "image_features.npz" (Fs.run old_fs (firstn k ops)) <>
      Dict.get "image_features.npz" old_fs /\
    Dict.get "image_features.npz" (Fs.run old_fs (firstn k ops)) <>
      Dict.get "image_features.npz" (Fs.run old_fs ops).
Proof.
  intros ops. exists 1. vm_compute. split; [lia|]. split; discriminate.
Qed.

(** C4 (amended): [_save_index] deletes the index file for an empty store;
    otherwise it writes in place: it creates or truncates the index path
    (with [.npz] appended when missing) and appends the members one by one,
    with no temporary file and no rename, so after its first operation the
    index path holds an empty file whatever it held before. *)
Theorem save_writes_in_place (e : Indexer.env) (f : Indexer.index_file)
    (final_data : Indexer.indexed_data) :
  (Indexer.paths final_data = [] ->
   Fs.save_ops e f final_data =
   if Indexer.index_file_exists f then [Fs.FsRemove (Indexer.index_path e)]
   else []) /\
  (Indexer.paths final_data <> [] ->
   let fn := Fs.npz_name (Indexer.index_path e) in
   exists members,
     Fs.save_ops e f final_data = Fs.FsCreate fn :: map (Fs.FsAppend fn) members /\
     forall st, Dict.get fn (Fs.run st (firstn 1 (Fs.save_ops e f final_data)))
                = Some []).
Proof.
  unfold Fs.save_ops, Indexer.save_index. split.
  - intros ->. destruct (Indexer.index_file_exists f); reflexivity.
  - intros Hne. destruct (Indexer.paths final_data) as [|p ps];
      [congruence|].
    destruct (Indexer.is_in_current_folder e); simpl;
      match goal with
      | |- exists m, ?c :: ?a1 :: ?a2 :: ?a3 :: ?a4 :: ?a5 :: [] = _ /\ _ =>
          exists [Fs.MFeatures (Indexer.features final_data);
                  Fs.MPaths (match a2 with Fs.FsAppend _ m => match m with
                    | Fs.MPaths x => x | _ => [] end | _ => [] end);
                  Fs.MHashes (Indexer.hashes final_data);
                  Fs.MBaseDir (match a4 with Fs.FsAppend _ m => match m with
                    | Fs.MBaseDir x => x | _ => "" end | _ => "" end);
                  Fs.MCentralDirectory]
      end;
      (split; [reflexivity | intros st; apply dict_get_set_same]).
Qed.

Lemma save_writes_in_place_witness :
  Indexer.paths one_entry <> [] /\
  Fs.save_ops gif_env (Indexer.IndexFile gif_saved) one_entry =
    [Fs.FsCreate "image_features.npz";
     Fs.FsAppend "image_features.npz" (Fs.MFeatures [[1%float; 0%float]]);
     Fs.FsAppend "image_features.npz" (Fs.MPaths ["/data/img/a.png"]);
     Fs.FsAppend "image_features.npz" (Fs.MHashes [Some "ha"]);
     Fs.FsAppend "image_features.npz" (Fs.MBaseDir "/data/img");
     Fs.FsAppend "image_features.npz" Fs.MCentralDirectory] /\
  Dict.get "image_features.npz"
    (Fs.run old_fs (firstn 1 (Fs.save_ops gif_env
                                (Indexer.IndexFile gif_saved) one_entry)))
  = Some [].
Proof.
  split; [discriminate|]. split; [vm_compute; reflexivity|].
  destruct (save_writes_in_place gif_env (Indexer.IndexFile gif_saved)
              one_entry) as [_ H].
  destruct (H ltac:(discriminate)) as [members [_ Hrun]].
  apply Hrun.
Defined.

(** C2 (counterexample): on an unchanged disk, the second run after a run
    that skipped a file whose feature extraction failed detects that file
    as new again and rewrites the index. *)
Lemma second_run_not_a_no_op :
  In (Indexer.EvSaveIndex gif_saved) (fst (Indexer.update gif_env Indexer.NoIndexFile)) /\
  match Indexer.update gif_env (Indexer.IndexFile gif_saved) with
  | (ev, Ok o) => Indexer.s_new (Indexer.out_summary o) = 1 /\
                  In (Indexer.EvSaveIndex gif_saved) ev
  | _ => False
  end.
Proof. vm_compute. split; [find_in|]. split; [reflexivity|find_in]. Qed.

(** C2 (amended): a run that detects no new, modified, deleted or moved
    file reports four zeros and the loaded total and performs no effect at
    all (no index write or removal, no config write, no model call); a
    second run on an unchanged disk need not be such a run. *)
Theorem no_change_no_write (e : Indexer.env) (f : Indexer.index_file) :
  (Indexer.scan_and_compare e (snd (Indexer.load_or_initialize_index e f))
     = ([], [], [], []) ->
   Indexer.update e f =
   ([], Ok {| Indexer.out_summary :=
                {| Indexer.s_new := 0; Indexer.s_modified := 0;
                   Indexer.s_deleted := 0; Indexer.s_moved := 0;
                   Indexer.s_total :=
                     length (Indexer.paths
                               (fst (Indexer.load_or_initialize_index e f))) |};
              Indexer.out_store := fst (Indexer.load_or_initialize_index e f) |})) /\
  exists e' r,
    In (Indexer.EvSaveIndex r) (fst (Indexer.update e' Indexer.NoIndexFile)) /\
    match Indexer.update e' (Indexer.IndexFile r) with
    | (ev, Ok o) => Indexer.s_new (Indexer.out_summary o) = 1 /\
                    exists r', In (Indexer.EvSaveIndex r') ev
    | _ => False
    end.
Proof.
  split.
  - unfold Indexer.update.
    destruct (Indexer.load_or_initialize_index e f) as [d ph]. simpl.
    intros ->. reflexivity.
  - exists gif_env, gif_saved. vm_compute.
    split; [find_in|]. split; [reflexivity|].
    eexists. find_in.
Qed.

Lemma no_change_no_write_witness :
  Indexer.update gif_env (Indexer.IndexFile gif_saved) <>
  Indexer.update (ext_env ["/data/img/a.png"] (Indexer.calculate_hash gif_env)
                    (Indexer.image_features_of gif_env))
                 (Indexer.IndexFile gif_saved) /\
  Indexer.update (ext_env ["/data/img/a.png"] (Indexer.calculate_hash gif_env)
                    (Indexer.image_features_of gif_env))
                 (Indexer.IndexFile gif_saved) =
  ([], Ok {| Indexer.out_summary :=
               {| Indexer.s_new := 0; Indexer.s_modified := 0;
                  Indexer.s_deleted := 0; Indexer.s_moved := 0;
                  Indexer.s_total := 1 |};
             Indexer.out_store := one_entry |}).
Proof.
  split.
  - intros H. apply (f_equal (fun x => length (fst x))) in H.
    vm_compute in H. discriminate.
  - destruct (no_change_no_write
                (ext_env ["/data/img/a.png"] (Indexer.calculate_hash gif_env)
                   (Indexer.image_features_of gif_env))
                (Indexer.IndexFile gif_saved)) as [H _].
    apply H. vm_compute. reflexivity.
Defined.

(** C6: a similarity-to-item query for an indexed item never returns that
    item, for every [top_k > 0] and every offset; and for a non-negative
    offset the answer is exactly the ranking of the other rows, sliced
    [[offset, offset + top_k)]: the item takes no result slot. *)
Theorem similar_excludes_self (gtf : string -> vec) (s : searcher)
    (image_path : string) (top_k : Z) (negative_query : option string)
    (offset : Z) :
  NoDup (image_paths s) ->
  length (image_features s) = length (image_paths s) ->
  (0 < top_k)%Z ->
  match snd (search_by_image gtf s image_path top_k negative_query offset) with
  | Ok res =>
      ~ In image_path (map fst res) /\
      ((0 <= offset)%Z ->
       Ok res = ranked_without_self gtf s image_path top_k negative_query offset)
  | Raise _ => True
  end.
Proof.
  intros Hnd Hlen Hk.
  unfold search_by_image.
  replace (top_k <=? 0)%Z with false by (symmetry; apply Z.leb_gt; lia).
  destruct (Dict.get image_path (path_to_idx s)) as [qi|] eqn:Hq;
    [|exact I].
  destruct (Facts.path_to_idx_sound s image_path qi Hq) as [Hqi Hnth].
  pose proof (Facts.length_image_query_scores gtf s qi negative_query) as Hls.
  destruct (image_query_scores gtf s qi negative_query) as [ev final] eqn:Hsc.
  simpl in Hls.
  set (n := length (image_paths s)) in *.
  destruct (Z.min (top_k + offset + 1) (Z.of_nat n) <? 0)%Z eqn:Hneg;
    [exact I|].
  destruct (Nat.eqb n 1); [exact I|].
  simpl. unfold topk.
  set (P := fun r : nat * float => negb (Nat.eqb (fst r) qi)).
  set (f := fun r : nat * float => (nth (fst r) (image_paths s) ""%string, snd r)).
  set (m := Z.to_nat (Z.min (top_k + offset + 1) (Z.of_nat n))).
  split.
  - intros Hin.
    apply in_map_iff in Hin. destruct Hin as [[path sc] [Hpath Hin]].
    simpl in Hpath. apply Facts.in_slice in Hin. apply in_map_iff in Hin.
    destruct Hin as [r [Hfr Hin]]. apply filter_In in Hin.
    destruct Hin as [Hin HP]. apply Facts.in_firstn_in in Hin.
    apply Facts.rank_bound in Hin.
    unfold f in Hfr. inversion Hfr as [[Hp Hsc']].
    unfold P in HP. apply negb_true_iff, Nat.eqb_neq in HP.
    apply HP. apply (proj1 (NoDup_nth (image_paths s) ""%string) Hnd);
      [lia|lia|]. rewrite Hp, Hnth. exact Hpath.
  - intros Ho. unfold ranked_without_self. rewrite Hq, Hsc. simpl.
    fold P f. f_equal.
    rewrite !Facts.slice_nonneg by lia.
    rewrite !skipn_map, !firstn_map. f_equal.
    set (R := rank final).
    assert (HR : length R = n) by (unfold R; rewrite Facts.length_rank; lia).
    replace (Z.to_nat (offset + top_k) - Z.to_nat offset)
      with (Z.to_nat top_k) by lia.
    destruct (Nat.le_gt_cases (Z.to_nat top_k + Z.to_nat offset + 1) n)
      as [Hsmall|Hbig].
    + assert (Hm : m = Z.to_nat top_k + Z.to_nat offset + 1) by (unfold m; lia).
      rewrite Facts.filter_firstn_prefix.
      set (c := length (filter P (firstn m R))).
      assert (Hc : Z.to_nat top_k + Z.to_nat offset <= c).
      { pose proof (filter_length P (firstn m R)) as Hfl.
        pose proof (Facts.at_most_one_index qi (firstn m R)
                      (Facts.nodup_map_firstn fst m R (Facts.rank_nodup final)))
          as Hone.
        assert (Heqf : filter (fun x => negb (P x)) (firstn m R) =
                       filter (fun r => Nat.eqb (fst r) qi) (firstn m R)).
        { apply filter_ext. intros r. unfold P. apply negb_involutive. }
        rewrite Heqf in Hfl. rewrite length_firstn in Hfl. fold c in Hfl. lia. }
      rewrite skipn_firstn_comm, firstn_firstn.
      f_equal. lia.
    + assert (Hm : m = n) by (unfold m; lia).
      rewrite Hm, (firstn_all2 (n:=n) R) by lia. reflexivity.
Qed.

Lemma similar_excludes_self_witness :
  NoDup (image_paths two_images) /\
  length (image_features two_images) = length (image_paths two_images) /\
  (0 < 1)%Z /\
  match snd (search_by_image text_tower two_images "/img/a.png" 1 None 0) with
  | Ok res =>
      ~ In "/img/a.png" (map fst res) /\
      ((0 <= 0)%Z ->
       Ok res = ranked_without_self text_tower two_images "/img/a.png" 1 None 0)
  | Raise _ => True
  end.
Proof.
  split.
  { constructor; [simpl; intros [H|[]]; discriminate|].
    constructor; [intros []|constructor]. }
  split; [reflexivity|]. split; [lia|].
  apply similar_excludes_self.
  - constructor; [simpl; intros [H|[]]; discriminate|].
    constructor; [intros []|constructor].
  - reflexivity.
  - lia.
Defined.

(** C7 (failing input): with a single indexed image, [search] squeezes the
    score tensor to 0-d and raises [IndexError] at [indices[offset:]]
    instead of returning that image. *)
Theorem single_image_search_raises :
  search text_tower one_image (Some "cat") 1 None None 0 =
  ([EvLoadModel; EvTextFeatures ["cat"]], Raise IndexError).
Proof. vm_compute. reflexivity. Qed.



(** C1: a rename with no byte change is detected as a move.  Let [d] be the
    index loaded from [f] (co-indexed, no repeated path) and let its entry
    [i] be ([pathA], [Some h], [v]).  On disk [pathA] is gone, [pathB] (not
    indexed) has the hash [h], every other indexed file is present with its
    stored hash (or with no computable hash) and there is no other file.
    Then [update] reports one move and no modified (nor new, nor deleted)
    file, entry [i] of the resulting store has path [pathB] and still the
    vector [v], and the model is neither loaded nor run on any image. *)
Theorem move_detected_without_reembedding (e : Indexer.env)
    (f : Indexer.index_file) (d : Indexer.indexed_data) (i : nat)
    (pathA pathB h : string) (v : vec) :
  fst (Indexer.load_or_initialize_index e f) = d ->
  store_inv d ->
  nth_error (Indexer.paths d) i = Some pathA ->
  nth_error (Indexer.hashes d) i = Some (Some h) ->
  nth_error (Indexer.features d) i = Some v ->
  ~ In pathB (Indexer.paths d) ->
  (forall p, In p (Indexer.disk_scan e) <->
             (In p (Indexer.paths d) /\ p <> pathA) \/ p = pathB) ->
  Indexer.calculate_hash e pathB = Some h ->
  (forall j p, nth_error (Indexer.paths d) j = Some p -> p <> pathA ->
     Indexer.calculate_hash e p = None \/
     Indexer.calculate_hash e p = nth j (Indexer.hashes d) None) ->
  match Indexer.update e f with
  | (ev, Ok o) =>
      Indexer.s_new (Indexer.out_summary o) = 0 /\
      Indexer.s_modified (Indexer.out_summary o) = 0 /\
      Indexer.s_deleted (Indexer.out_summary o) = 0 /\
      Indexer.s_moved (Indexer.out_summary o) = 1 /\
      nth_error (Indexer.paths (Indexer.out_store o)) i = Some pathB /\
      nth_error (Indexer.features (Indexer.out_store o)) i = Some v /\
      ~ In Indexer.EvLoadModel ev /\
      (forall p, ~ In (Indexer.EvImageFeatures p) ev)
  | (_, Raise _) => False
  end.
Proof.
  intros Hd Hinv HA Hh Hv HB Hscan HhB Hoth.
  pose proof Hinv as [Lf [Lh Nd]].
  pose proof (IdxFacts.load_ph e f) as Hph.
  unfold Indexer.update.
  destruct (Indexer.load_or_initialize_index e f) as [d0 ph]. simpl in Hd, Hph. subst d0.
  rewrite (IdxFacts.store_ph d Hinv) in Hph. subst ph.
  cbv beta iota.
  set (ps := Indexer.paths d) in *. set (hs := Indexer.hashes d) in *.
  assert (HAin : In pathA ps) by (eapply nth_error_In; exact HA).
  assert (HAB : pathA <> pathB) by (intros <-; contradiction).
  assert (Hst : forall j p, nth_error ps j = Some p ->
                 Indexer.stored_hash (combine ps hs) p = nth j hs None).
  { intros j p Hj. unfold Indexer.stored_hash.
    rewrite (IdxFacts.get_combine_nth ps hs j p Nd) by (lia || exact Hj).
    rewrite (nth_error_nth' hs None); [reflexivity|].
    rewrite Lh. apply nth_error_Some. rewrite Hj. discriminate. }
  assert (HhA : Indexer.stored_hash (combine ps hs) pathA = Some h)
    by (rewrite (Hst i pathA HA); apply nth_error_nth; exact Hh).
  assert (ES : Indexer.scan_and_compare e (combine ps hs) =
               ([], [], [], [(pathA, pathB)])).
  { unfold Indexer.scan_and_compare. cbv zeta.
    destruct (IdxFacts.set_of_spec (Indexer.disk_scan e)) as [Nc Ic].
    destruct (IdxFacts.set_of_spec (Dict.keys (combine ps hs))) as [Ni Ii].
    assert (Ik : forall x, In x (Py.set_of (Dict.keys (combine ps hs))) <-> In x ps).
    { intros x. rewrite Ii. unfold Dict.keys.
      rewrite IdxFacts.map_fst_combine by lia. reflexivity. }
    assert (Epn : filter (fun p => negb (Py.mem p (Py.set_of (Dict.keys (combine ps hs)))))
                         (Py.set_of (Indexer.disk_scan e)) = [pathB]).
    { apply IdxFacts.nodup_singleton; [apply NoDup_filter; exact Nc|].
      intros x. rewrite filter_In. cbv beta.
      rewrite negb_true_iff, IdxFacts.mem_false, Ik, Ic, Hscan. split.
      - intros [[[H1 _]|H1] H2]; [contradiction|exact H1].
      - intros ->. split; [right; reflexivity|exact HB]. }
    assert (Epd : filter (fun p => negb (Py.mem p (Py.set_of (Indexer.disk_scan e))))
                         (Py.set_of (Dict.keys (combine ps hs))) = [pathA]).
    { apply IdxFacts.nodup_singleton; [apply NoDup_filter; exact Ni|].
      intros x. rewrite filter_In. cbv beta.
      rewrite negb_true_iff, IdxFacts.mem_false, Ik, Ic, Hscan. split.
      - intros [Hx Hn]. destruct (String.eqb_spec x pathA) as [->|Hne]; [reflexivity|].
        exfalso. apply Hn. left. split; assumption.
      - intros ->. split; [exact HAin|].
        intros [[_ H]|H]; [apply H; reflexivity|exact (HAB H)]. }
    rewrite Epn, Epd.
    rewrite (IdxFacts.filter_all_false _
               (filter (fun p => Py.mem p (Py.set_of (Dict.keys (combine ps hs))))
                       (Py.set_of (Indexer.disk_scan e)))).
    - unfold Indexer.detect_moves. cbn [fold_left].
      rewrite HhA, HhB. cbn. rewrite String.eqb_refl. reflexivity.
    - intros x Hx. apply filter_In in Hx as [Hx Hk].
      apply IdxFacts.mem_true, Ik in Hk. apply Ic, Hscan in Hx.
      assert (HxA : x <> pathA)
        by (destruct Hx as [[_ H]|E]; [exact H|subst x; contradiction]).
      destruct (In_nth_error _ _ Hk) as [j Hj].
      rewrite (Hst j x Hj).
      destruct (Hoth j x Hj HxA) as [E|E]; rewrite E; [reflexivity|].
      destruct (nth j hs None); [simpl; rewrite String.eqb_refl|]; reflexivity. }
  rewrite ES. cbv beta iota.
  assert (EP : Indexer.process_changes e d [] [] [] [(pathA, pathB)] =
               ([], Ok {| Indexer.features := Indexer.features d;
                          Indexer.paths := map (relabel [(pathA, pathB)]) ps;
                          Indexer.hashes := hs |})).
  { unfold Indexer.process_changes. cbv zeta.
    rewrite IdxFacts.apply_moves_map;
      [|exact Nd|constructor; [intros []|constructor]|intros m [<-|[]]; exact HAin].
    rewrite IdxFacts.keep_entries_all;
      [|intros p _; reflexivity|rewrite length_map; exact Lf|rewrite length_map; exact Lh].
    reflexivity. }
  rewrite EP. simpl.
  split; [reflexivity|]. split; [reflexivity|]. split; [reflexivity|].
  split; [reflexivity|]. split.
  - rewrite nth_error_map, HA. simpl. unfold relabel. simpl.
    rewrite String.eqb_refl. reflexivity.
  - split; [exact Hv|]. split.
    + intros H. apply in_app_iff in H as [H|[H|[]]]; [|discriminate].
      destruct (IdxFacts.save_index_events _ _ _ _ H) as [E|[r E]]; discriminate.
    + intros p H. apply in_app_iff in H as [H|[H|[]]]; [|discriminate].
      destruct (IdxFacts.save_index_events _ _ _ _ H) as [E|[r E]]; discriminate.
Qed.

Lemma move_detected_without_reembedding_witness :
  fst (Indexer.load_or_initialize_index rename_env (Indexer.IndexFile rename_saved))
    = rename_data /\
  store_inv rename_data /\
  nth_error (Indexer.paths rename_data) 0 = Some "/data/img/a.png" /\
  nth_error (Indexer.hashes rename_data) 0 = Some (Some "ha") /\
  nth_error (Indexer.features rename_data) 0 = Some [1%float; 0%float] /\
  ~ In "/data/img/b.png" (Indexer.paths rename_data) /\
  (forall p, In p (Indexer.disk_scan rename_env) <->
             (In p (Indexer.paths rename_data) /\ p <> "/data/img/a.png") \/
             p = "/data/img/b.png") /\
  Indexer.calculate_hash rename_env "/data/img/b.png" = Some "ha" /\
  (forall j p, nth_error (Indexer.paths rename_data) j = Some p ->
     p <> "/data/img/a.png" ->
     Indexer.calculate_hash rename_env p = None \/
     Indexer.calculate_hash rename_env p = nth j (Indexer.hashes rename_data) None) /\
  match Indexer.update rename_env (Indexer.IndexFile rename_saved) with
  | (ev, Ok o) =>
      Indexer.s_new (Indexer.out_summary o) = 0 /\
      Indexer.s_modified (Indexer.out_summary o) = 0 /\
      Indexer.s_deleted (Indexer.out_summary o) = 0 /\
      Indexer.s_moved (Indexer.out_summary o) = 1 /\
      nth_error (Indexer.paths (Indexer.out_store o)) 0 = Some "/data/img/b.png" /\
      nth_error (Indexer.features (Indexer.out_store o)) 0 = Some [1%float; 0%float] /\
      ~ In Indexer.EvLoadModel ev /\
      (forall p, ~ In (Indexer.EvImageFeatures p) ev)
  | (_, Raise _) => False
  end.
Proof.
  assert (H1 : fst (Indexer.load_or_initialize_index rename_env
                      (Indexer.IndexFile rename_saved)) = rename_data)
    by reflexivity.
  assert (H2 : store_inv rename_data).
  { split; [reflexivity|split; [reflexivity|]].
    constructor; [simpl; intros [H|[]]; discriminate|].
    constructor; [intros []|constructor]. }
  assert (H6 : ~ In "/data/img/b.png" (Indexer.paths rename_data))
    by (simpl; intros [H|[H|[]]]; discriminate).
  assert (H7 : forall p, In p (Indexer.disk_scan rename_env) <->
             (In p (Indexer.paths rename_data) /\ p <> "/data/img/a.png") \/
             p = "/data/img/b.png").
  { intros p. simpl. split.
    - intros [<-|[<-|[]]].
      + left. split; [right; left; reflexivity|discriminate].
      + right. reflexivity.
    - intros [[[<-|[<-|[]]] Hne] | ->].
      + exfalso. apply Hne. reflexivity.
      + left. reflexivity.
      + right. left. reflexivity. }
  assert (H9 : forall j p, nth_error (Indexer.paths rename_data) j = Some p ->
     p <> "/data/img/a.png" ->
     Indexer.calculate_hash rename_env p = None \/
     Indexer.calculate_hash rename_env p = nth j (Indexer.hashes rename_data) None).
  { intros [|[|j]] p Hj Hne; simpl in Hj.
    - injection Hj as <-. exfalso. apply Hne. reflexivity.
    - injection Hj as <-. right. reflexivity.
    - destruct j; discriminate. }
  split; [exact H1|]. split; [exact H2|]. split; [reflexivity|].
  split; [reflexivity|]. split; [reflexivity|]. split; [exact H6|].
  split; [exact H7|]. split; [reflexivity|]. split; [exact H9|].
  exact (move_detected_without_reembedding rename_env (Indexer.IndexFile rename_saved)
           rename_data 0 "/data/img/a.png" "/data/img/b.png" "ha" [1%float; 0%float]
           H1 H2 eq_refl eq_refl eq_refl H6 H7 eq_refl H9).
Defined.

End Props.

Module Extra.
Import Searcher Stmt.
Local Open Scope string_scope.

(** [ImageSearcher.search] on a corpus of [n >= 2] images of one common
    dimension, with a positive [top_k] and a non-negative [offset], fails
    only when the model cannot be loaded, with the loader's [RuntimeError]
    (and only for a truthy [query] or [similar_image_path]); otherwise it
    returns [min(top_k, n - offset)] results when a positive vector can be
    resolved and none otherwise. *)
Theorem search_result_count (gtf : string -> Vec.vec) (s : searcher)
    (query : option string) (top_k : Z) (negative_query : option string)
    (similar_image_path : option string) (offset : Z) (load_ok : bool)
    (D : nat) :
  (0 < top_k)%Z -> (0 <= offset)%Z -> length (image_paths s) <> 1 ->
  length (image_features s) = length (image_paths s) ->
  XDefs.dims_agree gtf s D ->
  match snd (search_with_load gtf load_ok s query top_k negative_query
               similar_image_path offset) with
  | Ok res =>
      length res =
        (if positive_resolvable s query similar_image_path
         then Nat.min (Z.to_nat top_k)
                (length (image_paths s) - Z.to_nat offset)
         else 0) /\
      (load_ok = true \/
       (Py.truthy query || Py.truthy similar_image_path) = false)
  | Raise err =>
      err = RuntimeError /\ load_ok = false /\
      (Py.truthy query || Py.truthy similar_image_path) = true
  end.
Proof.
  intros Hk Ho H1 Hl _. unfold search_with_load.
  replace (top_k <=? 0)%Z with false by (symmetry; apply Z.leb_gt; lia).
  cbn [orb].
  destruct (Py.truthy query || Py.truthy similar_image_path) eqn:Ht;
    cbn [negb].
  - destruct load_ok; [|split; [reflexivity|split; reflexivity]].
    rewrite (XFacts.search_closed gtf s query top_k negative_query
               similar_image_path offset Hk Ho H1 Hl).
    destruct (positive_resolvable s query similar_image_path);
      (split; [|left; reflexivity]); [|reflexivity].
    rewrite length_map, length_firstn, length_skipn, Facts.length_rank.
    rewrite XFacts.length_apply_negative by apply XFacts.length_scores_against.
    rewrite XFacts.length_scores_against. lia.
  - split; [|right; reflexivity].
    destruct (positive_resolvable s query similar_image_path) eqn:Hr;
      [|reflexivity].
    apply XFacts.resolvable_truthy in Hr. congruence.
Qed.

Lemma search_result_count_witness :
  (0 < 5)%Z /\ (0 <= 1)%Z /\ length (image_paths two_images) <> 1 /\
  length (image_features two_images) = length (image_paths two_images) /\
  XDefs.dims_agree text_tower two_images 2 /\
  match snd (search_with_load text_tower true two_images (Some "cat") 5 None
               None 1) with
  | Ok res =>
      length res =
        (if positive_resolvable two_images (Some "cat") None
         then Nat.min (Z.to_nat 5)
                (length (image_paths two_images) - Z.to_nat 1)
         else 0) /\
      (true = true \/ (Py.truthy (Some "cat") || Py.truthy None) = false)
  | Raise err =>
      err = RuntimeError /\ true = false /\
      (Py.truthy (Some "cat") || Py.truthy None) = true
  end.
Proof.
  assert (Hd : XDefs.dims_agree text_tower two_images 2).
  { split; [intros t; unfold text_tower; destruct (String.eqb t "cat");
            reflexivity|repeat constructor]. }
  split; [lia|]. split; [lia|]. split; [simpl; discriminate|].
  split; [reflexivity|]. split; [exact Hd|].
  apply (search_result_count text_tower two_images (Some "cat") 5 None None 1
           true 2); [lia|lia|simpl; discriminate|reflexivity|exact Hd].
Defined.

(** [ImageSearcher.search_by_image] for an image of a corpus of [n >= 2]
    images of one common dimension, with a positive [top_k] and a
    non-negative [offset], fails only when a non-blank negative query makes
    it load a model that cannot be loaded ([RuntimeError]); otherwise it
    returns [min(top_k, n - 1 - offset)] results: every other image can
    fill a slot. *)
Theorem search_by_image_result_count (gtf : string -> Vec.vec) (s : searcher)
    (image_path : string) (top_k : Z) (negative_query : option string)
    (offset : Z) (load_ok : bool) (D : nat) :
  (0 < top_k)%Z -> (0 <= offset)%Z -> length (image_paths s) <> 1 ->
  length (image_features s) = length (image_paths s) ->
  XDefs.dims_agree gtf s D ->
  In image_path (image_paths s) ->
  match snd (search_by_image_with_load gtf load_ok s image_path top_k
               negative_query offset) with
  | Ok res =>
      length res =
        Nat.min (Z.to_nat top_k) (length (image_paths s) - 1 - Z.to_nat offset) /\
      (load_ok = true \/ Py.nonblank negative_query = false)
  | Raise err =>
      err = RuntimeError /\ load_ok = false /\ Py.nonblank negative_query = true
  end.
Proof.
  intros Hk Ho H1 Hl _ Hin.
  destruct (XFacts.indexed_has_idx s image_path Hin) as [qi Hq].
  destruct (Facts.path_to_idx_sound s image_path qi Hq) as [Hqi _].
  assert (Hc : length (match snd (search_by_image gtf s image_path top_k
                                    negative_query offset) with
                       | Ok res => res | Raise _ => [] end) =
               Nat.min (Z.to_nat top_k)
                 (length (image_paths s) - 1 - Z.to_nat offset) /\
               exists res, snd (search_by_image gtf s image_path top_k
                                  negative_query offset) = Ok res).
  { rewrite (XFacts.search_by_image_closed gtf s image_path top_k
               negative_query offset qi Hk Ho H1 Hl Hq).
    split; [|eexists; reflexivity].
    rewrite length_map, length_firstn, length_skipn.
    rewrite XFacts.length_filter_rank_other;
      rewrite Facts.length_image_query_scores; lia. }
  destruct Hc as [Hc [res Hres]]. rewrite Hres in Hc.
  unfold search_by_image_with_load.
  replace (top_k <=? 0)%Z with false by (symmetry; apply Z.leb_gt; lia).
  rewrite Hq.
  destruct load_ok; cbn [orb].
  - rewrite Hres. split; [exact Hc|left; reflexivity].
  - destruct (Py.nonblank negative_query) eqn:Hb; cbn [negb].
    + split; [reflexivity|split; reflexivity].
    + rewrite Hres. split; [exact Hc|right; reflexivity].
Qed.

Lemma search_by_image_result_count_witness :
  (0 < 5)%Z /\ (0 <= 0)%Z /\ length (image_paths two_images) <> 1 /\
  length (image_features two_images) = length (image_paths two_images) /\
  XDefs.dims_agree text_tower two_images 2 /\
  In "/img/a.png" (image_paths two_images) /\
  match snd (search_by_image_with_load text_tower false two_images
               "/img/a.png" 5 None 0) with
  | Ok res =>
      length res =
        Nat.min (Z.to_nat 5) (length (image_paths two_images) - 1 - Z.to_nat 0) /\
      (false = true \/ Py.nonblank None = false)
  | Raise err =>
      err = RuntimeError /\ false = false /\ Py.nonblank None = true
  end.
Proof.
  assert (Hin : In "/img/a.png" (image_paths two_images)) by (left; reflexivity).
  assert (Hd : XDefs.dims_agree text_tower two_images 2).
  { split; [intros t; unfold text_tower; destruct (String.eqb t "cat");
            reflexivity|repeat constructor]. }
  split; [lia|]. split; [lia|]. split; [simpl; discriminate|].
  split; [reflexivity|]. split; [exact Hd|]. split; [exact Hin|].
  apply (search_by_image_result_count text_tower two_images "/img/a.png" 5
           None 0 false 2); [lia|lia|simpl; discriminate|reflexivity|exact Hd|exact Hin].
Defined.



(** Paging through [search] loses and repeats nothing when the scores
    have no ties (no two equal, none NaN, so that [torch.topk] has a single
    answer for every [k]), the vectors one common dimension and the model
    loads: the page at [offset] of size [k1] followed by the page at
    [offset + k1] of size [k2] is the page at [offset] of size [k1 + k2]. *)
Theorem search_pages_compose (gtf : string -> Vec.vec) (s : searcher)
    (query : option string) (negative_query : option string)
    (similar_image_path : option string) (k1 k2 offset : Z) (D : nat) :
  (0 < k1)%Z -> (0 < k2)%Z -> (0 <= offset)%Z ->
  length (image_paths s) <> 1 ->
  length (image_features s) = length (image_paths s) ->
  XDefs.dims_agree gtf s D ->
  XDefs.strictly_ordered
    (XDefs.search_scores gtf s query negative_query similar_image_path) = true ->
  match snd (search gtf s query k1 negative_query similar_image_path offset),
        snd (search gtf s query k2 negative_query similar_image_path
                    (offset + k1)),
        snd (search gtf s query (k1 + k2) negative_query similar_image_path
                    offset) with
  | Ok r1, Ok r2, Ok r => (r1 ++ r2)%list = r
  | _, _, _ => False
  end.
Proof.
  intros H1 H2 Ho Hn Hl _ _.
  rewrite !XFacts.search_closed by lia.
  destruct (positive_resolvable s query similar_image_path); [|reflexivity].
  rewrite <- map_app. f_equal.
  replace (Z.to_nat (k1 + k2)) with (Z.to_nat k1 + Z.to_nat k2) by lia.
  replace (Z.to_nat (offset + k1)) with (Z.to_nat k1 + Z.to_nat offset) by lia.
  rewrite <- skipn_skipn. symmetry. apply XFacts.firstn_add_split.
Qed.

Lemma search_pages_compose_witness :
  (0 < 1)%Z /\ (0 < 1)%Z /\ (0 <= 0)%Z /\
  length (image_paths two_images) <> 1 /\
  length (image_features two_images) = length (image_paths two_images) /\
  XDefs.dims_agree text_tower two_images 2 /\
  XDefs.strictly_ordered
    (XDefs.search_scores text_tower two_images (Some "cat") None None) = true /\
  match snd (search text_tower two_images (Some "cat") 1 None None 0),
        snd (search text_tower two_images (Some "cat") 1 None None (0 + 1)),
        snd (search text_tower two_images (Some "cat") (1 + 1) None None 0) with
  | Ok r1, Ok r2, Ok r => (r1 ++ r2)%list = r
  | _, _, _ => False
  end.
Proof.
  split; [lia|]. split; [lia|]. split; [lia|]. split; [simpl; discriminate|].
  split; [reflexivity|].
  assert (Hd : XDefs.dims_agree text_tower two_images 2).
  { split; [intros t; unfold text_tower; destruct (String.eqb t "cat");
            reflexivity|repeat constructor]. }
  assert (Hs : XDefs.strictly_ordered
    (XDefs.search_scores text_tower two_images (Some "cat") None None) = true)
    by (vm_compute; reflexivity).
  split; [exact Hd|]. split; [exact Hs|].
  apply (search_pages_compose text_tower two_images (Some "cat") None None
           1 1 0 2); [lia|lia|lia|simpl; discriminate|reflexivity|exact Hd|exact Hs].
Defined.

(** The same for [search_by_image] on an indexed image, with no ties in
    its scores, one common dimension, and a model that loads. *)
Theorem search_by_image_pages_compose (gtf : string -> Vec.vec) (s : searcher)
    (image_path : string) (negative_query : option string) (k1 k2 offset : Z)
    (D : nat) :
  (0 < k1)%Z -> (0 < k2)%Z -> (0 <= offset)%Z ->
  length (image_paths s) <> 1 ->
  length (image_features s) = length (image_paths s) ->
  XDefs.dims_agree gtf s D ->
  XDefs.strictly_ordered
    (XDefs.search_by_image_scores gtf s image_path negative_query) = true ->
  In image_path (image_paths s) ->
  match snd (search_by_image gtf s image_path k1 negative_query offset),
        snd (search_by_image gtf s image_path k2 negative_query (offset + k1)),
        snd (search_by_image gtf s image_path (k1 + k2) negative_query offset) with
  | Ok r1, Ok r2, Ok r => (r1 ++ r2)%list = r
  | _, _, _ => False
  end.
Proof.
  intros H1 H2 Ho Hn Hl _ _ Hin.
  destruct (XFacts.indexed_has_idx s image_path Hin) as [qi Hq].
  rewrite !(XFacts.search_by_image_closed gtf s image_path _ negative_query _ qi)
    by (lia || exact Hq || exact Hn || exact Hl).
  rewrite <- map_app. f_equal.
  replace (Z.to_nat (k1 + k2)) with (Z.to_nat k1 + Z.to_nat k2) by lia.
  replace (Z.to_nat (offset + k1)) with (Z.to_nat k1 + Z.to_nat offset) by lia.
  rewrite <- skipn_skipn. symmetry. apply XFacts.firstn_add_split.
Qed.

Lemma search_by_image_pages_compose_witness :
  (0 < 1)%Z /\ (0 < 1)%Z /\ (0 <= 0)%Z /\
  length (image_paths two_images) <> 1 /\
  length (image_features two_images) = length (image_paths two_images) /\
  XDefs.dims_agree text_tower two_images 2 /\
  XDefs.strictly_ordered
    (XDefs.search_by_image_scores text_tower two_images "/img/a.png" None) = true /\
  In "/img/a.png" (image_paths two_images) /\
  match snd (search_by_image text_tower two_images "/img/a.png" 1 None 0),
        snd (search_by_image text_tower two_images "/img/a.png" 1 None (0 + 1)),
        snd (search_by_image text_tower two_images "/img/a.png" (1 + 1) None 0) with
  | Ok r1, Ok r2, Ok r => (r1 ++ r2)%list = r
  | _, _, _ => False
  end.
Proof.
  assert (Hin : In "/img/a.png" (image_paths two_images)) by (left; reflexivity).
  split; [lia|]. split; [lia|]. split; [lia|]. split; [simpl; discriminate|].
  assert (Hd : XDefs.dims_agree text_tower two_images 2).
  { split; [intros t; unfold text_tower; destruct (String.eqb t "cat");
            reflexivity|repeat constructor]. }
  assert (Hs : XDefs.strictly_ordered
    (XDefs.search_by_image_scores text_tower two_images "/img/a.png" None) = true)
    by (vm_compute; reflexivity).
  split; [reflexivity|]. split; [exact Hd|]. split; [exact Hs|].
  split; [exact Hin|].
  apply (search_by_image_pages_compose text_tower two_images "/img/a.png" None
           1 1 0 2); [lia|lia|lia|simpl; discriminate|reflexivity|exact Hd|
                      exact Hs|exact Hin].
Defined.



(** [search_by_image] with a positive [top_k] raises [ValueError] exactly
    for an image that is not in the index, and then calls no model. *)
Theorem search_by_image_unindexed (gtf : string -> Vec.vec) (s : searcher)
    (image_path : string) (top_k : Z) (negative_query : option string)
    (offset : Z) :
  (0 < top_k)%Z ->
  (snd (search_by_image gtf s image_path top_k negative_query offset)
     = Raise ValueError <-> ~ In image_path (image_paths s)) /\
  (~ In image_path (image_paths s) ->
   fst (search_by_image gtf s image_path top_k negative_query offset) = []).
Proof.
  intros Hk. unfold search_by_image.
  replace (top_k <=? 0)%Z with false by (symmetry; apply Z.leb_gt; lia).
  destruct (Dict.get image_path (path_to_idx s)) as [qi|] eqn:Hq.
  - assert (Hin : In image_path (image_paths s)).
    { destruct (Facts.path_to_idx_sound s image_path qi Hq) as [Hb Hn].
      rewrite <- Hn. apply nth_In. exact Hb. }
    split; [|intros H; contradiction].
    split; [|intros H; contradiction].
    destruct (image_query_scores gtf s qi negative_query) as [ev sc].
    destruct (Z.min _ _ <? 0)%Z; [discriminate|].
    destruct (Nat.eqb _ 1); discriminate.
  - unfold path_to_idx in Hq. apply XFacts.get_index_dict_none in Hq.
    split; [split; [intros _; exact Hq|reflexivity]|reflexivity].
Qed.

Lemma search_by_image_unindexed_witness :
  (0 < 3)%Z /\
  (snd (search_by_image text_tower two_images "/img/z.png" 3 None 0)
     = Raise ValueError <-> ~ In "/img/z.png" (image_paths two_images)) /\
  (~ In "/img/z.png" (image_paths two_images) ->
   fst (search_by_image text_tower two_images "/img/z.png" 3 None 0) = []).
Proof.
  split; [lia|]. apply search_by_image_unindexed. lia.
Defined.

(** [self.path_to_idx] maps each indexed path to its last position in
    [image_paths] (a repeated path resolves to its last row) and has no
    entry for any other path. *)
Theorem path_to_idx_last_position (s : searcher) (p : string) :
  (forall i, Dict.get p (path_to_idx s) = Some i <->
     i < length (image_paths s) /\ nth i (image_paths s) ""%string = p /\
     (forall j, i < j < length (image_paths s) ->
                nth j (image_paths s) ""%string <> p)) /\
  (Dict.get p (path_to_idx s) = None <-> ~ In p (image_paths s)).
Proof.
  unfold path_to_idx. split.
  - intros i. apply XFacts.get_index_dict.
  - apply XFacts.get_index_dict_none.
Qed.





(** [ImageIndexer._scan_and_compare] classifies soundly: a new file is on
    disk, not indexed and hashable; a modified file is on disk and indexed
    with a hash other than its stored one; a deleted path is indexed, gone
    from disk and has a stored hash; a move [(old, new)] goes from such a
    vanished path to a new file whose hash is the stored hash of [old]. *)
Theorem scan_and_compare_sound (e : Indexer.env) (ph : Dict.t (option string))
    new modified deleted moved :
  Indexer.scan_and_compare e ph = (new, modified, deleted, moved) ->
  (forall x, In x new ->
     In x (Indexer.disk_scan e) /\ ~ In x (Dict.keys ph) /\
     Indexer.calculate_hash e x <> None) /\
  (forall x, In x modified ->
     In x (Indexer.disk_scan e) /\ In x (Dict.keys ph) /\
     exists h, Indexer.calculate_hash e x = Some h /\
               Indexer.stored_hash ph x <> Some h) /\
  (forall x, In x deleted ->
     ~ In x (Indexer.disk_scan e) /\ In x (Dict.keys ph) /\
     Indexer.stored_hash ph x <> None) /\
  (forall a b, In (a, b) moved ->
     ~ In a (Indexer.disk_scan e) /\ In a (Dict.keys ph) /\
     In b (Indexer.disk_scan e) /\ ~ In b (Dict.keys ph) /\
     Indexer.stored_hash ph a <> None /\
     Indexer.calculate_hash e b = Indexer.stored_hash ph a).
Proof. exact (XFacts.scan_sound e ph new modified deleted moved). Qed.

(** [_scan_and_compare] misses no change: a hashable file on disk that is
    not indexed is new or the target of a move; an indexed file on disk
    whose hash differs from its stored one is modified; an indexed path
    gone from disk with a stored hash that no other vanished path shares
    is deleted or the source of a move. *)
Theorem scan_and_compare_complete (e : Indexer.env) (ph : Dict.t (option string))
    new modified deleted moved :
  Indexer.scan_and_compare e ph = (new, modified, deleted, moved) ->
  (forall x, In x (Indexer.disk_scan e) -> ~ In x (Dict.keys ph) ->
     Indexer.calculate_hash e x <> None ->
     In x new \/ exists a, In (a, x) moved) /\
  (forall x h, In x (Indexer.disk_scan e) -> In x (Dict.keys ph) ->
     Indexer.calculate_hash e x = Some h -> Indexer.stored_hash ph x <> Some h ->
     In x modified) /\
  (forall x h, ~ In x (Indexer.disk_scan e) -> In x (Dict.keys ph) ->
     Indexer.stored_hash ph x = Some h ->
     (forall y, ~ In y (Indexer.disk_scan e) -> In y (Dict.keys ph) ->
                Indexer.stored_hash ph y = Some h -> y = x) ->
     In x deleted \/ exists b, In (x, b) moved).
Proof. exact (XFacts.scan_complete e ph new modified deleted moved). Qed.

(** When several indexed files with the same content vanish, one run of
    [_scan_and_compare] deletes or relabels at most one of them: no two of
    the deleted paths and move sources share a stored hash
    ([deleted_hash_to_path] keeps one path per hash). *)
Theorem vanished_same_content_one_per_run (e : Indexer.env)
    (ph : Dict.t (option string)) new modified deleted moved :
  Indexer.scan_and_compare e ph = (new, modified, deleted, moved) ->
  NoDup (map (Indexer.stored_hash ph) (deleted ++ map fst moved)).
Proof.
  unfold Indexer.scan_and_compare. cbv zeta.
  destruct (IdxFacts.set_of_spec (Indexer.disk_scan e)) as [Nc Ic].
  destruct (IdxFacts.set_of_spec (Dict.keys ph)) as [Ni Ii].
  set (cur := Py.set_of (Indexer.disk_scan e)) in *.
  set (idx := Py.set_of (Dict.keys ph)) in *.
  set (pd := filter (fun p => negb (Py.mem p cur)) idx).
  set (pn := filter (fun p => negb (Py.mem p idx)) cur).
  destruct (IdxFacts.deleted_dict_values ph pd [])
    as [Dn _]; [apply NoDup_filter; exact Ni|constructor|intros x []|].
  pose proof (XFacts.fd_keys_nodup ph pd [] (NoDup_nil _)) as Kn.
  destruct (Indexer.detect_moves e pn _) as [[mv nw] dh] eqn:Ed.
  intros Hr. injection Hr as <- <- <- <-.
  destruct (IdxFacts.detect_moves_inv e _ _ (NoDup_filter _ Nc) Dn mv nw dh Ed)
    as [_ [_ [H3 _]]].
  rewrite XFacts.detect_moves_fold in Ed.
  destruct (XFacts.dm_sound e _ _ _ _ _ _ _ Ed) as [_ [S2 S3]].
  assert (Horig : forall x, In x (Dict.values dh ++ map fst mv) ->
            exists h, In (h, x) (fold_left (XDefs.fd_step ph) pd []) /\
                      Indexer.stored_hash ph x = Some h).
  { intros x Hx. apply in_app_iff in Hx as [Hx|Hx].
    - destruct (XFacts.values_in dh x Hx) as [h Hh]. apply S3 in Hh.
      exists h. split; [exact Hh|].
      destruct (XFacts.fd_pairs ph pd [] h x Hh) as [[_ Hs]|[]]. exact Hs.
    - apply in_map_iff in Hx as [[a b] [Ha Hab]]. simpl in Ha. subst a.
      destruct (S2 x b Hab) as [[]|[_ [h [_ Hh]]]].
      exists h. split; [exact Hh|].
      destruct (XFacts.fd_pairs ph pd [] h x Hh) as [[_ Hs]|[]]. exact Hs. }
  apply NoDup_map_NoDup_ForallPairs.
  - intros x y Hx Hy E.
    destruct (Horig x Hx) as [hx [Hx1 Hx2]]. destruct (Horig y Hy) as [hy [Hy1 Hy2]].
    rewrite Hx2, Hy2 in E. injection E as <-.
    exact (XFacts.nodup_keys_unique _ hx x y Kn Hx1 Hy1).
  - apply (Permutation_NoDup (Permutation_app_comm _ _)). exact H3.
Qed.

Lemma scan_and_compare_sound_witness :
  Indexer.scan_and_compare rename_env
    [("/data/img/a.png", Some "ha"); ("/data/img/c.png", Some "hc")] =
    ([], [], [], [("/data/img/a.png", "/data/img/b.png")]) /\
  Indexer.calculate_hash rename_env "/data/img/b.png" =
    Indexer.stored_hash
      [("/data/img/a.png", Some "ha"); ("/data/img/c.png", Some "hc")]
      "/data/img/a.png".
Proof.
  assert (E : Indexer.scan_and_compare rename_env
    [("/data/img/a.png", Some "ha"); ("/data/img/c.png", Some "hc")] =
    ([], [], [], [("/data/img/a.png", "/data/img/b.png")]))
    by (vm_compute; reflexivity).
  split; [exact E|].
  destruct (scan_and_compare_sound _ _ _ _ _ _ E) as [_ [_ [_ Hm]]].
  apply (Hm "/data/img/a.png" "/data/img/b.png"). left. reflexivity.
Defined.

Lemma scan_and_compare_complete_witness :
  Indexer.scan_and_compare rename_env
    [("/data/img/a.png", Some "ha"); ("/data/img/c.png", Some "hc")] =
    ([], [], [], [("/data/img/a.png", "/data/img/b.png")]) /\
  (In "/data/img/a.png" [] \/
   exists b, In ("/data/img/a.png", b) [("/data/img/a.png", "/data/img/b.png")]).
Proof.
  assert (E : Indexer.scan_and_compare rename_env
    [("/data/img/a.png", Some "ha"); ("/data/img/c.png", Some "hc")] =
    ([], [], [], [("/data/img/a.png", "/data/img/b.png")]))
    by (vm_compute; reflexivity).
  split; [exact E|].
  destruct (scan_and_compare_complete _ _ _ _ _ _ E) as [_ [_ H3]].
  apply (H3 "/data/img/a.png" "ha").
  - vm_compute. intros [H|[H|[]]]; discriminate H.
  - vm_compute. left. reflexivity.
  - vm_compute. reflexivity.
  - intros y Hy Hk Hh. vm_compute in Hk.
    destruct Hk as [<-|[<-|[]]]; [reflexivity|discriminate Hh].
Defined.

Lemma vanished_same_content_one_per_run_witness :
  Indexer.scan_and_compare (ext_env [] (fun _ => None) (fun _ => None))
    [("/x/a.png", Some "h"); ("/x/b.png", Some "h"); ("/x/c.png", None)] =
    ([], [], ["/x/b.png"], []) /\
  NoDup (map (Indexer.stored_hash
                [("/x/a.png", Some "h"); ("/x/b.png", Some "h"); ("/x/c.png", None)])
             (["/x/b.png"] ++ map fst (@nil (string * string)))).
Proof.
  assert (E : Indexer.scan_and_compare (ext_env [] (fun _ => None) (fun _ => None))
    [("/x/a.png", Some "h"); ("/x/b.png", Some "h"); ("/x/c.png", None)] =
    ([], [], ["/x/b.png"], [])) by (vm_compute; reflexivity).
  split; [exact E|]. exact (vanished_same_content_one_per_run _ _ _ _ _ _ E).
Defined.

(** [search] and [search_by_image] never return an image twice, and every
    result is an indexed image (given distinct indexed paths, one feature
    row per path). *)
Theorem results_distinct_indexed (gtf : string -> Vec.vec) (s : searcher) :
  NoDup (image_paths s) -> length (image_features s) = length (image_paths s) ->
  (forall q k nq sim o,
     match snd (search gtf s q k nq sim o) with
     | Ok rs => NoDup (map fst rs) /\ forall r, In r rs -> In (fst r) (image_paths s)
     | Raise _ => True
     end) /\
  (forall p k nq o,
     match snd (search_by_image gtf s p k nq o) with
     | Ok rs => NoDup (map fst rs) /\ forall r, In r rs -> In (fst r) (image_paths s)
     | Raise _ => True
     end).
Proof.
  intros Hnd Hlen. split.
  - intros q k nq sim o. unfold search.
    destruct ((k <=? 0)%Z || negb (Py.truthy q || Py.truthy sim))%bool.
    { simpl. split; [constructor|intros r []]. }
    destruct (positive_vectors gtf s q sim) as [ev1 pvs].
    destruct pvs as [|v pvs]; [simpl; split; [constructor|intros r []]|].
    destruct (apply_negative gtf s nq _) as [ev2 fs] eqn:EA.
    assert (Hfs : length fs = length (image_paths s)).
    { replace fs with (snd (apply_negative gtf s nq
        (scores_against s (Vec.normalize (Vec.mean_rows (v :: pvs)))))) by (rewrite EA; reflexivity).
      rewrite XFacts.length_apply_negative; rewrite XFacts.length_scores_against; [exact Hlen|reflexivity]. }
    simpl. unfold search_page.
    destruct (_ <=? o)%Z; [split; [constructor|intros r []]|].
    destruct (_ <? 0)%Z; [exact I|].
    destruct (Nat.eqb _ 1); [exact I|].
    apply XFacts.result_rows_distinct; [exact Hnd| |].
    + unfold Py.slice_from, topk.
      apply XFacts.nodup_map_skipn, XFacts.nodup_map_firstn'. apply Facts.rank_nodup.
    + intros r Hr. unfold Py.slice_from, topk in Hr.
      apply Facts.in_skipn_in, Facts.in_firstn_in, Facts.rank_bound in Hr. lia.
  - intros p k nq o. unfold search_by_image.
    destruct (k <=? 0)%Z; [simpl; split; [constructor|intros r []]|].
    destruct (Dict.get p (path_to_idx s)) as [qi|]; [|exact I].
    pose proof (Facts.length_image_query_scores gtf s qi nq) as Hls.
    destruct (image_query_scores gtf s qi nq) as [ev sc]. simpl in Hls.
    destruct (_ <? 0)%Z; [exact I|].
    destruct (Nat.eqb _ 1); [exact I|].
    simpl. rewrite XFacts.slice_map.
    apply XFacts.result_rows_distinct; [exact Hnd| |].
    + unfold Py.slice.
      apply XFacts.nodup_map_firstn', XFacts.nodup_map_skipn, XFacts.nodup_map_filter.
      unfold topk. apply XFacts.nodup_map_firstn'. apply Facts.rank_nodup.
    + intros r Hr. unfold Py.slice in Hr.
      apply Facts.in_firstn_in, Facts.in_skipn_in in Hr.
      apply filter_In in Hr as [Hr _]. unfold topk in Hr.
      apply Facts.in_firstn_in, Facts.rank_bound in Hr. lia.
Qed.

Lemma results_distinct_indexed_witness :
  NoDup (image_paths two_images) /\
  length (image_features two_images) = length (image_paths two_images) /\
  match snd (search text_tower two_images (Some "cat") 2 None None 0) with
  | Ok rs => NoDup (map fst rs) /\ forall r, In r rs -> In (fst r) (image_paths two_images)
  | Raise _ => True
  end.
Proof.
  assert (Hn : NoDup (image_paths two_images)).
  { vm_compute. constructor; [intros [H|[]]; discriminate H|constructor; [intros []|constructor]]. }
  assert (Hl : length (image_features two_images) = length (image_paths two_images))
    by reflexivity.
  split; [exact Hn|]. split; [exact Hl|].
  exact (proj1 (results_distinct_indexed text_tower two_images Hn Hl)
           (Some "cat") 2%Z None None 0%Z).
Defined.

(** Each keyword of a negative query is non-empty, has no surrounding
    whitespace left to strip and contains no comma. *)
Theorem negative_keywords_clean nq kw :
  In kw (negative_keywords nq) ->
  kw <> "" /\ Py.strip kw = kw /\ ~ In ","%char (list_ascii_of_string kw).
Proof.
  unfold negative_keywords. intros H.
  apply filter_In in H as [H Hne].
  apply in_map_iff in H as [f [<- Hf]].
  split; [|split].
  - intros E. rewrite E in Hne. discriminate Hne.
  - apply XFacts.strip_idem.
  - intros Hc. apply XFacts.strip_chars in Hc.
    exact (XFacts.split_chars_no_sep ","%char _ [] f (fun H => H) Hf Hc).
Qed.

Lemma negative_keywords_clean_witness :
  In "cat" (negative_keywords " dog, cat ,,") /\
  ("cat" <> "" /\ Py.strip "cat" = "cat" /\ ~ In ","%char (list_ascii_of_string "cat")).
Proof.
  assert (H : In "cat" (negative_keywords " dog, cat ,,"))
    by (vm_compute; right; left; reflexivity).
  exact (conj H (negative_keywords_clean _ _ H)).
Defined.

Section UpdateX.
Import Indexer.

(** What [update] does besides rebuilding the index, in a run where the
    model loads: [load] is called exactly when there are new or modified
    files; features are extracted for exactly the new and modified files;
    [_save_image_dir_to_config] is called exactly when something changed;
    and a run that finds no change has no effect at all (no model call, no
    index written or removed, no configuration written). *)
Theorem update_effects e f new modified deleted moved :
  (forall x y, abspath e x = abspath e y -> x = y) ->
  match f with IndexFile r => persisted_inv r | _ => True end ->
  scan_and_compare e (snd (load_or_initialize_index e f)) =
    (new, modified, deleted, moved) ->
  match update e f with
  | (ev, Ok _) =>
      (In EvLoadModel ev <-> (new ++ modified)%list <> []) /\
      (forall p, In (EvImageFeatures p) ev <-> In p (new ++ modified)) /\
      (forall dir, In (EvSaveConfig dir) ev <->
         dir = image_dir e /\
         ((new ++ modified ++ deleted)%list <> [] \/ moved <> [])) /\
      ((new ++ modified ++ deleted)%list = [] -> moved = [] -> ev = [])
  | _ => False
  end.
Proof.
  intros Habs Hf ES.
  destruct (XFacts.update_shape e f Habs Hf _ _ _ _ ES) as [o [Hm _]].
  assert (Hs : forall x d, In x (save_index e f d) ->
                 x <> EvLoadModel /\ (forall p, x <> EvImageFeatures p) /\
                 (forall dir, x <> EvSaveConfig dir)).
  { intros x d H. destruct (IdxFacts.save_index_events e f d x H) as [->|[r ->]];
      repeat split; intros; discriminate. }
  destruct (new ++ modified ++ deleted)%list as [|x l] eqn:E;
    [destruct moved as [|mv moved]|];
    destruct Hm as [Hu _]; rewrite Hu.
  - apply app_eq_nil in E as [-> E]. apply app_eq_nil in E as [-> ->]. simpl.
    split; [split; [intros []|intros H; exfalso; apply H; reflexivity]|].
    split; [intros p; split; intros []|].
    split; [|intros _ _; reflexivity].
    intros dir. split; [intros []|intros [_ [H|H]]; exfalso; apply H; reflexivity].
  - split; [|split; [|split]];
      [| | |intros H1 H2; first [discriminate H1|discriminate H2]].
    + rewrite XFacts.update_events_spec. split.
      * intros [[_ H]|[[p [H _]]|[H|H]]]; [exact H|discriminate|
          exact (False_ind _ (proj1 (Hs _ _ H) eq_refl))|discriminate].
      * intros H. left. split; [reflexivity|exact H].
    + intros p. rewrite XFacts.update_events_spec. split.
      * intros [[H _]|[[q [H Hq]]|[H|H]]]; [discriminate|injection H as ->; exact Hq|
          exact (False_ind _ (proj1 (proj2 (Hs _ _ H)) p eq_refl))|discriminate].
      * intros H. right; left. exists p. split; [reflexivity|exact H].
    + intros dir. rewrite XFacts.update_events_spec. split.
      * intros [[H _]|[[q [H _]]|[H|H]]]; [discriminate|discriminate|
          exact (False_ind _ (proj2 (proj2 (Hs _ _ H)) dir eq_refl))|].
        injection H as ->. split; [reflexivity|first [right; discriminate|left; discriminate]].
      * intros [-> _]. right; right; right. reflexivity.
  - split; [|split; [|split]];
      [| | |intros H1 H2; first [discriminate H1|discriminate H2]].
    + rewrite XFacts.update_events_spec. split.
      * intros [[_ H]|[[p [H _]]|[H|H]]]; [exact H|discriminate|
          exact (False_ind _ (proj1 (Hs _ _ H) eq_refl))|discriminate].
      * intros H. left. split; [reflexivity|exact H].
    + intros p. rewrite XFacts.update_events_spec. split.
      * intros [[H _]|[[q [H Hq]]|[H|H]]]; [discriminate|injection H as ->; exact Hq|
          exact (False_ind _ (proj1 (proj2 (Hs _ _ H)) p eq_refl))|discriminate].
      * intros H. right; left. exists p. split; [reflexivity|exact H].
    + intros dir. rewrite XFacts.update_events_spec. split.
      * intros [[H _]|[[q [H _]]|[H|H]]]; [discriminate|discriminate|
          exact (False_ind _ (proj2 (proj2 (Hs _ _ H)) dir eq_refl))|].
        injection H as ->. split; [reflexivity|first [right; discriminate|left; discriminate]].
      * intros [-> _]. right; right; right. reflexivity.
Qed.

Lemma update_effects_witness :
  (forall x y, abspath rename_env x = abspath rename_env y -> x = y) /\
  persisted_inv rename_saved /\
  scan_and_compare rename_env
    (snd (load_or_initialize_index rename_env (IndexFile rename_saved))) =
    ([], [], [], [("/data/img/a.png", "/data/img/b.png")]) /\
  match update rename_env (IndexFile rename_saved) with
  | (ev, Ok _) =>
      (In EvLoadModel ev <-> (@nil string ++ [])%list <> []) /\
      (forall p, In (EvImageFeatures p) ev <-> In p (@nil string ++ [])%list) /\
      (forall dir, In (EvSaveConfig dir) ev <->
         dir = image_dir rename_env /\
         ((@nil string ++ [] ++ [])%list <> [] \/ [("/data/img/a.png", "/data/img/b.png")] <> [])) /\
      ((@nil string ++ [] ++ [])%list = [] ->
       [("/data/img/a.png", "/data/img/b.png")] = [] -> ev = [])
  | _ => False
  end.
Proof.
  assert (Ha : forall x y, abspath rename_env x = abspath rename_env y -> x = y)
    by (intros x y H; exact H).
  assert (Hp : persisted_inv rename_saved).
  { split; [reflexivity|]. split; [reflexivity|]. vm_compute.
    constructor; [intros [H|[]]; discriminate H|constructor; [intros []|constructor]]. }
  assert (E : scan_and_compare rename_env
    (snd (load_or_initialize_index rename_env (IndexFile rename_saved))) =
    ([], [], [], [("/data/img/a.png", "/data/img/b.png")])) by (vm_compute; reflexivity).
  split; [exact Ha|]. split; [exact Hp|]. split; [exact E|].
  exact (update_effects rename_env (IndexFile rename_saved) _ _ _ _ Ha Hp E).
Defined.

(** An index file written before hashes were stored ([hashes] missing)
    loads with no hash for any entry: the run then deletes and relabels
    nothing, and every indexed file still on disk that can be hashed is
    treated as modified (re-extracted and given its hash). *)
Theorem legacy_index_rehashed e r new modified deleted moved :
  (forall x y, abspath e x = abspath e y -> x = y) ->
  persisted_inv r -> p_hashes r = None ->
  scan_and_compare e (snd (load_or_initialize_index e (IndexFile r))) =
    (new, modified, deleted, moved) ->
  deleted = [] /\ moved = [] /\
  (forall x, In x (disk_scan e) -> In x (map (abspath e) (p_paths r)) ->
             calculate_hash e x <> None -> In x modified).
Proof.
  intros Habs Hr Hn ES.
  destruct (XFacts.scan_facts_loaded e (IndexFile r) Habs Hr _ _ _ _ ES)
    as [_ [Hph [Hk _]]].
  set (ph := snd (load_or_initialize_index e (IndexFile r))) in *.
  assert (Hnone : forall x, stored_hash ph x = None).
  { intros x. destruct (stored_hash ph x) as [h|] eqn:Eh; [|reflexivity].
    apply XFacts.stored_hash_in in Eh. rewrite Hph in Eh.
    apply in_combine_r in Eh. simpl in Eh. rewrite Hn in Eh.
    apply repeat_spec in Eh. discriminate Eh. }
  destruct (XFacts.scan_sound e ph _ _ _ _ ES) as [_ [_ [Sd Sm]]].
  destruct (XFacts.scan_complete e ph _ _ _ _ ES) as [_ [Cm _]].
  split; [|split].
  - destruct deleted as [|x l]; [reflexivity|].
    exfalso. destruct (Sd x (or_introl eq_refl)) as [_ [_ H]]. exact (H (Hnone x)).
  - destruct moved as [|[a b] l]; [reflexivity|].
    exfalso. destruct (Sm a b (or_introl eq_refl)) as [_ [_ [_ [_ [H _]]]]].
    exact (H (Hnone a)).
  - intros x Hd Hi Hh. destruct (calculate_hash e x) as [h|] eqn:Eh; [|contradiction].
    apply (Cm x h Hd); [apply Hk; exact Hi|exact Eh|rewrite Hnone; discriminate].
Qed.

Lemma legacy_index_rehashed_witness :
  (forall x y, abspath gif_env x = abspath gif_env y -> x = y) /\
  persisted_inv {| p_features := [[1%float; 0%float]]; p_paths := ["/data/img/a.png"];
                   p_hashes := None; p_base_dir := "/data/img" |} /\
  scan_and_compare gif_env
    (snd (load_or_initialize_index gif_env
       (IndexFile {| p_features := [[1%float; 0%float]]; p_paths := ["/data/img/a.png"];
                     p_hashes := None; p_base_dir := "/data/img" |}))) =
    (["/data/img/b.gif"], ["/data/img/a.png"], [], []) /\
  ([] : list string) = [] /\ ([] : list (string * string)) = [] /\
  (forall x, In x (disk_scan gif_env) -> In x (map (abspath gif_env) ["/data/img/a.png"]) ->
             calculate_hash gif_env x <> None -> In x ["/data/img/a.png"]).
Proof.
  assert (Ha : forall x y, abspath gif_env x = abspath gif_env y -> x = y)
    by (intros x y H; exact H).
  assert (Hp : persisted_inv {| p_features := [[1%float; 0%float]];
                                p_paths := ["/data/img/a.png"];
                                p_hashes := None; p_base_dir := "/data/img" |}).
  { split; [reflexivity|]. split; [exact I|]. constructor; [intros []|constructor]. }
  assert (E : scan_and_compare gif_env
    (snd (load_or_initialize_index gif_env
       (IndexFile {| p_features := [[1%float; 0%float]]; p_paths := ["/data/img/a.png"];
                     p_hashes := None; p_base_dir := "/data/img" |}))) =
    (["/data/img/b.gif"], ["/data/img/a.png"], [], [])) by (vm_compute; reflexivity).
  split; [exact Ha|]. split; [exact Hp|]. split; [exact E|].
  exact (legacy_index_rehashed gif_env _ _ _ _ _ Ha Hp eq_refl E).
Defined.









End UpdateX.

Section Persist.
Import Indexer.

(** An index written by [_save_index] reads back as the same store: when
    [os.path.abspath] fixes the stored absolute paths and inverts
    [os.path.relpath] on them, [_load_or_initialize_index] on the saved
    file gives back the features, paths and hashes that were saved, and
    [ImageSearcher.__init__] opens it with those paths and feature rows. *)
Theorem saved_index_round_trip e f d r :
  (forall p, In p (paths d) -> abspath e p = p /\ abspath e (relpath e p) = p) ->
  In (EvSaveIndex r) (save_index e f d) ->
  fst (load_or_initialize_index e (IndexFile r)) = d /\
  forall model_path cf x,
    Config.model_loader_path model_path cf = Config.Done x ->
    Config.searcher_init (abspath e) model_path cf (IndexFile r) =
      Config.Done {| image_paths := paths d; image_features := features d |}.
Proof.
  intros Hab Hin. destruct d as [F ps H]. simpl in Hab |- *.
  unfold save_index in Hin. simpl in Hin.
  destruct ps as [|x l].
  { destruct (index_file_exists f); simpl in Hin;
      [destruct Hin as [Hx|[]]; discriminate Hx|destruct Hin]. }
  assert (Hmap : map (abspath e) (if is_in_current_folder e
                                  then map (relpath e) (x :: l) else x :: l) = x :: l).
  { destruct (is_in_current_folder e).
    - rewrite map_map. rewrite <- map_id. apply map_ext_in.
      intros p Hp. exact (proj2 (Hab p Hp)).
    - rewrite <- map_id. apply map_ext_in. intros p Hp. exact (proj1 (Hab p Hp)). }
  assert (Hr : r = {| p_features := F;
                      p_paths := if is_in_current_folder e
                                 then map (relpath e) (x :: l) else x :: l;
                      p_hashes := Some H;
                      p_base_dir := if is_in_current_folder e
                                    then relpath e (image_dir e) else image_dir e |}).
  { destruct (is_in_current_folder e); simpl in Hin;
      destruct Hin as [Hx|[]]; injection Hx as <-; reflexivity. }
  subst r. split.
  - unfold load_or_initialize_index. cbn [fst p_paths p_features p_hashes].
    rewrite Hmap. reflexivity.
  - intros mp cf y Hm. unfold Config.searcher_init.
    cbn [Indexer.index_file_exists negb]. rewrite Hm.
    unfold Config.searcher_of. cbn [p_paths p_features]. rewrite Hmap. reflexivity.
Qed.

Lemma saved_index_round_trip_witness :
  (forall p, In p (paths one_entry) ->
     abspath gif_env p = p /\ abspath gif_env (relpath gif_env p) = p) /\
  In (EvSaveIndex gif_saved) (save_index gif_env NoIndexFile one_entry) /\
  fst (load_or_initialize_index gif_env (IndexFile gif_saved)) = one_entry /\
  forall model_path cf x,
    Config.model_loader_path model_path cf = Config.Done x ->
    Config.searcher_init (abspath gif_env) model_path cf (IndexFile gif_saved) =
      Config.Done {| image_paths := paths one_entry;
                     image_features := features one_entry |}.
Proof.
  assert (Ha : forall p, In p (paths one_entry) ->
     abspath gif_env p = p /\ abspath gif_env (relpath gif_env p) = p)
    by (intros p _; split; reflexivity).
  assert (Hi : In (EvSaveIndex gif_saved) (save_index gif_env NoIndexFile one_entry))
    by (vm_compute; left; reflexivity).
  split; [exact Ha|]. split; [exact Hi|].
  exact (saved_index_round_trip gif_env NoIndexFile one_entry gif_saved Ha Hi).
Defined.

(** When [_save_index] has run to the end, the index file (its name with
    [.npz] appended when missing) holds the features, the stored paths
    (relative to the working directory when the image directory is inside
    it), the hashes, the stored base directory and the zip central
    directory, in this order; for an empty store an existing index file is
    gone and a missing one stays missing. *)
Theorem save_index_file_content e f d (st : Fs.fs) :
  (paths d <> [] ->
   Dict.get (Fs.npz_name (index_path e)) (Fs.run st (Fs.save_ops e f d)) =
   Some [Fs.MFeatures (features d);
         Fs.MPaths (if is_in_current_folder e then map (relpath e) (paths d)
                    else paths d);
         Fs.MHashes (hashes d);
         Fs.MBaseDir (if is_in_current_folder e then relpath e (image_dir e)
                      else image_dir e);
         Fs.MCentralDirectory]) /\
  (paths d = [] -> NoDup (Dict.keys st) ->
   Dict.get (index_path e) (Fs.run st (Fs.save_ops e f d)) =
   if index_file_exists f then None else Dict.get (index_path e) st).
Proof.
  unfold Fs.save_ops, save_index. split.
  - intros Hne. destruct (paths d) as [|x l]; [congruence|].
    destruct (is_in_current_folder e); simpl;
      apply (XFacts.run_create_appends _
               [Fs.MFeatures _; Fs.MPaths _; Fs.MHashes _; Fs.MBaseDir _;
                Fs.MCentralDirectory]).
  - intros -> Hn. destruct (index_file_exists f); simpl; [|reflexivity].
    apply XFacts.get_del_same. exact Hn.
Qed.

Lemma save_index_file_content_witness :
  paths one_entry <> [] /\
  Dict.get (Fs.npz_name (index_path gif_env))
    (Fs.run old_fs (Fs.save_ops gif_env (IndexFile gif_saved) one_entry)) =
  Some [Fs.MFeatures (features one_entry);
        Fs.MPaths (if is_in_current_folder gif_env
                   then map (relpath gif_env) (paths one_entry) else paths one_entry);
        Fs.MHashes (hashes one_entry);
        Fs.MBaseDir (if is_in_current_folder gif_env
                     then relpath gif_env (image_dir gif_env) else image_dir gif_env);
        Fs.MCentralDirectory] /\
  (paths empty_data = [] /\ NoDup (Dict.keys old_fs) /\
   Dict.get (index_path gif_env)
     (Fs.run old_fs (Fs.save_ops gif_env (IndexFile gif_saved) empty_data)) = None).
Proof.
  assert (Hne : paths one_entry <> []) by discriminate.
  assert (Hn : NoDup (Dict.keys old_fs)) by (constructor; [intros []|constructor]).
  split; [exact Hne|]. split.
  - exact (proj1 (save_index_file_content gif_env (IndexFile gif_saved) one_entry old_fs) Hne).
  - split; [reflexivity|]. split; [exact Hn|].
    exact (proj2 (save_index_file_content gif_env (IndexFile gif_saved) empty_data old_fs)
             eq_refl Hn).
Defined.

End Persist.

Section ConfigX.
Import Config.

(** [_save_image_dir_to_config] fails with [TypeError] exactly when the
    configuration holds JSON that is not an object; otherwise it writes an
    object with [image_base_dir] set to the directory and every other key
    as before (none for a missing or invalid file).  Read back, the web
    app gets the directory made absolute (a non-empty one) and the model
    loader gets the [model_path] it got before, or [None] where the file
    was missing or invalid. *)
Theorem config_save_image_dir (ab : string -> string) dir cf :
  (save_image_dir_to_config dir cf = Raised Config.TypeError <->
   exists v, cf = ConfigJson v /\ forall d, v <> JObj d) /\
  (forall cf', save_image_dir_to_config dir cf = Done cf' ->
   exists d', cf' = ConfigJson (JObj d') /\
     Dict.get "image_base_dir" d' = Some (JStr dir) /\
     (forall k, k <> "image_base_dir" ->
        Dict.get k d' = match cf with ConfigJson (JObj d) => Dict.get k d | _ => None end) /\
     (dir <> "" -> get_persisted_image_dir ab cf' = Done (Some (ab dir))) /\
     get_path_from_config cf' =
       Done (match cf with ConfigJson (JObj d) => Dict.get "model_path" d | _ => None end)).
Proof.
  assert (Hobj : forall d cf', Done (ConfigJson (JObj (Dict.set "image_base_dir" (JStr dir) d)))
                                = Done cf' ->
            exists d', cf' = ConfigJson (JObj d') /\
              Dict.get "image_base_dir" d' = Some (JStr dir) /\
              (forall k, k <> "image_base_dir" -> Dict.get k d' = Dict.get k d) /\
              (dir <> "" -> get_persisted_image_dir ab cf' = Done (Some (ab dir))) /\
              get_path_from_config cf' = Done (Dict.get "model_path" d)).
  { intros d cf' H. injection H as <-. eexists. split; [reflexivity|].
    assert (Hs : Dict.get "image_base_dir" (Dict.set "image_base_dir" (JStr dir) d)
                 = Some (JStr dir))
      by (rewrite XFacts.get_set_eq; reflexivity).
    split; [exact Hs|]. split; [|split].
    - intros k Hk. rewrite XFacts.get_set_eq.
      apply String.eqb_neq in Hk. rewrite Hk. reflexivity.
    - intros Hd. simpl. rewrite Hs. simpl.
      apply String.eqb_neq in Hd. rewrite Hd. reflexivity.
    - simpl. rewrite XFacts.get_set_eq. reflexivity. }
  destruct cf as [| |v]; [| |destruct v as [| | | | |d]]; simpl.
  all: try (split; [split; [intros H; discriminate H|
                            intros [v [Hv Hn]]; try discriminate Hv]|]).
  all: try (intros cf' H; exact (Hobj _ _ H)).
  all: try (split; [split; [intros _; eexists; split; [reflexivity|intros d Hd; discriminate Hd]
                           |reflexivity]|intros cf' H; discriminate H]).
  injection Hv as <-. exfalso. exact (Hn d eq_refl).
Qed.

Lemma config_save_image_dir_witness :
  exists cf', save_image_dir_to_config "/data/img"
                (ConfigJson (JObj [("model_path", JStr "./clip")])) = Done cf' /\
  exists d', cf' = ConfigJson (JObj d') /\
     Dict.get "image_base_dir" d' = Some (JStr "/data/img") /\
     (forall k, k <> "image_base_dir" ->
        Dict.get k d' = Dict.get k [("model_path", JStr "./clip")]) /\
     ("/data/img" <> "" -> get_persisted_image_dir (fun p => p) cf' = Done (Some "/data/img")) /\
     get_path_from_config cf' = Done (Some (JStr "./clip")).
Proof.
  eexists. split; [vm_compute; reflexivity|].
  exact (proj2 (config_save_image_dir (fun p => p) "/data/img"
                  (ConfigJson (JObj [("model_path", JStr "./clip")]))) _ eq_refl).
Defined.

(** [ModelLoader.load] loads at most once: after a call that returned the
    model and processor, every later call returns the same pair without
    calling [from_pretrained].  A failed call raises neither [OSError]
    (nor its subclass [FileNotFoundError]) nor [ImportError], which become
    [RuntimeError]; it leaves no processor behind, so the next call tries
    [from_pretrained] again.  This holds for every state the loader
    reaches, where a processor is only set together with a model. *)
Theorem model_loader_memoized {M P : Type} (fm : outcome M) (fp : outcome P)
    (st : loader M P) :
  (model st = None -> processor st = None) ->
  match load fm fp st with
  | (_, (st', Done mp)) =>
      forall (fm' : outcome M) (fp' : outcome P),
        load fm' fp' st' = ([], (st', Done mp))
  | (_, (st', Raised x)) =>
      x <> OSError /\ x <> FileNotFoundError /\ x <> ImportError /\
      processor st' = None /\ (model st' = None -> processor st' = None) /\
      forall (fm' : outcome M) (fp' : outcome P),
        hd_error (fst (load fm' fp' st')) = Some EvModelFromPretrained
  end.
Proof.
  intros Hinv.
  assert (Hw : forall e0, wrap_load_error e0 <> OSError /\
                          wrap_load_error e0 <> FileNotFoundError /\
                          wrap_load_error e0 <> ImportError)
    by (intros []; simpl; repeat split; discriminate).
  assert (Hretry : forall st' : loader M P, processor st' = None ->
            forall (fm' : outcome M) (fp' : outcome P),
              hd_error (fst (load fm' fp' st')) = Some EvModelFromPretrained).
  { intros st' Hp fm' fp'. unfold load. rewrite Hp.
    destruct (model st'); destruct fm'; [destruct fp'| |destruct fp'|]; reflexivity. }
  destruct st as [m0 p0]. unfold load. simpl in Hinv |- *.
  destruct m0 as [m0|]; [destruct p0 as [p0|]|]; [intros fm' fp'; reflexivity| |
    rewrite (Hinv eq_refl)];
  (destruct fm as [m|e0]; [destruct fp as [p|e1]|];
   [intros fm' fp'; reflexivity
   |destruct (Hw e1) as [H1 [H2 H3]]
   |destruct (Hw e0) as [H1 [H2 H3]]]);
  repeat split; try assumption; try (intros _; reflexivity);
  apply Hretry; reflexivity.
Qed.

Lemma model_loader_memoized_witness :
  ((@model nat nat (Build_loader None None)) = None ->
   @processor nat nat (Build_loader None None) = None) /\
  match load (Raised OSError) (Done 2) (Build_loader (M:=nat) (P:=nat) None None) with
  | (_, (st', Done mp)) =>
      forall (fm' : outcome nat) (fp' : outcome nat),
        load fm' fp' st' = ([], (st', Done mp))
  | (_, (st', Raised x)) =>
      x <> OSError /\ x <> FileNotFoundError /\ x <> ImportError /\
      processor st' = None /\ (model st' = None -> processor st' = None) /\
      forall (fm' : outcome nat) (fp' : outcome nat),
        hd_error (fst (load fm' fp' st')) = Some EvModelFromPretrained
  end.
Proof.
  assert (H : (@model nat nat (Build_loader None None)) = None ->
              @processor nat nat (Build_loader None None) = None) by (intros _; reflexivity).
  split; [exact H|]. exact (model_loader_memoized (Raised OSError) (Done 2) _ H).
Defined.

(** [ImageSearcher.__init__] checks for the index file before anything
    else; a truthy [model_path] argument means the configuration file is
    never read; without one, a missing configuration raises
    [RuntimeError] and an invalid one [JSONDecodeError]. *)
Theorem searcher_init_checks (ab : string -> string) model_path cf f :
  (Indexer.index_file_exists f = false ->
   searcher_init ab model_path cf f = Raised FileNotFoundError) /\
  (Py.truthy model_path = true ->
   forall cf', searcher_init ab model_path cf' f = searcher_init ab model_path cf f) /\
  (Py.truthy model_path = false -> Indexer.index_file_exists f = true ->
   searcher_init ab model_path ConfigMissing f = Raised RuntimeError /\
   searcher_init ab model_path ConfigInvalid f = Raised JSONDecodeError).
Proof.
  unfold searcher_init, model_loader_path. split; [|split].
  - intros ->. reflexivity.
  - intros Ht cf'. rewrite Ht. reflexivity.
  - intros Ht He. rewrite Ht, He. split; reflexivity.
Qed.

Lemma searcher_init_checks_witness :
  Indexer.index_file_exists Indexer.NoIndexFile = false /\
  Py.truthy (Some "./clip") = true /\
  Py.truthy None = false /\ Indexer.index_file_exists Indexer.CorruptIndexFile = true /\
  searcher_init (fun p => p) None ConfigMissing Indexer.CorruptIndexFile = Raised RuntimeError.
Proof.
  split; [reflexivity|]. split; [reflexivity|]. split; [reflexivity|]. split; [reflexivity|].
  destruct (searcher_init_checks (fun p => p) None ConfigMissing Indexer.CorruptIndexFile)
    as [_ [_ H]].
  exact (proj1 (H eq_refl eq_refl)).
Defined.

End ConfigX.

(** [convert_webm_to_gif]: the target width, when [int] succeeds on the
    scaled width [w], is even, at least 2, and [max(2, w)] or one less. *)
Theorem target_width_even (original_width : Z) (scale : float) t :
  Converter.target_width original_width scale = Some t ->
  (t mod 2 = 0)%Z /\ (2 <= t)%Z /\
  exists w, Converter.scaled_width original_width scale = Some w /\
            (t <= Z.max 2 w < t + 2)%Z.
Proof.
  unfold Converter.target_width.
  destruct (Converter.scaled_width original_width scale) as [w|]; [|discriminate].
  intros H. injection H as <-.
  destruct (Z.max 2 w mod 2 =? 0)%Z eqn:E; simpl.
  - apply Z.eqb_eq in E. split; [exact E|]. split; [lia|].
    exists w. split; [reflexivity|lia].
  - apply Z.eqb_neq in E. split; [|split].
    + set (m := Z.max 2 w) in *.
      assert (Hm : (m mod 2 = 1)%Z) by (pose proof (Z.mod_pos_bound m 2); lia).
      rewrite (Z.div_mod m 2) at 1 by lia. rewrite Hm.
      replace (2 * (m / 2) + 1 - 1)%Z with ((m / 2) * 2)%Z by ring.
      apply Z.mod_mul. lia.
    + assert (Z.max 2 w <> 2)%Z by (intros H; rewrite H in E; apply E; reflexivity). lia.
    + exists w. split; [reflexivity|lia].
Qed.

Lemma target_width_even_witness :
  Converter.target_width 7 0.5%float = Some 2%Z /\
  ((2 mod 2 = 0)%Z /\ (2 <= 2)%Z /\
   exists w, Converter.scaled_width 7 0.5%float = Some w /\ (2 <= Z.max 2 w < 2 + 2)%Z).
Proof.
  assert (H : Converter.target_width 7 0.5%float = Some 2%Z) by (vm_compute; reflexivity).
  split; [exact H|]. exact (target_width_even 7 0.5%float 2 H).
Defined.

(** [_copy_file_to_clipboard_windows]: the [CF_HDROP] data is the 20-byte
    [DROPFILES] header (its [pFiles] offset 20 pointing just past it, [fWide]
    set) followed by the UTF-16 code units of the absolute path with every
    ['/'] turned into ['\'], then a single null unit. *)
Theorem windows_clipboard_layout (ab : string -> string) (file_path : string) :
  firstn 20 (Clipboard.windows_clipboard_data ab file_path) =
    [20; 0; 0; 0; 0; 0; 0; 0; 0; 0; 0; 0; 0; 0; 0; 0; 1; 0; 0; 0]%Z /\
  Clipboard.units (skipn 20 (Clipboard.windows_clipboard_data ab file_path)) =
    (Clipboard.utf16_units (Clipboard.to_backslashes (ab file_path)) ++ [0%Z])%list /\
  ~ In 47%Z (Clipboard.utf16_units (Clipboard.to_backslashes (ab file_path))).
Proof.
  split; [reflexivity|]. split.
  - unfold Clipboard.windows_clipboard_data. simpl skipn.
    apply XFacts.units_encode.
  - apply XFacts.backslashes_no_slash.
Qed.

End Extra.
